(** * Structa AI workers: a shallow embedding of the heuristic pipeline

    The development embeds the pure parts of the document-understanding
    workers (processors/table_alignment.py, processors/layout.py,
    processors/tables.py, processors/structuring.py and
    processors/error_correction.py) and proves properties of them.

    Conventions of the embedding.

    - A Python [str] is a list of Unicode code points ([char := N]).  The
      character classes of the interpreter and of the [re] module that depend
      on the Unicode database ([\d], [\w], [str.isalnum], [str.isupper],
      [str.lower], [str.upper]) are modelled on their ASCII range; white
      space ([str.isspace], [\s], [str.strip], [str.split]) follows the
      interpreter's complete table.
    - A Python [int] is a [Z].  A Python [float] is the exact rational value
      of the literal it was read from (kept in lowest terms), plus the two
      infinities and NaN; binary64 rounding is not modelled.
    - An exception is a value of [result]; [try ... except] is a match on it.
    - [sorted] is modelled by a stable insertion sort: a stable sort of a
      list under a total preorder is unique, so this is what Timsort returns.
    - A [dict] whose insertion order matters is an association list that is
      updated in place when the key is present and extended at the end
      otherwise. *)

From Stdlib Require Import Ascii String DecimalString DecimalNat.
From Stdlib Require Import ZArith NArith QArith Qreduction Bool Lia Arith.
From Stdlib Require Import List Permutation Sorted.
Import ListNotations.

Set Implicit Arguments.
Local Open Scope N_scope.
Local Open Scope list_scope.

(** ** Python strings *)

Module Py.

Abbreviation char := N (only parsing).
Abbreviation str := (list N) (only parsing).

(** The code point of an ASCII character, and the string of a literal. *)
Definition ch (a : ascii) : char := N_of_ascii a.

Fixpoint py (s : string) : str :=
  match s with
  | EmptyString => []
  | String a s' => ch a :: py s'
  end.

Definition char_eqb (a b : char) : bool := N.eqb a b.

Fixpoint str_eqb (s t : str) : bool :=
  match s, t with
  | [], [] => true
  | a :: s', b :: t' => char_eqb a b && str_eqb s' t'
  | _, _ => false
  end.

Definition in_range (lo hi c : char) : bool := (lo <=? c) && (c <=? hi).

Definition is_digit (c : char) : bool := in_range 48 57 c.
Definition is_upper (c : char) : bool := in_range 65 90 c.
Definition is_lower (c : char) : bool := in_range 97 122 c.
Definition is_alpha (c : char) : bool := is_upper c || is_lower c.
Definition is_alnum (c : char) : bool := is_alpha c || is_digit c.

(** [str.isspace] of one character: the interpreter's white-space table. *)
Definition is_space (c : char) : bool :=
  in_range 9 13 c || in_range 28 32 c || (c =? 133) || (c =? 160)
  || (c =? 5760) || in_range 8192 8202 c || (c =? 8232) || (c =? 8233)
  || (c =? 8239) || (c =? 8287) || (c =? 12288).

(** [\w] of the [re] module. *)
Definition is_word (c : char) : bool := is_alnum c || (c =? 95).

Definition lower_char (c : char) : char := if is_upper c then c + 32 else c.
Definition upper_char (c : char) : char := if is_lower c then c - 32 else c.

Definition lower (s : str) : str := map lower_char s.
Definition upper (s : str) : str := map upper_char s.

(** [str.capitalize]: first character upper-cased, the rest lower-cased. *)
Definition capitalize (s : str) : str :=
  match s with
  | [] => []
  | c :: s' => upper_char c :: lower s'
  end.

(** [str.isupper]: at least one cased character and no lower-case one. *)
Definition isupper (s : str) : bool :=
  existsb is_upper s && negb (existsb is_lower s).

Fixpoint lstrip (s : str) : str :=
  match s with
  | [] => []
  | c :: s' => if is_space c then lstrip s' else s
  end.

Definition rstrip (s : str) : str := rev (lstrip (rev s)).

Definition strip (s : str) : str := rstrip (lstrip s).

(** [s.replace(c, t)] for a one-character pattern [c]. *)
Fixpoint replace (c : char) (t : str) (s : str) : str :=
  match s with
  | [] => []
  | a :: s' => if char_eqb a c then t ++ replace c t s' else a :: replace c t s'
  end.

(** [c in s] for a one-character [c]. *)
Definition contains (c : char) (s : str) : bool := existsb (char_eqb c) s.

(** [s.split(sep)] for a one-character separator: never empty. *)
Fixpoint split_on (sep : char) (s : str) : list str :=
  match s with
  | [] => [[]]
  | a :: s' =>
      if char_eqb a sep then [] :: split_on sep s'
      else match split_on sep s' with
           | [] => [[a]]
           | w :: ws => (a :: w) :: ws
           end
  end.

(** [s.split()]: the maximal runs of non-space characters. *)
Fixpoint split_ws_aux (cur : str) (s : str) : list str :=
  match s with
  | [] => match cur with [] => [] | _ => [rev cur] end
  | a :: s' =>
      if is_space a
      then match cur with
           | [] => split_ws_aux [] s'
           | _ => rev cur :: split_ws_aux [] s'
           end
      else split_ws_aux (a :: cur) s'
  end.

Definition split_ws (s : str) : list str := split_ws_aux [] s.

(** [sep.join(parts)]. *)
Fixpoint join (sep : str) (parts : list str) : str :=
  match parts with
  | [] => []
  | [p] => p
  | p :: ps => p ++ sep ++ join sep ps
  end.

(** [str(n)] for a non-negative integer. *)
Definition str_of_nat (n : nat) : str := py (NilEmpty.string_of_uint (Nat.to_uint n)).

(** Exceptions the embedded code can raise.  A [ValueError] keeps the
    conversion that failed and the text it refused, from which the
    interpreter builds the message. *)
Inductive conversion := ToFloat | ToInt.

Inductive exn :=
| ValueError (conv : conversion) (text : str)
| AttributeError (attr : str)
| IndexError.

Inductive result (A : Type) : Type :=
| Ok (a : A)
| Raise (e : exn).

Arguments Ok {A} a.
Arguments Raise {A} e.

Definition bind {A B} (m : result A) (f : A -> result B) : result B :=
  match m with
  | Ok a => f a
  | Raise e => Raise e
  end.

Notation "'let*' x ':=' m 'in' k" := (bind m (fun x => k))
  (at level 10, x name, m at level 100, k at level 200).

(** Python floats. *)
Inductive pyfloat :=
| FNan
| FInf (negative : bool)
| FFin (q : Q).

(** Values stored in table rows and key-value mappings. *)
Inductive pyval :=
| VNone
| VBool (b : bool)
| VInt (z : Z)
| VFloat (f : pyfloat)
| VStr (s : str).

(** *** Numeric literals *)

Definition digit_val (c : char) : N := c - 48.

(** [digitpart ::= digit (["_"] digit)*], read greedily; the accumulator is
    the value so far and the number of digits read. *)
Fixpoint digits_tail (acc : N) (n : nat) (s : str) : N * nat * str :=
  match s with
  | c :: s' =>
      if is_digit c then digits_tail (10 * acc + digit_val c) (S n) s'
      else if c =? 95 then
        match s' with
        | d :: s'' =>
            if is_digit d then digits_tail (10 * acc + digit_val d) (S n) s''
            else (acc, n, s)
        | [] => (acc, n, s)
        end
      else (acc, n, s)
  | [] => (acc, n, s)
  end.

Definition digitpart (acc : N) (s : str) : option (N * nat * str) :=
  match s with
  | c :: s' => if is_digit c then Some (digits_tail (10 * acc + digit_val c) 1 s') else None
  | [] => None
  end.

Definition sign (s : str) : bool * str :=
  match s with
  | c :: s' => if c =? 45 then (true, s') else if c =? 43 then (false, s') else (false, s)
  | [] => (false, s)
  end.

(** [int(s)] in base 10. *)
Definition parse_int (s : str) : option Z :=
  let '(neg, s1) := sign (strip s) in
  match digitpart 0 s1 with
  | Some (v, _, []) => Some (if neg then Z.opp (Z.of_N v) else Z.of_N v)
  | _ => None
  end.

Definition int (s : str) : result Z :=
  match parse_int s with
  | Some z => Ok z
  | None => Raise (ValueError ToInt s)
  end.

(** The value [m * 10^e] in lowest terms. *)
Definition decimal (m : N) (e : Z) : Q :=
  match e with
  | Z0 => Qred (Z.of_N m # 1)
  | Zpos p => Qred (Z.of_N m * 10 ^ Zpos p # 1)
  | Zneg p => Qred (Z.of_N m # Pos.pow 10 p)
  end.

(** [exponent ::= ("e" | "E") [sign] digitpart]. *)
Definition exponent (s : str) : option (Z * str) :=
  match s with
  | c :: s' =>
      if (c =? 101) || (c =? 69) then
        let '(neg, s1) := sign s' in
        match digitpart 0 s1 with
        | Some (v, _, rest) => Some (if neg then Z.opp (Z.of_N v) else Z.of_N v, rest)
        | None => None
        end
      else None
  | [] => None
  end.

(** [number ::= [digitpart] "." digitpart | digitpart ["."]]: the integer
    mantissa, the count of fraction digits and the rest. *)
Definition number (s : str) : option (N * nat * str) :=
  match digitpart 0 s with
  | Some (v, _, rest) =>
      match rest with
      | c :: rest' =>
          if c =? 46 then
            match digitpart v rest' with
            | Some (v', n, rest'') => Some (v', n, rest'')
            | None => Some (v, O, rest')
            end
          else Some (v, O, rest)
      | [] => Some (v, O, rest)
      end
  | None =>
      match s with
      | c :: s' =>
          if c =? 46 then
            match digitpart 0 s' with
            | Some (v', n, rest) => Some (v', n, rest)
            | None => None
            end
          else None
      | [] => None
      end
  end.

Definition floatnumber (s : str) : option Q :=
  match number s with
  | Some (m, n, rest) =>
      match rest with
      | [] => Some (decimal m (- Z.of_nat n))
      | _ =>
          match exponent rest with
          | Some (e, []) => Some (decimal m (e - Z.of_nat n))
          | _ => None
          end
      end
  | None => None
  end.

(** [float(s)]. *)
Definition parse_float (s : str) : option pyfloat :=
  let '(neg, s1) := sign (strip s) in
  let w := lower s1 in
  if str_eqb w (py "inf") || str_eqb w (py "infinity") then Some (FInf neg)
  else if str_eqb w (py "nan") then Some FNan
  else match floatnumber s1 with
       | Some q => Some (FFin (if neg then Qred (Qopp q) else q))
       | None => None
       end.

Definition float (s : str) : result pyfloat :=
  match parse_float s with
  | Some f => Ok f
  | None => Raise (ValueError ToFloat s)
  end.

(** [f / 100] on floats. *)
Definition fdiv100 (f : pyfloat) : pyfloat :=
  match f with
  | FFin q => FFin (Qred (q / (100 # 1)))
  | other => other
  end.

(** [list(enumerate(l))] *)
Fixpoint enumerate_from {A} (i : nat) (l : list A) : list (nat * A) :=
  match l with
  | [] => []
  | a :: l' => (i, a) :: enumerate_from (S i) l'
  end.

Definition enumerate {A} (l : list A) : list (nat * A) := enumerate_from O l.

(** A loop whose body can raise: [for x in l: a = f(a, x)]. *)
Fixpoint fold_result {A B} (f : A -> B -> result A) (l : list B) (a : A) : result A :=
  match l with
  | [] => Ok a
  | x :: l' => let* a' := f a x in fold_result f l' a'
  end.

(** [l[i] = v]; an index out of range raises [IndexError]. *)
Fixpoint set_at {A} (l : list A) (i : nat) (v : A) : result (list A) :=
  match l, i with
  | [], _ => Raise IndexError
  | _ :: l', O => Ok (v :: l')
  | a :: l', S i' => let* l'' := set_at l' i' v in Ok (a :: l'')
  end.

(** [range(a, b)] for non-negative bounds. *)
Definition py_range (a b : nat) : list nat := seq a (b - a).

(** A stable insertion sort by an integer key: Python's [sorted(l, key=...)]. *)
Section Sorted.
Variable A : Type.
Variable le : A -> A -> bool.

Fixpoint insert_sorted (x : A) (l : list A) : list A :=
  match l with
  | [] => [x]
  | y :: l' => if le y x then y :: insert_sorted x l' else x :: l
  end.

Definition sorted (l : list A) : list A :=
  fold_left (fun acc x => insert_sorted x acc) l [].
End Sorted.

End Py.

(** ** Regular expressions

    The patterns of the source are transcribed into a small abstract syntax
    and run by a backtracking matcher with the [re] module's semantics:
    ordered alternatives, greedy repetition, numbered capture groups. *)

Module Re.
Import Py.

Inductive regex :=
| Eps
| Cls (p : char -> bool)        (* one character of a class *)
| Cat (r1 r2 : regex)
| Alt (r1 r2 : regex)           (* r1|r2, r1 tried first *)
| Star (r : regex)              (* r*, greedy *)
| Grp (n : nat) (r : regex)     (* capture group number n *)
| Eol.                          (* $ *)

Definition Plus (r : regex) : regex := Cat r (Star r).
Definition Opt (r : regex) : regex := Alt r Eps.

(** [r{lo,hi}], greedy. *)
Fixpoint upto (n : nat) (r : regex) : regex :=
  match n with
  | O => Eps
  | S k => Opt (Cat r (upto k r))
  end.

Fixpoint exactly (n : nat) (r : regex) : regex :=
  match n with
  | O => Eps
  | S k => Cat r (exactly k r)
  end.

Definition Rep (lo hi : nat) (r : regex) : regex :=
  Cat (exactly lo r) (upto (hi - lo) r).

Fixpoint Seq (rs : list regex) : regex :=
  match rs with
  | [] => Eps
  | [r] => r
  | r :: rs' => Cat r (Seq rs')
  end.

Fixpoint Lit (s : str) : regex :=
  match s with
  | [] => Eps
  | c :: s' => Cat (Cls (char_eqb c)) (Lit s')
  end.

Definition one_of (s : str) (c : char) : bool := contains c s.
Definition any_char : regex := Cls (fun c => negb (c =? 10)).   (* . *)
Definition d : regex := Cls is_digit.                            (* \d *)
Definition s : regex := Cls is_space.                            (* \s *)

Definition captures := list (nat * str).

Section Matcher.
Variable A : Type.

(** [go r w cs k] matches [r] at the head of [w] and hands the rest of the
    text and the groups to [k]; a [None] from [k] makes it backtrack. *)
Fixpoint go (r : regex) (w : str) (cs : captures)
    (k : str -> captures -> option A) {struct r} : option A :=
  match r with
  | Eps => k w cs
  | Cls p =>
      match w with
      | c :: w' => if p c then k w' cs else None
      | [] => None
      end
  | Cat r1 r2 => go r1 w cs (fun w' cs' => go r2 w' cs' k)
  | Alt r1 r2 =>
      match go r1 w cs k with
      | Some a => Some a
      | None => go r2 w cs k
      end
  | Star r1 =>
      (fix loop (fuel : nat) (w : str) (cs : captures) {struct fuel} : option A :=
         match fuel with
         | O => k w cs
         | S fuel' =>
             match go r1 w cs
                     (fun w' cs' =>
                        if (length w' <? length w)%nat then loop fuel' w' cs' else None) with
             | Some a => Some a
             | None => k w cs
             end
         end) (length w) w cs
  | Grp n r1 =>
      go r1 w cs
         (fun w' cs' => k w' ((n, firstn (length w - length w') w) :: cs'))
  | Eol =>
      match w with
      | [] => k w cs
      | [c] => if c =? 10 then k w cs else None
      | _ => None
      end
  end.
End Matcher.

(** [re.match(r, w)]: the match is anchored at the start of [w]; the result
    is the groups of the first successful path. *)
Definition re_match (r : regex) (w : str) : option captures :=
  go r w [] (fun _ cs => Some cs).

Definition matches (r : regex) (w : str) : bool :=
  match re_match r w with Some _ => true | None => false end.

(** [m.group(n)]; the most recent binding of the group. *)
Fixpoint group (n : nat) (cs : captures) : str :=
  match cs with
  | [] => []
  | (m, v) :: cs' => if Nat.eqb m n then v else group n cs'
  end.

(** The match of [r] at the head of [w]: its length and groups. *)
Definition match_at (r : regex) (w : str) : option (nat * captures) :=
  go r w [] (fun w' cs => Some ((length w - length w')%nat, cs)).

(** [re.sub(r, repl, w)] for a pattern that never matches the empty string:
    leftmost matches, left to right, without overlap.  [skip] counts the
    characters of the current match still to be dropped. *)
Fixpoint sub_from (r : regex) (repl : captures -> str) (skip : nat) (w : str) : str :=
  match w with
  | [] => []
  | c :: w' =>
      match skip with
      | S n => sub_from r repl n w'
      | O =>
          match match_at r w with
          | Some (S n, cs) => repl cs ++ sub_from r repl n w'
          | _ => c :: sub_from r repl O w'
          end
      end
  end.

Definition re_sub (r : regex) (repl : captures -> str) (w : str) : str :=
  sub_from r repl O w.

(** [re.sub('^' + r, '', w)]: only a match at the start is removed. *)
Definition re_sub_prefix (r : regex) (w : str) : str :=
  match match_at r w with
  | Some (n, _) => skipn n w
  | None => w
  end.

End Re.

(** ** processors/table_alignment.py *)

Module TableAlignment.
Import Py Re.

(** The column type tags: "currency", "percentage", "number", "date", "text". *)
Inductive coltype := Currency | Percentage | Number | Date | Text.

Definition coltype_eqb (a b : coltype) : bool :=
  match a, b with
  | Currency, Currency | Percentage, Percentage | Number, Number
  | Date, Date | Text, Text => true
  | _, _ => false
  end.

(** One entry of [validation_errors]; [error] is [str(e)], kept as the
    failed conversion and the text it refused. *)
Record validation_error := {
  row : nat;
  col : nat;
  value : str;
  expected_type : coltype;
  error : conversion * str
}.

Record AlignedTable := {
  headers : list str;
  rows : list (list pyval);
  column_types : list coltype;
  validation_errors : list validation_error;
  normalized : bool
}.

(** r'^[\$\u00a3\u20ac\u00a5]?\s*-?[\d,]+\.?\d*$' *)
Definition currency_pattern : regex :=
  Seq [ Opt (Cls (one_of [36; 163; 8364; 165]));
        Star s;
        Opt (Cls (char_eqb (ch "-")));
        Plus (Cls (fun c => is_digit c || char_eqb c (ch ",")));
        Opt (Cls (char_eqb (ch ".")));
        Star d;
        Eol ].

(** r'^-?[\d\.]+\s*%$' *)
Definition percentage_pattern : regex :=
  Seq [ Opt (Cls (char_eqb (ch "-")));
        Plus (Cls (fun c => is_digit c || char_eqb c (ch ".")));
        Star s;
        Cls (char_eqb (ch "%"));
        Eol ].

Definition sep : regex := Cls (one_of (py "/-")).            (* [/-] *)

(** A literal under re.IGNORECASE. *)
Fixpoint LitI (w : str) : regex :=
  match w with
  | [] => Eps
  | c :: w' => Cat (Cls (fun a => char_eqb (lower_char a) (lower_char c))) (LitI w')
  end.

Fixpoint AltI (ws : list str) : regex :=
  match ws with
  | [] => Cls (fun _ => false)
  | [w] => LitI w
  | w :: ws' => Alt (LitI w) (AltI ws')
  end.

Definition months : list str :=
  [py "Jan"; py "Feb"; py "Mar"; py "Apr"; py "May"; py "Jun";
   py "Jul"; py "Aug"; py "Sep"; py "Oct"; py "Nov"; py "Dec"].

Definition date_patterns : list regex :=
  [ (* r'^\d{1,2}[/-]\d{1,2}[/-]\d{2,4}$' *)
    Seq [Rep 1 2 d; sep; Rep 1 2 d; sep; Rep 2 4 d; Eol];
    (* r'^\d{4}[/-]\d{1,2}[/-]\d{1,2}$' *)
    Seq [Rep 4 4 d; sep; Rep 1 2 d; sep; Rep 1 2 d; Eol];
    (* r'^(?:Jan|...|Dec)[a-z]*\s+\d{1,2},?\s+\d{4}$', re.IGNORECASE *)
    Seq [AltI months; Star (Cls is_alpha); Plus s; Rep 1 2 d;
         Opt (Cls (char_eqb (ch ","))); Plus s; Rep 4 4 d; Eol] ].

(** [_normalize_columns] *)
Definition max_len (matrix : list (list str)) : nat :=
  fold_left (fun m r => Nat.max m (length r)) matrix O.

Definition _normalize_columns (matrix : list (list str)) : list (list str) :=
  match matrix with
  | [] => matrix
  | _ =>
      let max_cols := max_len matrix in
      map (fun r =>
             if (length r <? max_cols)%nat
             then r ++ repeat [] (max_cols - length r)
             else r) matrix
  end.

(** [_clean_headers]: the [while] loop that makes a name unique.  [seen]
    bounds the number of iterations: the candidates are pairwise distinct,
    so one of the first [length seen + 1] is not in [seen]. *)
Definition mem (w : str) (l : list str) : bool := existsb (str_eqb w) l.

Fixpoint dedup (fuel : nat) (seen : list str) (original : str)
    (counter : nat) (clean : str) : str :=
  match fuel with
  | O => clean
  | S fuel' =>
      if mem (lower clean) seen
      then dedup fuel' seen original (S counter)
                 (original ++ py "_" ++ str_of_nat counter)
      else clean
  end.

Definition column_name (i : nat) : str := py "Column " ++ str_of_nat (i + 1).

Definition clean_header (i : nat) (header : str) : str :=
  let clean := strip header in
  let clean := re_sub (Plus s) (fun _ => py " ") clean in         (* r'\s+' -> ' ' *)
  let clean := re_sub (Cls (fun c => negb (is_word c || is_space c || char_eqb c (ch "-"))))
                      (fun _ => []) clean in                       (* r'[^\w\s-]' -> '' *)
  match clean with
  | [] => column_name i
  | _ => clean
  end.

Fixpoint clean_headers_from (i : nat) (seen : list str) (hs : list str) : list str :=
  match hs with
  | [] => []
  | header :: hs' =>
      let original := clean_header i header in
      let clean := dedup (length seen) seen original 1 original in
      clean :: clean_headers_from (S i) (lower clean :: seen) hs'
  end.

Definition _clean_headers (hs : list str) : list str := clean_headers_from O [] hs.

(** [_is_number] *)
Definition _is_number (v : str) : bool :=
  let clean := replace (ch " ") [] (replace (ch ",") [] v) in
  match float clean with
  | Ok _ => true
  | Raise _ => false
  end.

(** The branch of [_detect_type] one value takes; [None] for a value that
    is empty after [strip] and is skipped. *)
Definition classify (v : str) : option coltype :=
  let str_value := strip v in
  match str_value with
  | [] => None
  | _ =>
      if matches currency_pattern str_value then Some Currency
      else if matches percentage_pattern str_value then Some Percentage
      else if existsb (fun p => matches p str_value) date_patterns then Some Date
      else if _is_number str_value then Some Number
      else Some Text
  end.

(** The [type_counts] dict, in the insertion order of its literal. *)
Definition type_counts0 : list (coltype * nat) :=
  [(Currency, O); (Percentage, O); (Number, O); (Date, O); (Text, O)].

Fixpoint incr (t : coltype) (counts : list (coltype * nat)) : list (coltype * nat) :=
  match counts with
  | [] => []
  | (k, n) :: rest => if coltype_eqb k t then (k, S n) :: rest else (k, n) :: incr t rest
  end.

Definition count_values (values : list str) : list (coltype * nat) :=
  fold_left (fun counts v =>
               match classify v with
               | Some t => incr t counts
               | None => counts
               end) values type_counts0.

(** [max(d, key=d.get)]: the first key, in iteration order, whose count no
    later key exceeds: the running maximum is replaced on a strictly greater
    count only. *)
Fixpoint max_from (best : coltype * nat) (rest : list (coltype * nat)) : coltype :=
  match rest with
  | [] => fst best
  | kv :: rest' => if (snd best <? snd kv)%nat then max_from kv rest' else max_from best rest'
  end.

Definition _detect_type (values : list str) : coltype :=
  let type_counts := count_values values in
  if (fold_left (fun a kv => a + snd kv)%nat type_counts O =? 0)%nat then Text
  else match type_counts with
       | [] => Text
       | kv :: rest => max_from kv rest
       end.

(** [_detect_column_types] *)
Definition column (col_idx : nat) (rows : list (list str)) : list str :=
  flat_map (fun r => match nth_error r col_idx with
                     | Some v => [v]
                     | None => []
                     end) rows.

Definition _detect_column_types (rows : list (list str)) : list coltype :=
  match rows with
  | [] => []
  | r0 :: _ => map (fun col_idx => _detect_type (column col_idx rows)) (seq 0 (length r0))
  end.

(** [_parse_value] *)
Definition _parse_value (v : str) (expected_type : coltype) : result pyval :=
  match v with
  | [] => Ok VNone
  | _ =>
      match expected_type with
      | Currency =>
          (* re.sub(r'[^\d.-]', '', value) *)
          let clean := re_sub (Cls (fun c => negb (is_digit c || char_eqb c (ch ".")
                                                   || char_eqb c (ch "-"))))
                              (fun _ => []) v in
          match clean with
          | [] => Ok (VFloat (FFin 0))
          | _ => bind (float clean) (fun f => Ok (VFloat f))
          end
      | Percentage =>
          let clean := strip (replace (ch "%") [] v) in
          match clean with
          | [] => Ok (VFloat (FFin 0))
          | _ => bind (float clean) (fun f => Ok (VFloat (fdiv100 f)))
          end
      | Number =>
          let clean := strip (replace (ch ",") [] v) in
          if contains (ch ".") clean
          then bind (float clean) (fun f => Ok (VFloat f))
          else bind (int clean) (fun z => Ok (VInt z))
      | Date => Ok (VStr v)
      | Text => Ok (VStr v)
      end
  end.

(** [_parse_and_validate]: one cell, the inner loop over a row, the outer
    loop.  Only [ValueError] is caught; anything else would propagate. *)
Definition parse_cell (column_types : list coltype) (row_idx col_idx : nat) (v : str)
    : result (pyval * list validation_error) :=
  let col_type := nth col_idx column_types Text in
  let str_value := strip v in
  match _parse_value str_value col_type with
  | Ok parsed_value => Ok (parsed_value, [])
  | Raise (ValueError conv text) =>
      Ok (VStr str_value,
          [ {| row := row_idx; col := col_idx; value := str_value;
               expected_type := col_type; error := (conv, text) |} ])
  | Raise e => Raise e
  end.

Fixpoint parse_row (column_types : list coltype) (row_idx col_idx : nat) (r : list str)
    : result (list pyval * list validation_error) :=
  match r with
  | [] => Ok ([], [])
  | v :: r' =>
      let* pe := parse_cell column_types row_idx col_idx v in
      let* rest := parse_row column_types row_idx (S col_idx) r' in
      Ok (fst pe :: fst rest, snd pe ++ snd rest)
  end.

Fixpoint parse_rows (column_types : list coltype) (row_idx : nat) (rs : list (list str))
    : result (list (list pyval) * list validation_error) :=
  match rs with
  | [] => Ok ([], [])
  | r :: rs' =>
      let* pe := parse_row column_types row_idx O r in
      let* rest := parse_rows column_types (S row_idx) rs' in
      Ok (fst pe :: fst rest, snd pe ++ snd rest)
  end.

Definition _parse_and_validate (rs : list (list str)) (column_types : list coltype)
    : result (list (list pyval) * list validation_error) :=
  parse_rows column_types O rs.

(** [align]; the argument is [table.get("matrix", [])]. *)
Definition align (matrix : list (list str)) (has_header : bool) : result AlignedTable :=
  match matrix with
  | [] => Ok {| headers := []; rows := []; column_types := [];
                validation_errors := []; normalized := true |}
  | _ =>
      let matrix := _normalize_columns matrix in
      let '(hs, data_rows) :=
        match has_header, matrix with
        | true, r0 :: rest => (map strip r0, rest)
        | _, _ => (map column_name (seq 0 (length (hd [] matrix))), matrix)
        end in
      let hs := _clean_headers hs in
      let column_types := _detect_column_types data_rows in
      let* pe := _parse_and_validate data_rows column_types in
      Ok {| headers := hs; rows := fst pe; column_types := column_types;
            validation_errors := snd pe; normalized := true |}
  end.

End TableAlignment.

(** ** processors/layout.py *)

Module Layout.
Import Py.

Inductive RegionType :=
| TEXT | TITLE | PARAGRAPH | LIST | TABLE | FIGURE | EQUATION | HEADER | FOOTER | UNKNOWN.

Definition RegionType_eqb (a b : RegionType) : bool :=
  match a, b with
  | TEXT, TEXT | TITLE, TITLE | PARAGRAPH, PARAGRAPH | LIST, LIST | TABLE, TABLE
  | FIGURE, FIGURE | EQUATION, EQUATION | HEADER, HEADER | FOOTER, FOOTER
  | UNKNOWN, UNKNOWN => true
  | _, _ => false
  end.

(** [bbox] is [(x, y, width, height)]. *)
Record BBox := { bx : Z; by_ : Z; bw : Z; bh : Z }.

Record LayoutRegion := {
  type : RegionType;
  bbox : BBox;
  confidence : Q;
  order : nat;
  content : option str
}.

Record LayoutResult := {
  regions : list LayoutRegion;
  page_size : Z * Z;
  has_tables : bool;
  has_figures : bool;
  reading_order : list nat
}.

Definition y_overlap (region last_region : LayoutRegion) : bool :=
  (by_ (bbox region) <? by_ (bbox last_region) + bh (bbox last_region))%Z
  && (by_ (bbox last_region) <? by_ (bbox region) + bh (bbox region))%Z.

(** The body of the grouping loop: the state is [(rows, current_row)]. *)
Definition group_step (st : list (list (nat * LayoutRegion)) * list (nat * LayoutRegion))
    (ir : nat * LayoutRegion) :=
  let '(rows, current_row) := st in
  match current_row with
  | [] => (rows, [ir])
  | first :: others =>
      let last_region := snd (last current_row first) in
      if y_overlap (snd ir) last_region
      then (rows, current_row ++ [ir])
      else (rows ++ [current_row], [ir])
  end.

Definition group_rows (sorted_by_y : list (nat * LayoutRegion))
    : list (list (nat * LayoutRegion)) :=
  let '(rows, current_row) := fold_left group_step sorted_by_y ([], []) in
  match current_row with
  | [] => rows
  | _ => rows ++ [current_row]
  end.

Definition key_y (ir : nat * LayoutRegion) : Z := by_ (bbox (snd ir)).
Definition key_x (ir : nat * LayoutRegion) : Z := bx (bbox (snd ir)).

Definition sorted_by {A} (key : A -> Z) (l : list A) : list A :=
  sorted (fun a b => (key a <=? key b)%Z) l.

(** [_determine_reading_order] *)
Definition _determine_reading_order (rs : list LayoutRegion) : list nat :=
  match rs with
  | [] => []
  | _ =>
      let indexed_regions := enumerate rs in
      let sorted_by_y := sorted_by key_y indexed_regions in
      let rows := group_rows sorted_by_y in
      flat_map (fun row => map fst (sorted_by key_x row)) rows
  end.

(** [regions[region_idx].order = idx] *)
Definition with_order (r : LayoutRegion) (idx : nat) : LayoutRegion :=
  {| type := type r; bbox := bbox r; confidence := confidence r;
     order := idx; content := content r |}.

Fixpoint set_order (rs : list LayoutRegion) (region_idx idx : nat)
    : result (list LayoutRegion) :=
  match rs, region_idx with
  | [], _ => Raise IndexError
  | r :: rs', O => Ok (with_order r idx :: rs')
  | r :: rs', S i => let* rs'' := set_order rs' i idx in Ok (r :: rs'')
  end.

Fixpoint update_orders (rs : list LayoutRegion) (ro : list (nat * nat))
    : result (list LayoutRegion) :=
  match ro with
  | [] => Ok rs
  | (idx, region_idx) :: ro' =>
      let* rs' := set_order rs region_idx idx in
      update_orders rs' ro'
  end.

(** [detect], from the regions that [_detect_with_model] or
    [_detect_heuristic] found in the image, and the image's size. *)
Definition detect (found : list LayoutRegion) (size : Z * Z) : result LayoutResult :=
  let ro := _determine_reading_order found in
  let* rs := update_orders found (enumerate ro) in
  Ok {| regions := rs;
        page_size := size;
        has_tables := existsb (fun r => RegionType_eqb (type r) TABLE) rs;
        has_figures := existsb (fun r => RegionType_eqb (type r) FIGURE) rs;
        reading_order := ro |}.

End Layout.

(** ** processors/tables.py *)

Module Tables.
Import Py.

Definition rect := (Z * Z * Z * Z)%type.      (* (x, y, width, height) *)

Record TableCell := {
  row : nat;
  col : nat;
  row_span : nat;
  col_span : nat;
  text : str;
  bbox : rect;
  confidence : Q;
  is_header : bool
}.

Record Table := {
  t_bbox : rect;
  cells : list TableCell;
  num_rows : nat;
  num_cols : nat;
  t_confidence : Q;
  has_header : bool
}.

(** [sorted(set(l))] *)
Definition sorted_set (l : list Z) : list Z :=
  sorted Z.leb (nodup Z.eq_dec l).

(** [zip(l[:-1], l[1:])] *)
Definition consecutive (l : list Z) : list (Z * Z) :=
  combine (removelast l) (tl l).

Definition rect_x (r : rect) : Z := let '(x, _, _, _) := r in x.
Definition rect_y (r : rect) : Z := let '(_, y, _, _) := r in y.
Definition rect_w (r : rect) : Z := let '(_, _, w, _) := r in w.
Definition rect_h (r : rect) : Z := let '(_, _, _, h) := r in h.

(** The cell that [_find_cells] builds for one row and one column. *)
Definition make_cell (row_idx col_idx : nat) (x1 x2 y1 y2 : Z) : TableCell :=
  {| row := row_idx; col := col_idx; row_span := 1; col_span := 1;
     text := [];
     bbox := (x1, y1, x2 - x1, y2 - y1)%Z;
     confidence := 6 # 10;
     is_header := Nat.eqb row_idx 0 |}.

(** [_find_cells] *)
Definition _find_cells (horizontal_lines vertical_lines : list rect) : list TableCell :=
  let h_positions := sorted_set (map rect_y horizontal_lines) in
  let v_positions := sorted_set (map rect_x vertical_lines) in
  if (length h_positions <? 2)%nat || (length v_positions <? 2)%nat then []
  else
    flat_map
      (fun r : nat * (Z * Z) =>          (* row_idx, (y1, y2) *)
         map (fun c : nat * (Z * Z) =>   (* col_idx, (x1, x2) *)
                make_cell (fst r) (fst c)
                          (fst (snd c)) (snd (snd c)) (fst (snd r)) (snd (snd r)))
             (enumerate (consecutive v_positions)))
      (enumerate (consecutive h_positions)).

Definition with_text (c : TableCell) (t : str) : TableCell :=
  {| row := row c; col := col c; row_span := row_span c; col_span := col_span c;
     text := t; bbox := bbox c; confidence := confidence c; is_header := is_header c |}.

Definition max_of (l : list Z) : Z :=
  match l with [] => 0%Z | a :: l' => fold_left Z.max l' a end.
Definition min_of (l : list Z) : Z :=
  match l with [] => 0%Z | a :: l' => fold_left Z.min l' a end.

(** [_extract_heuristic], from the bounding boxes [_detect_lines] returns.
    [recognise] is the text recognition of one cell crop: [None] when
    pytesseract cannot be imported; on a crop, [None] when the crop has no
    pixel and the recognised text otherwise. *)
Definition _extract_heuristic (horizontal_lines vertical_lines : list rect)
    (offset : Z * Z) (recognise : option (rect -> option str)) : list Table :=
  match horizontal_lines, vertical_lines with
  | [], _ | _, [] => []
  | _, _ =>
      let cells := _find_cells horizontal_lines vertical_lines in
      match cells with
      | [] => []
      | _ =>
          let cells :=
            match recognise with
            | Some image_to_string =>
                map (fun c => match image_to_string (bbox c) with
                              | Some t => with_text c (strip t)
                              | None => c
                              end) cells
            | None => cells
            end in
          let num_rows := S (list_max (map row cells)) in
          let num_cols := S (list_max (map col cells)) in
          let x_coords := map (fun c => rect_x (bbox c)) cells in
          let y_coords := map (fun c => rect_y (bbox c)) cells in
          let widths := map (fun c => rect_x (bbox c) + rect_w (bbox c))%Z cells in
          let heights := map (fun c => rect_y (bbox c) + rect_h (bbox c))%Z cells in
          [ {| t_bbox := (min_of x_coords + fst offset, min_of y_coords + snd offset,
                          max_of widths - min_of x_coords,
                          max_of heights - min_of y_coords)%Z;
               cells := cells;
               num_rows := num_rows;
               num_cols := num_cols;
               t_confidence := 6 # 10;
               has_header := true |} ]
      end
  end.

(** [matrix[r][c] = v] on a list of rows. *)
Definition set_cell (m : list (list str)) (r c : nat) (v : str) : result (list (list str)) :=
  match nth_error m r with
  | None => Raise IndexError
  | Some line => let* line' := set_at line c v in set_at m r line'
  end.

(** The two inner loops of [to_matrix] for one cell.  The row, the column
    and the spans of a cell are the non-negative integers that the
    extractors produce. *)
Definition fill_cell (n_rows n_cols : nat) (m : list (list str)) (c : TableCell)
    : result (list (list str)) :=
  fold_result
    (fun m r =>
       fold_result
         (fun m k =>
            set_cell m r k (if Nat.eqb r (row c) && Nat.eqb k (col c) then text c else []))
         (py_range (col c) (Nat.min (col c + col_span c) n_cols)) m)
    (py_range (row c) (Nat.min (row c + row_span c) n_rows)) m.

(** [Table.to_matrix] *)
Definition to_matrix (t : Table) : result (list (list str)) :=
  fold_result (fill_cell (num_rows t) (num_cols t)) (cells t)
              (repeat (repeat [] (num_cols t)) (num_rows t)).

End Tables.

(** ** processors/structuring.py *)

Module Structuring.
Import Py Re.

Inductive BlockType :=
| B_TEXT | B_TITLE | B_HEADING | B_PARAGRAPH | B_LIST | B_LIST_ITEM | B_TABLE
| B_KEY_VALUE | B_FIGURE | B_EQUATION | B_CODE | B_METADATA.

Definition rect := (Z * Z * Z * Z)%type.      (* (x, y, width, height) *)

(** [content: Union[str, List[Any], Dict[str, Any]]] as the code builds it. *)
Inductive content :=
| CStr (t : str)
| CList (items : list str)
| CMatrix (matrix : list (list str)).

Record ContentBlock := {
  type : BlockType;
  block_content : content;
  bbox : option rect;
  confidence : Q;
  page : Z;
  order : nat
}.

(** The always-present entries of the metadata dict.  The two optional
    entries, [dates_found] and [currency_values], are scraped from the text
    by [re.findall] and are left out: nothing below reads them. *)
Record Metadata := {
  ocr_confidence : Q;
  languages : list str;
  md_page_size : option (Z * Z);
  has_tables : bool;
  has_figures : bool;
  num_regions : nat;
  num_tables : nat;
  num_key_values : nat
}.

(** The input dicts.  A field holds what [d.get(key, default)] returns, so
    an absent key is its default. *)
Record ocr_block := { ob_text : str; ob_bbox : rect; ob_confidence : Q }.

Record ocr_result := {
  full_text : str;
  blocks : list ocr_block;
  average_confidence : Q;
  languages_detected : list str
}.

Record region := { r_type : str; r_bbox : rect; r_confidence : Q }.

Record layout_result := {
  regions : list region;
  page_size : option (Z * Z);
  l_has_tables : bool;
  l_has_figures : bool
}.

Record table := { t_bbox : rect; matrix : list (list str) }.

(** [table_result]: [None] stands for an argument that is [None] or an
    empty dict (both are false in a condition); [Some ts] for a dict whose
    [get("tables", [])] is [ts]. *)
Definition table_result := option (list table).

Record StructuredDocument := {
  title : option str;
  doc_blocks : list ContentBlock;
  metadata : Metadata;
  tables : list table;
  key_values : list (str * pyval);
  raw_text : str
}.

Definition letters_or_space : regex := Cls (fun c => is_alpha c || is_space c).

Definition key_value_patterns : list regex :=
  [ (* r'^([A-Za-z\s]+):\s*(.+)$' *)
    Seq [Grp 1 (Plus letters_or_space); Cls (char_eqb (ch ":")); Star s;
         Grp 2 (Plus any_char); Eol];
    (* r'^([A-Za-z\s]+)\s*-\s*(.+)$' *)
    Seq [Grp 1 (Plus letters_or_space); Star s; Cls (char_eqb (ch "-")); Star s;
         Grp 2 (Plus any_char); Eol];
    (* r'^([A-Za-z\s]+)\s{2,}(.+)$' *)
    Seq [Grp 1 (Plus letters_or_space); s; s; Star s;
         Grp 2 (Plus any_char); Eol] ].

(** [\-\*\\u2022\\u25e6\\u25aa\d+\.] *)
Definition list_marker (c : char) : bool :=
  one_of [45; 42; 8226; 9702; 9642; 43; 46] c || is_digit c.

(** [_map_region_type] *)
Definition _map_region_type (region_type : str) : BlockType :=
  if str_eqb region_type (py "text") then B_PARAGRAPH
  else if str_eqb region_type (py "title") then B_TITLE
  else if str_eqb region_type (py "paragraph") then B_PARAGRAPH
  else if str_eqb region_type (py "list") then B_LIST
  else if str_eqb region_type (py "table") then B_TABLE
  else if str_eqb region_type (py "figure") then B_FIGURE
  else if str_eqb region_type (py "header") then B_METADATA
  else if str_eqb region_type (py "footer") then B_METADATA
  else B_TEXT.

Definition zq (z : Z) : Q := inject_Z z.

(** [_get_text_in_region] *)
Definition _get_text_in_region (ocr_blocks : list ocr_block) (region_bbox : rect) : str :=
  let '(rx, ry, rw, rh) := region_bbox in
  let texts :=
    flat_map (fun block =>
                let '(bx, by_, bw, bh) := ob_bbox block in
                let center_x := (zq bx + zq bw / 2)%Q in
                let center_y := (zq by_ + zq bh / 2)%Q in
                if Qle_bool (zq rx) center_x && Qle_bool center_x (zq (rx + rw))
                   && Qle_bool (zq ry) center_y && Qle_bool center_y (zq (ry + rh))
                then [ob_text block] else []) ocr_blocks in
  join (py " ") texts.

(** [_find_table_for_region] *)
Fixpoint find_table (ts : list table) (region_bbox : rect) : option table :=
  match ts with
  | [] => None
  | t :: ts' =>
      let '(rx, ry, rw, rh) := region_bbox in
      let '(tx, ty, tw, th) := t_bbox t in
      let overlap_x := Z.max 0 (Z.min (rx + rw) (tx + tw) - Z.max rx tx) in
      let overlap_y := Z.max 0 (Z.min (ry + rh) (ty + th) - Z.max ry ty) in
      let overlap_area := (overlap_x * overlap_y)%Z in
      let table_area := (tw * th)%Z in
      if (0 <? table_area)%Z
         && negb (Qle_bool (zq overlap_area / zq table_area) (1 # 2))
      then Some t
      else find_table ts' region_bbox
  end.

Definition _find_table_for_region (tr : list table) (region_bbox : rect) : option table :=
  find_table tr region_bbox.

(** [_parse_list] *)
Definition _parse_list (text : str) : list str :=
  let lines := split_on 10 text in
  let items :=
    flat_map (fun line =>
                let line := strip line in
                match line with
                | [] => []
                | _ =>
                    (* re.sub(r'^[\-\*\\u2022\\u25e6\\u25aa\d+\.]\s*', '', line) *)
                    let cleaned := re_sub_prefix (Cat (Cls list_marker) (Star s)) line in
                    match cleaned with [] => [] | _ => [cleaned] end
                end) lines in
  match items with
  | [] => [text]
  | _ => items
  end.

(** [_classify_text] *)
Definition _classify_text (text : str) : BlockType :=
  let text := strip text in
  if existsb (fun p => matches p text) key_value_patterns then B_KEY_VALUE
  else if matches (Cat (Cls list_marker) (Plus s)) text then B_LIST_ITEM
  else if isupper text && (length text <? 50)%nat then B_HEADING
  else B_PARAGRAPH.

(** [_blocks_from_ocr].  The state of the loop is
    [(current_line_y, current_line_text, line_blocks)].  When a line is
    closed, the block's confidence is
    [sum(b.get("confidence", 0.5) for b in current_line_text) / len(...)]
    over a list of [str]: evaluating [b.get] raises [AttributeError]. *)
Definition line_state := (Z * list str * list ContentBlock)%type.

Definition ocr_step (st : line_state) (block : ocr_block) : result line_state :=
  let '(current_line_y, current_line_text, line_blocks) := st in
  let y := Tables.rect_y (ob_bbox block) in
  let current_line_y := if (current_line_y <? 0)%Z then y else current_line_y in
  if (20 <? Z.abs (y - current_line_y))%Z then
    match current_line_text with
    | [] => Ok (y, [ob_text block], line_blocks)
    | _ :: _ => Raise (AttributeError (py "get"))
    end
  else Ok (current_line_y, current_line_text ++ [ob_text block], line_blocks).

Fixpoint ocr_loop (st : line_state) (bs : list ocr_block) : result line_state :=
  match bs with
  | [] => Ok st
  | b :: bs' => let* st' := ocr_step st b in ocr_loop st' bs'
  end.

Definition key_yx (a b : ocr_block) : bool :=
  let '(ax, ay, _, _) := ob_bbox a in
  let '(bx, by_, _, _) := ob_bbox b in
  (ay <? by_)%Z || ((ay =? by_)%Z && (ax <=? bx)%Z).

Definition _blocks_from_ocr (ocr_blocks : list ocr_block) : result (list ContentBlock) :=
  let sorted_blocks := sorted key_yx ocr_blocks in
  let* st := ocr_loop ((-1)%Z, [], []) sorted_blocks in
  let '(_, current_line_text, line_blocks) := st in
  match current_line_text with
  | [] => Ok line_blocks
  | _ =>
      let text := join (py " ") current_line_text in
      Ok (line_blocks ++
          [ {| type := _classify_text text; block_content := CStr text; bbox := None;
               confidence := 1; page := 1; order := length line_blocks |} ])
  end.

(** [_parse_value] *)
Definition _parse_value (value : str) : pyval :=
  let l := lower value in
  if str_eqb l (py "yes") || str_eqb l (py "true") || str_eqb l (py "y") then VBool true
  else if str_eqb l (py "no") || str_eqb l (py "false") || str_eqb l (py "n") then VBool false
  else
    let clean_value :=
      replace 163 [] (replace 8364 [] (replace (ch "$") [] (replace (ch ",") [] value))) in
    let parsed :=
      if contains (ch ".") clean_value
      then let* f := float clean_value in Ok (VFloat f)
      else let* z := int clean_value in Ok (VInt z) in
    match parsed with
    | Ok v => v
    | Raise _ => VStr value
    end.

(** [key_values[key] = parsed_value] on a dict in insertion order. *)
Fixpoint dict_set (key : str) (v : pyval) (dict : list (str * pyval)) : list (str * pyval) :=
  match dict with
  | [] => [(key, v)]
  | (k, w) :: rest =>
      if str_eqb k key then (k, v) :: rest else (k, w) :: dict_set key v rest
  end.

Fixpoint dict_get (key : str) (dict : list (str * pyval)) : option pyval :=
  match dict with
  | [] => None
  | (k, w) :: rest => if str_eqb k key then Some w else dict_get key rest
  end.

(** The first pattern that matches the line, as its two groups. *)
Fixpoint first_match (patterns : list regex) (line : str) : option (str * str) :=
  match patterns with
  | [] => None
  | pattern :: rest =>
      match re_match pattern line with
      | Some m => Some (group 1 m, group 2 m)
      | None => first_match rest line
      end
  end.

(** The body of the loop of [_extract_key_values] on one line: the key and
    the parsed value when a pattern matches. *)
Definition line_key_value (line : str) : option (str * pyval) :=
  let line := strip line in
  match first_match key_value_patterns line with
  | Some (g1, g2) =>
      let key := replace (ch " ") (py "_") (lower (strip g1)) in
      let value := strip g2 in
      Some (key, _parse_value value)
  | None => None
  end.

Definition extract_step (key_values : list (str * pyval)) (line : str) :=
  match line_key_value line with
  | Some (key, parsed_value) => dict_set key parsed_value key_values
  | None => key_values
  end.

(** [_extract_key_values] *)
Definition _extract_key_values (text : str) : list (str * pyval) :=
  fold_left extract_step (split_on 10 text) [].

Section Structure.
(** The built-in [str] on a block content that is not a [str]. *)
Variable str_of_content : content -> str.

Definition content_text (b : ContentBlock) : str :=
  match block_content b with
  | CStr t => t
  | other => str_of_content other
  end.

Definition is_type (t : BlockType) (b : ContentBlock) : bool :=
  match t, type b with
  | B_TITLE, B_TITLE | B_HEADING, B_HEADING => true
  | _, _ => false
  end.

(** [_extract_title] *)
Definition _extract_title (bs : list ContentBlock) : option str :=
  match find (is_type B_TITLE) bs with
  | Some b => Some (content_text b)
  | None =>
      match find (is_type B_HEADING) bs with
      | Some b => Some (content_text b)
      | None => None
      end
  end.

(** [_build_metadata] *)
Definition _build_metadata (ocr : ocr_result) (layout : layout_result)
    (tr : table_result) (kvs : list (str * pyval)) : Metadata :=
  {| ocr_confidence := average_confidence ocr;
     languages := languages_detected ocr;
     md_page_size := page_size layout;
     has_tables := l_has_tables layout;
     has_figures := l_has_figures layout;
     num_regions := length (regions layout);
     num_tables := match tr with Some ts => length ts | None => O end;
     num_key_values := length kvs |}.

(** The block of one region, in the loop of [structure]. *)
Definition region_block (ocr_blocks : list ocr_block) (tr : table_result)
    (idx : nat) (r : region) : ContentBlock :=
  let region_bbox := r_bbox r in
  let region_text := _get_text_in_region ocr_blocks region_bbox in
  let block_type := _map_region_type (r_type r) in
  let c :=
    match block_type, tr with
    | B_TABLE, Some ts =>
        match _find_table_for_region ts region_bbox with
        | Some table_data => CMatrix (matrix table_data)
        | None => CStr region_text
        end
    | B_LIST, _ => CList (_parse_list region_text)
    | _, _ => CStr region_text
    end in
  {| type := block_type; block_content := c; bbox := Some region_bbox;
     confidence := r_confidence r; page := 1; order := idx |}.

(** [structure] *)
Definition structure (ocr : ocr_result) (layout : layout_result) (tr : table_result)
    : result StructuredDocument :=
  let ocr_blocks := blocks ocr in
  let bs := map (fun ir => region_block ocr_blocks tr (fst ir) (snd ir))
                (enumerate (regions layout)) in
  let* bs :=
    match bs, ocr_blocks with
    | [], _ :: _ => _blocks_from_ocr ocr_blocks
    | _, _ => Ok bs
    end in
  let kvs := _extract_key_values (full_text ocr) in
  let t := _extract_title bs in
  let md := _build_metadata ocr layout tr kvs in
  let ts := match tr with Some ts => ts | None => [] end in
  Ok {| title := t; doc_blocks := bs; metadata := md; tables := ts;
        key_values := kvs; raw_text := full_text ocr |}.
End Structure.

End Structuring.

(** ** processors/error_correction.py *)

Module ErrorCorrection.
Import Py Re.

(** The tags "word_correction", "no_correction", "number_correction" and
    "domain_match". *)
Inductive correction_type := word_correction | no_correction | number_correction | domain_match.

(** One entry of the list of corrections: the dict with the keys
    "original", "corrected" and "type". *)
Record correction := {
  original : str;
  corrected : str;
  type : correction_type
}.

Definition word_corrections : list (str * str) :=
  [ (py "teh", py "the"); (py "adn", py "and"); (py "fo", py "of"); (py "ot", py "to");
    (py "taht", py "that"); (py "wiht", py "with"); (py "fro", py "for");
    (py "jsut", py "just"); (py "nto", py "not"); (py "hte", py "the") ].

Definition domain_words : list str :=
  [ py "invoice"; py "receipt"; py "total"; py "subtotal"; py "tax"; py "amount";
    py "date"; py "number"; py "quantity"; py "price"; py "description"; py "unit";
    py "customer"; py "vendor"; py "address"; py "phone"; py "email"; py "payment";
    py "due"; py "balance"; py "paid"; py "discount"; py "shipping"; py "handling" ].

Fixpoint lookup (w : str) (d : list (str * str)) : option str :=
  match d with
  | [] => None
  | (k, v) :: d' => if str_eqb k w then Some v else lookup w d'
  end.

Definition mem (w : str) (l : list str) : bool := existsb (str_eqb w) l.

(** [_looks_like_number]: [len(cleaned) <= len(text) * 0.3]. *)
Definition number_like (c : char) : bool :=
  is_digit c || one_of (py "OoIl|.,-$%") c.

Definition _looks_like_number (text : str) : bool :=
  let cleaned := re_sub (Cls number_like) (fun _ => []) text in
  Qle_bool (inject_Z (Z.of_nat (length cleaned)))
           (inject_Z (Z.of_nat (length text)) * (3 # 10)).

(** [_correct_number] *)
Definition number_corrections : list (char * char) :=
  [ (ch "O", ch "0"); (ch "o", ch "0");
    (ch "I", ch "1"); (ch "l", ch "1"); (ch "|", ch "1");
    (ch "S", ch "5"); (ch "s", ch "5");
    (ch "B", ch "8");
    (ch "Z", ch "2"); (ch "z", ch "2") ].

Fixpoint lookup_char (c : char) (d : list (char * char)) : option char :=
  match d with
  | [] => None
  | (k, v) :: d' => if char_eqb k c then Some v else lookup_char c d'
  end.

Definition _correct_number (text : str) : str :=
  map (fun c => match lookup_char c number_corrections with
                | Some v => if negb (is_digit c) then v else c
                | None => c
                end) text.

(** [_fix_spacing] *)
Definition punct : regex := Cls (one_of (py ".,;:!?")).
Definition space : regex := Cls (char_eqb (ch " ")).

Definition _fix_spacing (text : str) : str :=
  let text := re_sub (Plus space) (fun _ => py " ") text in            (* ' +' -> ' ' *)
  let text := re_sub (Cat space (Grp 1 punct)) (fun m => group 1 m) text in
  let text := re_sub (Cat (Grp 1 punct) (Grp 2 (Cls is_alpha)))
                     (fun m => group 1 m ++ py " " ++ group 2 m) text in
  let text := re_sub (Cat (Cls (char_eqb (ch "$"))) (Plus space)) (fun _ => py "$") text in
  let text := re_sub (Seq [Grp 1 d; Plus space; Cls (char_eqb (ch "%"))])
                     (fun m => group 1 m ++ py "%") text in
  strip text.

(** The leading and the trailing characters of a word that are not
    alphanumeric, and the core between them. *)
Fixpoint take_prefix (w : str) : str * str :=
  match w with
  | [] => ([], [])
  | c :: w' =>
      if negb (is_alnum c)
      then let '(p, rest) := take_prefix w' in (c :: p, rest)
      else ([], w)
  end.

Definition take_suffix (w : str) : str * str :=
  let '(s, rest) := take_prefix (rev w) in (rev rest, rev s).

Section Corrector.
(** [SequenceMatcher(None, a, b).ratio()] of difflib, and the order in
    which the interpreter iterates over the set [domain_words]. *)
Variable ratio : str -> str -> Q.
Variable iteration_order : list str.

(** [_find_best_match], with the default threshold *)
Definition best_step (word : str) (st : option str * Q) (dict_word : str) : option str * Q :=
  let '(best_match, best_score) := st in
  if (2 <? Z.abs (Z.of_nat (length word) - Z.of_nat (length dict_word)))%Z then st
  else
    let score := ratio word dict_word in
    if negb (Qle_bool score best_score) then (Some dict_word, score) else st.

Definition _find_best_match (word : str) (dictionary : list str) : option (str * Q) :=
  let '(best_match, best_score) := fold_left (best_step word) dictionary (None, 8 # 10) in
  match best_match with
  | Some m => Some (m, best_score)
  | None => None
  end.

(** The case of the original word, mirrored on the replacement. *)
Definition preserve_case (word c : str) : str :=
  if isupper word then upper c
  else match word with
       | c0 :: _ => if is_upper c0 then capitalize c else c
       | [] => c
       end.

(** [_correct_word] *)
Definition _correct_word (word : str) : str * correction_type :=
  let lower_word := lower word in
  match lookup lower_word word_corrections with
  | Some c => (preserve_case word c, word_correction)
  | None =>
      if mem lower_word domain_words then (word, no_correction)
      else
        let number_fix :=
          if _looks_like_number word then
            let c := _correct_number word in
            if negb (str_eqb c word) then Some c else None
          else None in
        match number_fix with
        | Some c => (c, number_correction)
        | None =>
            match _find_best_match lower_word iteration_order with
            | Some (m, score) =>
                if negb (Qle_bool score (8 # 10))
                then (preserve_case word m, domain_match)
                else (word, no_correction)
            | None => (word, no_correction)
            end
        end
  end.

(** The body of the loop of [correct] on one word: the corrected word
    and the corrections it adds. *)
Definition correct_one (word : str) : str * list correction :=
  let '(prefix, word) := take_prefix word in
  let '(word, suffix) := take_suffix word in
  match word with
  | [] => (prefix ++ suffix, [])
  | _ =>
      let '(c, correction_type) := _correct_word word in
      (prefix ++ c ++ suffix,
       if negb (str_eqb c word)
       then [ {| original := word; corrected := c; type := correction_type |} ]
       else [])
  end.

(** [correct] *)
Definition correct (text : str) : str * list correction :=
  let words := split_ws text in
  let results := map correct_one words in
  let corrected_text := join (py " ") (map fst results) in
  (_fix_spacing corrected_text, flat_map snd results).
End Corrector.

End ErrorCorrection.

(** ** processors/table_alignment.py: [AlignedTable.to_records] *)

Module Records.
Import Py.

(** The key of column [i]: its header, or [column_i] past the headers. *)
Definition record_key (headers : list str) (i : nat) : str :=
  match nth_error headers i with
  | Some h => h
  | None => py "column_" ++ str_of_nat i
  end.

(** The dict built for one row. *)
Definition record_of (headers : list str) (r : list pyval) : list (str * pyval) :=
  fold_left (fun record iv => Structuring.dict_set (record_key headers (fst iv)) (snd iv) record)
            (enumerate r) [].

(** [to_records] *)
Definition to_records (t : TableAlignment.AlignedTable) : list (list (str * pyval)) :=
  map (record_of (TableAlignment.headers t)) (TableAlignment.rows t).

End Records.

(** ** processors/ocr.py: [_organize_text] *)

Module Ocr.
Import Py.

Record TextBlock := {
  text : str;
  confidence : Q;
  bbox : Z * Z * Z * Z      (* (x, y, width, height) *)
}.

Definition block_x (b : TextBlock) : Z := Tables.rect_x (bbox b).
Definition block_y (b : TextBlock) : Z := Tables.rect_y (bbox b).

(** The order of [key=lambda b: (b.bbox[1], b.bbox[0])]. *)
Definition key_yx (a b : TextBlock) : bool :=
  (block_y a <? block_y b)%Z || ((block_y a =? block_y b)%Z && (block_x a <=? block_x b)%Z).

(** The body of the grouping loop; the state is
    [(lines, current_line, current_y)]. *)
Definition line_step (st : list (list TextBlock) * list TextBlock * Z) (block : TextBlock)
    : list (list TextBlock) * list TextBlock * Z :=
  let '(lines, current_line, current_y) := st in
  if (20 <? Z.abs (block_y block - current_y))%Z then
    match current_line with
    | [] => (lines, [block], block_y block)
    | _ => (lines ++ [current_line], [block], block_y block)
    end
  else (lines, current_line ++ [block], current_y).

(** The lines of the sorted blocks, once the last one is closed. *)
Definition group_lines (sorted_blocks : list TextBlock) : list (list TextBlock) :=
  match sorted_blocks with
  | [] => []
  | first :: _ =>
      let '(lines, current_line, _) :=
        fold_left line_step sorted_blocks ([], [], block_y first) in
      match current_line with
      | [] => lines
      | _ => lines ++ [current_line]
      end
  end.

Definition render_line (line : list TextBlock) : str :=
  join (py " ") (map text (sorted (fun a b => (block_x a <=? block_x b)%Z) line)).

(** [_organize_text], the same in both engines. *)
Definition _organize_text (blocks : list TextBlock) : str :=
  match blocks with
  | [] => []
  | _ =>
      let sorted_blocks := sorted key_yx blocks in
      join [10%N] (map render_line (group_lines sorted_blocks))
  end.

End Ocr.

(** ** Vocabulary of the statements *)

Module Spec.
Import Py Re.
Local Close Scope N_scope.
Local Open Scope nat_scope.

(** *** Column types *)

(** The number of cells of a column that [_detect_type] classifies as [t]. *)
Definition votes (t : TableAlignment.coltype) (values : list str) : nat :=
  length (filter (fun v => match TableAlignment.classify v with
                           | Some u => TableAlignment.coltype_eqb u t
                           | None => false
                           end) values).

Definition no_votes (values : list str) : Prop :=
  forall u, votes u values = 0.

(** [t] wins the vote of the column: no type has more votes, and among the
    types with as many votes [t] comes first in the priority [rank]. *)
Definition plurality_by (rank : TableAlignment.coltype -> nat)
    (values : list str) (t : TableAlignment.coltype) : Prop :=
  (forall u, votes u values <= votes t values) /\
  (forall u, votes u values = votes t values -> rank t <= rank u).

(** currency > percentage > number > date > text: the order of the keys of
    [type_counts]. *)
Definition code_rank (t : TableAlignment.coltype) : nat :=
  match t with
  | TableAlignment.Currency => 0
  | TableAlignment.Percentage => 1
  | TableAlignment.Number => 2
  | TableAlignment.Date => 3
  | TableAlignment.Text => 4
  end.

(** currency > percentage > date > number > text. *)
Definition date_first_rank (t : TableAlignment.coltype) : nat :=
  match t with
  | TableAlignment.Currency => 0
  | TableAlignment.Percentage => 1
  | TableAlignment.Date => 2
  | TableAlignment.Number => 3
  | TableAlignment.Text => 4
  end.

(** *** Aligned tables *)

(** A row padded with empty strings up to [n] columns. *)
Definition pad (n : nat) (r : list str) : list str := r ++ repeat [] (n - length r).

(** What [align] stores for the cell [v] of column [c]: the parsed value,
    or the stripped text when the parse raises. *)
Definition cell_value (cts : list TableAlignment.coltype) (c : nat) (v : str) : pyval :=
  match TableAlignment._parse_value (strip v) (nth c cts TableAlignment.Text) with
  | Ok p => p
  | Raise _ => VStr (strip v)
  end.

(** The validation errors [align] records for the cell [v] at row [r] and
    column [c]: one when the parse raises, none otherwise. *)
Definition cell_errors (cts : list TableAlignment.coltype) (r c : nat) (v : str)
    : list TableAlignment.validation_error :=
  match TableAlignment._parse_value (strip v) (nth c cts TableAlignment.Text) with
  | Raise (ValueError conv text) =>
      [ {| TableAlignment.row := r; TableAlignment.col := c;
           TableAlignment.value := strip v;
           TableAlignment.expected_type := nth c cts TableAlignment.Text;
           TableAlignment.error := (conv, text) |} ]
  | _ => []
  end.

(** The cell at row [r] and column [c] of a matrix. *)
Definition cell {A} (m : list (list A)) (r c : nat) : option A :=
  match nth_error m r with
  | Some line => nth_error line c
  | None => None
  end.

(** The rows that [align] parses: the normalized matrix, without its first
    row when that row is the header. *)
Definition data_rows (matrix : list (list str)) (has_header : bool) : list (list str) :=
  if has_header then tl (TableAlignment._normalize_columns matrix)
  else TableAlignment._normalize_columns matrix.

(** The values and the errors of a row and of a list of rows, cell by cell. *)
Definition row_values (cts : list TableAlignment.coltype) (c0 : nat) (r : list str) : list pyval :=
  map (fun cv => cell_value cts (fst cv) (snd cv)) (enumerate_from c0 r).

Definition row_errors (cts : list TableAlignment.coltype) (ri c0 : nat) (r : list str)
    : list TableAlignment.validation_error :=
  flat_map (fun cv => cell_errors cts ri (fst cv) (snd cv)) (enumerate_from c0 r).

Definition rows_values (cts : list TableAlignment.coltype) (rs : list (list str)) : list (list pyval) :=
  map (row_values cts 0) rs.

Definition rows_errors (cts : list TableAlignment.coltype) (r0 : nat) (rs : list (list str))
    : list TableAlignment.validation_error :=
  flat_map (fun rr => row_errors cts (fst rr) 0 (snd rr)) (enumerate_from r0 rs).

(** The validation errors recorded for the cell at row [r] and column [c]. *)
Definition at_cell (r c : nat) (e : TableAlignment.validation_error) : bool :=
  Nat.eqb (TableAlignment.row e) r && Nat.eqb (TableAlignment.col e) c.

Definition errors_at (t : TableAlignment.AlignedTable) (r c : nat)
    : list TableAlignment.validation_error :=
  filter (at_cell r c) (TableAlignment.validation_errors t).

(** A finite float whose value binary64 holds without rounding: an integer
    below 2^53 over a power of two within the exponent range. *)
Fixpoint power_of_two (p : positive) : bool :=
  match p with
  | xH => true
  | xO p' => power_of_two p'
  | xI _ => false
  end.

Definition binary64_exact (f : pyfloat) : bool :=
  match f with
  | FFin q =>
      (Z.abs (Qnum q) <? 2 ^ 53)%Z && power_of_two (Qden q)
      && (Pos.size_nat (Qden q) <=? 1075)
  | _ => true
  end.

(** *** Reading order *)

Definition top (r : Layout.LayoutRegion) : Z := Layout.by_ (Layout.bbox r).
Definition bottom (r : Layout.LayoutRegion) : Z :=
  (Layout.by_ (Layout.bbox r) + Layout.bh (Layout.bbox r))%Z.

(** The horizontal line at height [y0] crosses no region: every region
    ends at or above it, or starts at or below it.  The regions above and
    those below then lie on visually distinct rows that do not overlap. *)
Definition separates (y0 : Z) (rs : list Layout.LayoutRegion) : Prop :=
  forall r, In r rs -> (bottom r <= y0)%Z \/ (y0 <= top r)%Z.

(** The rows once the loop of [_determine_reading_order] has ended in the
    state [(rows, current_row)]. *)
Definition close_rows
    (st : list (list (nat * Layout.LayoutRegion)) * list (nat * Layout.LayoutRegion))
    : list (list (nat * Layout.LayoutRegion)) :=
  match snd st with
  | [] => fst st
  | _ => fst st ++ [snd st]
  end.

(** A paragraph region with the given box, as the heuristic detector
    builds it. *)
Definition region_at (x y w h : Z) : Layout.LayoutRegion :=
  {| Layout.type := Layout.PARAGRAPH;
     Layout.bbox := {| Layout.bx := x; Layout.by_ := y; Layout.bw := w; Layout.bh := h |};
     Layout.confidence := 7 # 10;
     Layout.order := 0;
     Layout.content := None |}.

(** The rows into which [_determine_reading_order] groups the regions,
    each region with its index in the input. *)
Definition page_rows (found : list Layout.LayoutRegion)
    : list (list (nat * Layout.LayoutRegion)) :=
  Layout.group_rows (Layout.sorted_by Layout.key_y (enumerate found)).

(** The indices of a list of rows, each row from left to right. *)
Definition read_rows (rows : list (list (nat * Layout.LayoutRegion))) : list nat :=
  flat_map (fun row => map fst (Layout.sorted_by Layout.key_x row)) rows.

(** The regions in the order of their top, regions of equal top in the
    order of the input; each with its index in the input. *)
Definition by_top (found : list Layout.LayoutRegion) : list (nat * Layout.LayoutRegion) :=
  Layout.sorted_by Layout.key_y (enumerate found).

(** No two regions of the page overlap vertically. *)
Definition stacked (found : list Layout.LayoutRegion) : Prop :=
  forall i j a b, i <> j -> nth_error found i = Some a -> nth_error found j = Some b ->
                  Layout.y_overlap a b = false.

(** Any two regions of the page overlap vertically. *)
Definition side_by_side (found : list Layout.LayoutRegion) : Prop :=
  forall a b, In a found -> In b found -> Layout.y_overlap a b = true.

(** *** Table grids *)

(** The grid position of a cell. *)
Definition position (c : Tables.TableCell) : nat * nat := (Tables.row c, Tables.col c).

Definition position_eq_dec (p q : nat * nat) : {p = q} + {p <> q}.
Proof. decide equality; apply Nat.eq_dec. Defined.

(** The number of distinct values of a list of positions: [len(set(l))]. *)
Definition distinct (l : list Z) : nat := length (nodup Z.eq_dec l).

(** *** Header names *)

(** The name the loop of [_clean_headers] holds after [t] iterations. *)
Definition candidate (original : str) (t : nat) : str :=
  match t with
  | O => original
  | S _ => original ++ py "_" ++ str_of_nat t
  end.

(** The run of [while clean.lower() in seen: clean = f"{original}_{counter}";
    counter += 1] from the state [(counter, clean)] to its result. *)
Inductive unique_name (seen : list str) (original : str) : nat -> str -> str -> Prop :=
| unique_done (counter : nat) (clean : str) :
    TableAlignment.mem (lower clean) seen = false ->
    unique_name seen original counter clean clean
| unique_step (counter : nat) (clean result : str) :
    TableAlignment.mem (lower clean) seen = true ->
    unique_name seen original (S counter) (original ++ py "_" ++ str_of_nat counter) result ->
    unique_name seen original counter clean result.

(** The header texts that [align] hands to [_clean_headers]. *)
Definition raw_headers (matrix : list (list str)) (has_header : bool) : list str :=
  match has_header, TableAlignment._normalize_columns matrix with
  | true, r0 :: _ => map strip r0
  | _, m => map TableAlignment.column_name (seq 0 (length (hd [] m)))
  end.

(** The rows of the input that [align] treats as data, before padding. *)
Definition input_rows (matrix : list (list str)) (has_header : bool) : list (list str) :=
  if has_header then tl matrix else matrix.

(** The column types whose parse can fail. *)
Definition numeric_type (t : TableAlignment.coltype) : Prop :=
  t = TableAlignment.Currency \/ t = TableAlignment.Percentage \/ t = TableAlignment.Number.

(** A matrix of [n_rows] rows of [n_cols] columns each. *)
Definition rectangular {A} (n_rows n_cols : nat) (m : list (list A)) : Prop :=
  length m = n_rows /\ forall line, In line m -> length line = n_cols.

(** *** Key-value extraction *)

(** The key and value of every line of the text that matches a pattern,
    in the order of the lines. *)
Definition line_pairs (text : str) : list (str * pyval) :=
  flat_map (fun line => match Structuring.line_key_value line with
                        | Some kv => [kv]
                        | None => []
                        end) (split_on 10 text).

(** [key_values[key] = value] for a pair. *)
Definition set_pair (d : list (str * pyval)) (kv : str * pyval) : list (str * pyval) :=
  Structuring.dict_set (fst kv) (snd kv) d.

(** The value of the last pair whose key is [key]. *)
Definition last_value (key : str) (pairs : list (str * pyval)) : option pyval :=
  fold_left (fun acc kv => if str_eqb (fst kv) key then Some (snd kv) else acc) pairs None.




Definition str_eq_dec (a b : str) : {a = b} + {a <> b} :=
  list_eq_dec N.eq_dec a b.

(** The number of distinct keys that the lines of a text derive. *)
Definition distinct_keys (text : str) : nat :=
  length (nodup str_eq_dec (map fst (line_pairs text))).

(** *** Structured documents *)

(** Two recognised tokens 40 pixels apart, and a layout without regions. *)
Definition two_line_tokens : Structuring.ocr_result :=
  {| Structuring.full_text := py "Total: 5" ++ [10%N] ++ py "Paid: yes";
     Structuring.blocks :=
       [ {| Structuring.ob_text := py "Total: 5";
            Structuring.ob_bbox := (0, 0, 80, 12)%Z;
            Structuring.ob_confidence := 9 # 10 |};
         {| Structuring.ob_text := py "Paid: yes";
            Structuring.ob_bbox := (0, 40, 80, 12)%Z;
            Structuring.ob_confidence := 9 # 10 |} ];
     Structuring.average_confidence := 9 # 10;
     Structuring.languages_detected := [py "eng"] |}.

(** Two recognised tokens of one line, the right one listed first. *)
Definition one_line_tokens : Structuring.ocr_result :=
  {| Structuring.full_text := py "Total: 5";
     Structuring.blocks :=
       [ {| Structuring.ob_text := py "5";
            Structuring.ob_bbox := (60, 4, 10, 12)%Z;
            Structuring.ob_confidence := 9 # 10 |};
         {| Structuring.ob_text := py "Total:";
            Structuring.ob_bbox := (0, 0, 50, 12)%Z;
            Structuring.ob_confidence := 9 # 10 |} ];
     Structuring.average_confidence := 9 # 10;
     Structuring.languages_detected := [py "eng"] |}.

(** The top of a recognised token. *)
Definition token_top (b : Structuring.ocr_block) : Z := Tables.rect_y (Structuring.ob_bbox b).

(** The tokens lie on one line for [_blocks_from_ocr]: no token lies more
    than 20 pixels below a token whose top is not negative. *)
Definition one_line (bs : list Structuring.ocr_block) : Prop :=
  forall b b', In b bs -> In b' bs -> (0 <= token_top b)%Z ->
               (token_top b' - token_top b <= 20)%Z.

(** Two tokens that do not lie on one line. *)
Definition two_lines (bs : list Structuring.ocr_block) : Prop :=
  exists b b', In b bs /\ In b' bs /\ (0 <= token_top b)%Z /\
               (20 < token_top b' - token_top b)%Z.

(** The block that [_blocks_from_ocr] builds for the last line. *)
Definition line_block (text : str) : Structuring.ContentBlock :=
  {| Structuring.type := Structuring._classify_text text;
     Structuring.block_content := Structuring.CStr text;
     Structuring.bbox := None;
     Structuring.confidence := 1;
     Structuring.page := 1;
     Structuring.order := 0 |}.

(** The width and the height of the part of a table that a region covers. *)
Definition overlap_width (region_bbox table_bbox : Structuring.rect) : Z :=
  let '(rx, _, rw, _) := region_bbox in
  let '(tx, _, tw, _) := table_bbox in
  Z.max 0 (Z.min (rx + rw) (tx + tw) - Z.max rx tx).

Definition overlap_height (region_bbox table_bbox : Structuring.rect) : Z :=
  let '(_, ry, _, rh) := region_bbox in
  let '(_, ty, _, th) := table_bbox in
  Z.max 0 (Z.min (ry + rh) (ty + th) - Z.max ry ty).

Definition area (r : Structuring.rect) : Z := (Tables.rect_w r * Tables.rect_h r)%Z.

(** A region covers a table: the table has a positive area, more than half
    of which lies in the region. *)
Definition covers (region_bbox : Structuring.rect) (t : Structuring.table) : Prop :=
  (0 < area (Structuring.t_bbox t))%Z /\
  (area (Structuring.t_bbox t) <
   2 * (overlap_width region_bbox (Structuring.t_bbox t)
        * overlap_height region_bbox (Structuring.t_bbox t)))%Z.

(** A rectangle lies inside another one. *)
Definition inside (inner outer : Structuring.rect) : Prop :=
  (Tables.rect_x outer <= Tables.rect_x inner)%Z /\
  (Tables.rect_y outer <= Tables.rect_y inner)%Z /\
  (Tables.rect_x inner + Tables.rect_w inner <= Tables.rect_x outer + Tables.rect_w outer)%Z /\
  (Tables.rect_y inner + Tables.rect_h inner <= Tables.rect_y outer + Tables.rect_h outer)%Z.

(** The centre of a token's box lies in a region, edges included. *)
Definition centre_inside (region_bbox : Structuring.rect) (b : Structuring.ocr_block) : bool :=
  let '(rx, ry, rw, rh) := region_bbox in
  let '(bx, by_, bw, bh) := Structuring.ob_bbox b in
  ((2 * rx <=? 2 * bx + bw) && (2 * bx + bw <=? 2 * (rx + rw))
   && (2 * ry <=? 2 * by_ + bh) && (2 * by_ + bh <=? 2 * (ry + rh)))%Z.

(** A region is labelled a title. *)
Definition is_title_region (r : Structuring.region) : bool :=
  str_eqb (Structuring.r_type r) (py "title").

Definition no_regions : Structuring.layout_result :=
  {| Structuring.regions := [];
     Structuring.page_size := Some (200, 100)%Z;
     Structuring.l_has_tables := false;
     Structuring.l_has_figures := false |}.

Definition one_region : Structuring.layout_result :=
  {| Structuring.regions :=
       [ {| Structuring.r_type := py "paragraph";
            Structuring.r_bbox := (0, 0, 200, 100)%Z;
            Structuring.r_confidence := 7 # 10 |} ];
     Structuring.page_size := Some (200, 100)%Z;
     Structuring.l_has_tables := false;
     Structuring.l_has_figures := false |}.

(** A paragraph region above a title region that holds both tokens of
    [one_line_tokens]. *)
Definition titled_page : Structuring.layout_result :=
  {| Structuring.regions :=
       [ {| Structuring.r_type := py "paragraph";
            Structuring.r_bbox := (0, 200, 200, 100)%Z;
            Structuring.r_confidence := 7 # 10 |};
         {| Structuring.r_type := py "title";
            Structuring.r_bbox := (0, 0, 200, 50)%Z;
            Structuring.r_confidence := 8 # 10 |} ];
     Structuring.page_size := Some (200, 300)%Z;
     Structuring.l_has_tables := false;
     Structuring.l_has_figures := false |}.

(** *** Error correction *)


(** The letters that [_looks_like_number] counts as digits read wrongly. *)
Definition digit_look_alike (c : char) : bool := one_of (py "OoIl|") c.

(** The characters of a text that are neither digits nor number-like. *)
Definition foreign (text : str) : nat :=
  length (filter (fun c => negb (ErrorCorrection.number_like c)) text).

(** What [_correct_number] writes for one character. *)
Definition correct_char (c : char) : char :=
  match ErrorCorrection.lookup_char c ErrorCorrection.number_corrections with
  | Some v => if negb (is_digit c) then v else c
  | None => c
  end.

(** A digit or a letter read for a digit. *)
Definition numeric_char (c : char) : bool := is_digit c || digit_look_alike c.


(** *** Lines of recognised text *)

(** The top of the first block of a line. *)
Definition line_top (line : list Ocr.TextBlock) : Z :=
  match line with
  | first :: _ => Ocr.block_y first
  | [] => 0
  end.

(** A line has a first block, and none of its blocks lies above it or more
    than 20 pixels below it. *)
Definition within_line (line : list Ocr.TextBlock) : Prop :=
  line <> [] /\
  forall b, In b line -> (0 <= Ocr.block_y b - line_top line <= 20)%Z.

(** Each number is more than 20 above the one before it. *)
Fixpoint spaced (tops : list Z) : Prop :=
  match tops with
  | a :: (b :: _) as rest => (20 < b - a)%Z /\ spaced rest
  | _ => True
  end.

(** Three blocks on two lines, listed from the bottom right. *)
Definition sample_blocks : list Ocr.TextBlock :=
  [ {| Ocr.text := py "due"; Ocr.confidence := 9 # 10; Ocr.bbox := (0, 40, 30, 12)%Z |};
    {| Ocr.text := py "5"; Ocr.confidence := 9 # 10; Ocr.bbox := (60, 0, 10, 12)%Z |};
    {| Ocr.text := py "Total:"; Ocr.confidence := 9 # 10; Ocr.bbox := (0, 4, 50, 12)%Z |} ].

(** *** Numerals *)



End Spec.

(** * Properties *)

Unset Implicit Arguments.
Local Close Scope N_scope.
Local Open Scope nat_scope.

(** ** Strings *)

Section StringFacts.
Import Py.

Lemma str_eqb_eq (a b : str) : str_eqb a b = true <-> a = b.
Proof.
  revert b; induction a as [|x a IH]; intros [|y b]; simpl; split; intro H;
    try reflexivity; try discriminate.
  - apply andb_true_iff in H as [H1 H2].
    apply N.eqb_eq in H1. apply IH in H2. now subst.
  - injection H as -> ->. apply andb_true_iff; split.
    + apply N.eqb_refl.
    + now apply IH.
Qed.

Lemma str_eqb_refl (a : str) : str_eqb a a = true.
Proof. now apply str_eqb_eq. Qed.

Lemma str_eqb_neq (a b : str) : str_eqb a b = false <-> a <> b.
Proof.
  split.
  - intros H E. apply str_eqb_eq in E. congruence.
  - intro N. destruct (str_eqb a b) eqn:E; [|reflexivity].
    apply str_eqb_eq in E. contradiction.
Qed.

Lemma str_eqb_sym (a b : str) : str_eqb a b = str_eqb b a.
Proof.
  destruct (str_eqb a b) eqn:E.
  - apply str_eqb_eq in E. subst. now rewrite str_eqb_refl.
  - apply str_eqb_neq in E. symmetry. apply str_eqb_neq. congruence.
Qed.

End StringFacts.

(** ** Column type inference *)

Section DetectType.
Import Py TableAlignment Spec.

Lemma votes_cons (t : coltype) (v : str) (vs : list str) :
  votes t (v :: vs) =
  (match classify v with
   | Some u => if coltype_eqb u t then 1 else 0
   | None => 0
   end) + votes t vs.
Proof.
  unfold votes; simpl.
  destruct (classify v) as [u|]; [destruct (coltype_eqb u t)|]; reflexivity.
Qed.

Lemma count_values_from (values : list str) (a b c d e : nat) :
  fold_left (fun counts v =>
               match classify v with
               | Some t => incr t counts
               | None => counts
               end) values
            [(Currency, a); (Percentage, b); (Number, c); (Date, d); (Text, e)] =
  [(Currency, a + votes Currency values); (Percentage, b + votes Percentage values);
   (Number, c + votes Number values); (Date, d + votes Date values);
   (Text, e + votes Text values)].
Proof.
  revert a b c d e; induction values as [|v vs IH]; intros a b c d e.
  - simpl. unfold votes; simpl. now rewrite !Nat.add_0_r.
  - rewrite !votes_cons. cbn [fold_left].
    destruct (classify v) as [[]|]; cbn [incr coltype_eqb]; rewrite IH;
      repeat match goal with
             | |- (_ :: _) = (_ :: _) => f_equal
             | |- (_, _) = (_, _) => f_equal
             end; lia.
Qed.

Lemma count_values_votes (values : list str) :
  count_values values =
  [(Currency, votes Currency values); (Percentage, votes Percentage values);
   (Number, votes Number values); (Date, votes Date values);
   (Text, votes Text values)].
Proof. unfold count_values, type_counts0. now rewrite count_values_from. Qed.

Lemma detect_type_no_votes (values : list str) :
  no_votes values -> _detect_type values = Text.
Proof.
  intro H. unfold _detect_type. rewrite count_values_votes.
  cbn [fold_left snd]. rewrite !H. reflexivity.
Qed.

Lemma detect_type_plurality (values : list str) :
  ~ no_votes values -> plurality_by code_rank values (_detect_type values).
Proof.
  intro H. unfold _detect_type. rewrite count_values_votes.
  cbn [fold_left snd].
  destruct (Nat.eqb_spec
              (0 + votes Currency values + votes Percentage values
               + votes Number values + votes Date values + votes Text values) 0) as [E|E].
  - exfalso. apply H. intros []; lia.
  - cbn [max_from snd fst].
    repeat match goal with
           | |- context [(?x <? ?y)] => destruct (Nat.ltb_spec x y); cbn [max_from snd fst]
           end;
      split; intros []; cbn [code_rank]; lia.
Qed.

Lemma detect_column_types_nth (rows : list (list str)) (c : nat) :
  c < length (hd [] rows) ->
  nth_error (_detect_column_types rows) c = Some (_detect_type (column c rows)).
Proof.
  destruct rows as [|r0 rest]; simpl; [lia|].
  intro H. rewrite nth_error_map, nth_error_nth' with (d := 0).
  - simpl. now rewrite seq_nth.
  - now rewrite length_seq.
Qed.

End DetectType.

(** C1, as the code has it.  For every column [c] of the data rows, the
    inferred type is [_detect_type] of the column's cells: [text] when no
    cell is classified (all are empty), and otherwise the type with the most
    classified cells, a tie going to the type that comes first in
    currency > percentage > number > date > text. *)
Theorem C1_column_type_is_plurality (rows : list (list Py.str)) (c : nat) :
  c < length (hd [] rows) ->
  exists t,
    nth_error (TableAlignment._detect_column_types rows) c = Some t /\
    t = TableAlignment._detect_type (TableAlignment.column c rows) /\
    (Spec.no_votes (TableAlignment.column c rows) -> t = TableAlignment.Text) /\
    (~ Spec.no_votes (TableAlignment.column c rows) ->
     Spec.plurality_by Spec.code_rank (TableAlignment.column c rows) t).
Proof.
  intro H. eexists. split; [now apply detect_column_types_nth|].
  split; [reflexivity|]. split.
  - apply detect_type_no_votes.
  - apply detect_type_plurality.
Qed.

Lemma C1_column_type_is_plurality_witness :
  exists t,
    nth_error (TableAlignment._detect_column_types [[Py.py "1/2/2024"]; [Py.py ".5"]]) 0 = Some t /\
    t = TableAlignment.Number.
Proof.
  destruct (C1_column_type_is_plurality [[Py.py "1/2/2024"]; [Py.py ".5"]] 0) as (t & H1 & H2 & _).
  - simpl. lia.
  - exists t. split; [exact H1|]. rewrite H2. vm_compute. reflexivity.
Defined.

(** C1, as stated, fails: a column with one date cell and one number cell
    and nothing else is typed [number], not [date]. *)
Lemma C1_date_number_tie_is_number :
  let values := [Py.py "1/2/2024"; Py.py ".5"] in
  Spec.votes TableAlignment.Date values = 1 /\
  Spec.votes TableAlignment.Number values = 1 /\
  Spec.votes TableAlignment.Currency values = 0 /\
  Spec.votes TableAlignment.Percentage values = 0 /\
  Spec.votes TableAlignment.Text values = 0 /\
  TableAlignment._detect_column_types [[Py.py "1/2/2024"]; [Py.py ".5"]]
    = [TableAlignment.Number] /\
  ~ Spec.plurality_by Spec.date_first_rank values (TableAlignment._detect_type values).
Proof.
  cbv zeta. repeat split; try (vm_compute; reflexivity).
  intros [_ H]. specialize (H TableAlignment.Date).
  assert (E : TableAlignment._detect_type [Py.py "1/2/2024"; Py.py ".5"] = TableAlignment.Number)
    by (vm_compute; reflexivity).
  rewrite E in H.
  assert (V : Spec.votes TableAlignment.Date [Py.py "1/2/2024"; Py.py ".5"]
              = Spec.votes TableAlignment.Number [Py.py "1/2/2024"; Py.py ".5"])
    by (vm_compute; reflexivity).
  specialize (H V). cbn in H. lia.
Qed.

(** C4.  The column ["$1,200.00", "$45.50", "$0.00"] is typed [currency];
    its cells parse to 1200.0, 45.5 and 0.0, values that binary64 holds
    exactly; [align] returns them in its rows with no validation error. *)
Theorem C4_currency_column :
  let values := [Py.py "$1,200.00"; Py.py "$45.50"; Py.py "$0.00"] in
  let parsed := [Py.FFin (1200 # 1); Py.FFin (91 # 2); Py.FFin (0 # 1)] in
  TableAlignment._detect_type values = TableAlignment.Currency /\
  map (fun v => TableAlignment._parse_value (Py.strip v) TableAlignment.Currency) values
    = map (fun f => Py.Ok (Py.VFloat f)) parsed /\
  forallb Spec.binary64_exact parsed = true /\
  TableAlignment.align (map (fun v => [v]) values) false
    = Py.Ok {| TableAlignment.headers := [Py.py "Column 1"];
               TableAlignment.rows := map (fun f => [Py.VFloat f]) parsed;
               TableAlignment.column_types := [TableAlignment.Currency];
               TableAlignment.validation_errors := [];
               TableAlignment.normalized := true |} /\
  TableAlignment.align ([Py.py "Amount"] :: map (fun v => [v]) values) true
    = Py.Ok {| TableAlignment.headers := [Py.py "Amount"];
               TableAlignment.rows := map (fun f => [Py.VFloat f]) parsed;
               TableAlignment.column_types := [TableAlignment.Currency];
               TableAlignment.validation_errors := [];
               TableAlignment.normalized := true |}.
Proof. cbv zeta. repeat split; vm_compute; reflexivity. Qed.

(** ** Table alignment *)

Section Align.
Import Py TableAlignment Spec.

Lemma enumerate_from_nth {A} (l : list A) (k i : nat) :
  nth_error (enumerate_from k l) i = option_map (pair (k + i)) (nth_error l i).
Proof.
  revert k i; induction l as [|a l IH]; intros k [|i]; simpl; try reflexivity.
  - now rewrite Nat.add_0_r.
  - rewrite IH. now rewrite Nat.add_succ_r.
Qed.

Lemma enumerate_from_length {A} (l : list A) (k : nat) :
  length (enumerate_from k l) = length l.
Proof. revert k; induction l; intro k; simpl; [reflexivity|now rewrite IHl]. Qed.

Lemma map_fst_enumerate_from {A} (l : list A) (k : nat) :
  map fst (enumerate_from k l) = seq k (length l).
Proof. revert k; induction l; intro k; simpl; [reflexivity|now rewrite IHl]. Qed.

Lemma map_snd_enumerate_from {A} (l : list A) (k : nat) :
  map snd (enumerate_from k l) = l.
Proof. revert k; induction l; intro k; simpl; [reflexivity|now rewrite IHl]. Qed.

Lemma max_len_from_ge (m : list (list str)) (a : nat) :
  a <= fold_left (fun k r => Nat.max k (length r)) m a /\
  forall r, In r m -> length r <= fold_left (fun k r => Nat.max k (length r)) m a.
Proof.
  revert a; induction m as [|r0 m IH]; intro a; simpl.
  - split; [lia|contradiction].
  - destruct (IH (Nat.max a (length r0))) as [H1 H2]. split; [lia|].
    intros r [<-|Hr]; [lia|now apply H2].
Qed.

Lemma max_len_from_attained (m : list (list str)) (a : nat) :
  fold_left (fun k r => Nat.max k (length r)) m a = a \/
  exists r, In r m /\ length r = fold_left (fun k r => Nat.max k (length r)) m a.
Proof.
  revert a; induction m as [|r0 m IH]; intro a; simpl; [now left|].
  destruct (IH (Nat.max a (length r0))) as [E|(r & Hr & E)].
  - rewrite E. destruct (Nat.max_spec a (length r0)) as [[_ ->]|[_ ->]].
    + right. exists r0. split; [now left|reflexivity].
    + now left.
  - right. exists r. split; [now right|exact E].
Qed.

Lemma max_len_ge (m : list (list str)) (r : list str) :
  In r m -> length r <= max_len m.
Proof. apply max_len_from_ge. Qed.

Lemma max_len_attained (m : list (list str)) :
  m <> [] -> exists r, In r m /\ length r = max_len m.
Proof.
  intro H. destruct (max_len_from_attained m 0) as [E|E]; [|exact E].
  destruct m as [|r0 m]; [contradiction|].
  exists r0. split; [now left|].
  unfold max_len. rewrite E.
  assert (length r0 <= max_len (r0 :: m)) by (apply max_len_ge; now left).
  unfold max_len in H0. lia.
Qed.

Lemma normalize_columns_pad (m : list (list str)) :
  _normalize_columns m = map (pad (max_len m)) m.
Proof.
  unfold _normalize_columns. destruct m as [|r0 m]; [reflexivity|].
  cbv zeta. apply map_ext. intro r. unfold pad.
  destruct (Nat.ltb_spec (length r) (max_len (r0 :: m))) as [H|H]; [reflexivity|].
  replace (max_len (r0 :: m) - length r) with 0 by lia.
  simpl. now rewrite app_nil_r.
Qed.

Lemma pad_length (n : nat) (r : list str) :
  length r <= n -> length (pad n r) = n.
Proof. intro H. unfold pad. rewrite length_app, repeat_length. lia. Qed.

Lemma normalize_columns_length (m : list (list str)) (r : list str) :
  In r (_normalize_columns m) -> length r = max_len m.
Proof.
  rewrite normalize_columns_pad. intro H. apply in_map_iff in H as (r0 & <- & H0).
  apply pad_length. now apply max_len_ge.
Qed.

Lemma clean_headers_from_length (hs : list str) (i : nat) (seen : list str) :
  length (clean_headers_from i seen hs) = length hs.
Proof.
  revert i seen; induction hs as [|h hs IH]; intros i seen; simpl;
    [reflexivity|now rewrite IH].
Qed.

Lemma float_raises (w : str) (e : exn) :
  float w = Raise e -> e = ValueError ToFloat w.
Proof. unfold float. destruct (parse_float w); [discriminate|congruence]. Qed.

Lemma int_raises (w : str) (e : exn) :
  int w = Raise e -> e = ValueError ToInt w.
Proof. unfold int. destruct (parse_int w); [discriminate|congruence]. Qed.

(** [_parse_value] raises nothing but [ValueError]. *)
Lemma parse_value_raises (v : str) (t : coltype) (e : exn) :
  _parse_value v t = Raise e -> exists conv text, e = ValueError conv text.
Proof.
  unfold _parse_value, bind.
  destruct v; [discriminate|].
  destruct t; try discriminate.
  - destruct (Re.re_sub _ _ _); [discriminate|].
    destruct (float _) eqn:E; [discriminate|].
    apply float_raises in E. intro H; injection H as <-. eauto.
  - destruct (strip _); [discriminate|].
    destruct (float _) eqn:E; [discriminate|].
    apply float_raises in E. intro H; injection H as <-. eauto.
  - destruct (contains _ _).
    + destruct (float _) eqn:E; [discriminate|].
      apply float_raises in E. intro H; injection H as <-. eauto.
    + destruct (int _) eqn:E; [discriminate|].
      apply int_raises in E. intro H; injection H as <-. eauto.
Qed.

Lemma parse_cell_eq (cts : list coltype) (r c : nat) (v : str) :
  parse_cell cts r c v = Ok (cell_value cts c v, cell_errors cts r c v).
Proof.
  unfold parse_cell, cell_value, cell_errors.
  destruct (_parse_value (strip v) (nth c cts Text)) as [p|e] eqn:E; [reflexivity|].
  apply parse_value_raises in E as (conv & text & ->). reflexivity.
Qed.

Lemma parse_row_eq (cts : list coltype) (ri c0 : nat) (r : list str) :
  parse_row cts ri c0 r = Ok (row_values cts c0 r, row_errors cts ri c0 r).
Proof.
  revert c0; induction r as [|v r IH]; intro c0; [reflexivity|].
  cbn [parse_row]. rewrite parse_cell_eq. cbn [bind]. rewrite IH. reflexivity.
Qed.

Lemma parse_rows_eq (cts : list coltype) (r0 : nat) (rs : list (list str)) :
  parse_rows cts r0 rs = Ok (rows_values cts rs, rows_errors cts r0 rs).
Proof.
  revert r0; induction rs as [|r rs IH]; intro r0; [reflexivity|].
  cbn [parse_rows]. rewrite parse_row_eq. cbn [bind]. rewrite IH. reflexivity.
Qed.

(** [align] never raises; its rows and errors are those of the cells of
    the data rows, under the column types inferred from them. *)
Lemma align_eq (matrix : list (list str)) (has_header : bool) :
  exists hs,
    align matrix has_header =
      Ok {| headers := hs;
            rows := rows_values (_detect_column_types (data_rows matrix has_header))
                                (data_rows matrix has_header);
            column_types := _detect_column_types (data_rows matrix has_header);
            validation_errors :=
              rows_errors (_detect_column_types (data_rows matrix has_header)) 0
                          (data_rows matrix has_header);
            normalized := true |} /\
    (matrix <> [] -> length hs = max_len matrix).
Proof.
  destruct matrix as [|r0 m].
  - exists []. split; [|congruence]. destruct has_header; reflexivity.
  - assert (N : _normalize_columns (r0 :: m)
                = pad (max_len (r0 :: m)) r0 :: map (pad (max_len (r0 :: m))) m)
      by (rewrite normalize_columns_pad; reflexivity).
    assert (L : length (pad (max_len (r0 :: m)) r0) = max_len (r0 :: m))
      by (apply pad_length, max_len_ge; now left).
    unfold align, data_rows, _parse_and_validate. rewrite N.
    destruct has_header; cbn [tl hd]; rewrite parse_rows_eq; cbn [bind fst snd].
    + eexists. split; [reflexivity|]. intros _.
      unfold _clean_headers. now rewrite clean_headers_from_length, length_map.
    + eexists. split; [reflexivity|]. intros _.
      unfold _clean_headers.
      now rewrite clean_headers_from_length, length_map, length_seq.
Qed.

Lemma row_values_length (cts : list coltype) (c0 : nat) (r : list str) :
  length (row_values cts c0 r) = length r.
Proof. unfold row_values. now rewrite length_map, enumerate_from_length. Qed.

Lemma row_values_nth (cts : list coltype) (r : list str) (c : nat) :
  nth_error (row_values cts 0 r) c = option_map (cell_value cts c) (nth_error r c).
Proof.
  unfold row_values. rewrite nth_error_map, enumerate_from_nth.
  destruct (nth_error r c); reflexivity.
Qed.

Lemma rows_values_cell (cts : list coltype) (rs : list (list str)) (r c : nat) :
  cell (rows_values cts rs) r c = option_map (cell_value cts c) (cell rs r c).
Proof.
  unfold cell, rows_values. rewrite nth_error_map.
  destruct (nth_error rs r) as [line|]; [apply row_values_nth|reflexivity].
Qed.

Lemma cell_errors_filter (cts : list coltype) (ri ci r c : nat) (v : str) :
  filter (at_cell r c) (cell_errors cts ri ci v) =
  if Nat.eqb ri r && Nat.eqb ci c then cell_errors cts ri ci v else [].
Proof.
  unfold cell_errors.
  destruct (_parse_value (strip v) (nth ci cts Text)) as [p|[conv text| |]];
    try (destruct (Nat.eqb ri r && Nat.eqb ci c); reflexivity).
  unfold at_cell; simpl. destruct (Nat.eqb ri r && Nat.eqb ci c); reflexivity.
Qed.

Lemma row_errors_filter (cts : list coltype) (ri r c : nat) (line : list str) (c0 : nat) :
  filter (at_cell r c) (row_errors cts ri c0 line) =
  if Nat.eqb ri r && negb (c <? c0)
  then match nth_error line (c - c0) with
       | Some v => cell_errors cts r c v
       | None => []
       end
  else [].
Proof.
  revert c0; induction line as [|v line IH]; intro c0.
  - simpl. destruct (Nat.eqb ri r && negb (c <? c0)); [|reflexivity].
    now destruct (c - c0).
  - unfold row_errors in *. cbn [enumerate_from flat_map fst snd].
    rewrite filter_app, cell_errors_filter, IH.
    destruct (Nat.eqb_spec ri r) as [->|Hr]; cbn [andb]; [|reflexivity].
    destruct (Nat.eqb_spec c0 c) as [->|Hc].
    + rewrite Nat.sub_diag. cbn [nth_error].
      replace (c <? S c) with true by (symmetry; apply Nat.ltb_lt; lia).
      replace (c <? c) with false by (symmetry; apply Nat.ltb_ge; lia).
      cbn [negb]. now rewrite app_nil_r.
    + cbn [app]. destruct (Nat.ltb_spec c (S c0)) as [H1|H1];
        destruct (Nat.ltb_spec c c0) as [H2|H2]; cbn [negb]; try reflexivity; try lia.
      replace (c - c0) with (S (c - S c0)) by lia. reflexivity.
Qed.

Lemma rows_errors_filter (cts : list coltype) (r c : nat) (rs : list (list str)) (r0 : nat) :
  filter (at_cell r c) (rows_errors cts r0 rs) =
  if r <? r0 then []
  else match cell rs (r - r0) c with
       | Some v => cell_errors cts r c v
       | None => []
       end.
Proof.
  revert r0; induction rs as [|line rs IH]; intro r0.
  - simpl. destruct (r <? r0); [reflexivity|]. unfold cell. now destruct (r - r0).
  - unfold rows_errors in *. cbn [enumerate_from flat_map fst snd].
    rewrite filter_app, row_errors_filter, IH.
    change (c <? 0) with false. cbn [negb].
    rewrite Nat.sub_0_r, andb_true_r.
    destruct (Nat.eqb_spec r0 r) as [->|Hr].
    + replace (r <? S r) with true by (symmetry; apply Nat.ltb_lt; lia).
      replace (r <? r) with false by (symmetry; apply Nat.ltb_ge; lia).
      rewrite Nat.sub_diag, app_nil_r. reflexivity.
    + cbn [app]. destruct (Nat.ltb_spec r (S r0)) as [H1|H1];
        destruct (Nat.ltb_spec r r0) as [H2|H2]; try reflexivity; try lia.
      unfold cell. replace (r - r0) with (S (r - S r0)) by lia. reflexivity.
Qed.

End Align.

Section AlignClaims.
Import Py TableAlignment Spec.

Lemma data_rows_incl (matrix : list (list str)) (has_header : bool) (r : list str) :
  In r (data_rows matrix has_header) -> In r (_normalize_columns matrix).
Proof.
  unfold data_rows. destruct has_header; [|trivial].
  destruct (_normalize_columns matrix); simpl; auto.
Qed.

(** C3, as the code has it.  [align] returns normally on every matrix of
    strings.  Each cell of the data rows is parsed under the type of its
    column; when the parse raises, the output row keeps the cell's text
    with the surrounding white space stripped, and exactly one validation
    error is recorded for the cell, carrying its row index, its column
    index, the stripped text, the expected type and the message; when the
    parse succeeds its value is stored and no error is recorded. *)
Theorem C3_align_collects_parse_failures (matrix : list (list str)) (has_header : bool) :
  exists t,
    align matrix has_header = Ok t /\
    length (rows t) = length (data_rows matrix has_header) /\
    forall r c v,
      cell (data_rows matrix has_header) r c = Some v ->
      match _parse_value (strip v) (nth c (column_types t) Text) with
      | Ok p => cell (rows t) r c = Some p /\ errors_at t r c = []
      | Raise e =>
          cell (rows t) r c = Some (VStr (strip v)) /\
          exists conv text,
            e = ValueError conv text /\
            errors_at t r c =
              [ {| row := r; col := c; value := strip v;
                   expected_type := nth c (column_types t) Text;
                   error := (conv, text) |} ]
      end.
Proof.
  destruct (align_eq matrix has_header) as (hs & E & _).
  eexists. split; [exact E|]. cbn [rows column_types].
  split; [unfold rows_values; now rewrite length_map|].
  intros r c v Hv. unfold errors_at. cbn [validation_errors].
  rewrite rows_values_cell, rows_errors_filter, Hv.
  change (r <? 0) with false. cbv iota. rewrite Nat.sub_0_r, Hv.
  unfold cell_value, cell_errors. cbn [option_map].
  destruct (_parse_value (strip v) _) as [p|e] eqn:P; [now split|].
  apply parse_value_raises in P as (conv & text & ->).
  split; [reflexivity|]. now exists conv, text.
Qed.

Lemma C3_align_collects_parse_failures_witness :
  exists t,
    align [[py "Amount"]; [py "$5"]; [py "$6"]; [py " 1-2 "]] true = Ok t /\
    errors_at t 2 0 =
      [ {| row := 2; col := 0; value := py "1-2"; expected_type := Currency;
           error := (ToFloat, py "1-2") |} ].
Proof.
  destruct (C3_align_collects_parse_failures
              [[py "Amount"]; [py "$5"]; [py "$6"]; [py " 1-2 "]] true)
    as (t & E & _ & H).
  exists t. split; [exact E|].
  specialize (H 2 0 (py " 1-2 ") eq_refl).
  assert (T : column_types t = [Currency])
    by (vm_compute in E; injection E as <-; reflexivity).
  rewrite T in H.
  change (_parse_value (strip (py " 1-2 ")) (nth 0 [Currency] Text))
    with (@Raise pyval (ValueError ToFloat (py "1-2"))) in H.
  destruct H as (_ & conv & text & Hc & He).
  injection Hc as <- <-. exact He.
Defined.

(** C3, as stated, fails: a cell " 1-2 " of a currency column does not
    parse, and the output row holds "1-2", not the original " 1-2 ". *)
Lemma C3_original_text_is_stripped :
  exists t,
    align [[py "Amount"]; [py "$5"]; [py "$6"]; [py " 1-2 "]] true = Ok t /\
    cell (data_rows [[py "Amount"]; [py "$5"]; [py "$6"]; [py " 1-2 "]] true) 2 0
      = Some (py " 1-2 ") /\
    _parse_value (strip (py " 1-2 ")) (nth 0 (column_types t) Text)
      = Raise (ValueError ToFloat (py "1-2")) /\
    cell (rows t) 2 0 = Some (VStr (py "1-2")) /\
    cell (rows t) 2 0 <> Some (VStr (py " 1-2 ")).
Proof.
  eexists. split; [vm_compute; reflexivity|].
  repeat split; try (vm_compute; reflexivity).
  vm_compute. discriminate.
Qed.

(** C7.  On a non-empty matrix, [_normalize_columns] pads every row with
    empty strings to the length of the widest row, so rows of lengths 3, 5
    and 4 all get length 5; [align] returns a table whose rows all have
    [len(headers)] columns. *)
Theorem C7_rows_have_header_width (matrix : list (list str)) (has_header : bool) :
  matrix <> [] ->
  (exists widest, In widest matrix /\ length widest = max_len matrix /\
                  forall r, In r matrix -> length r <= length widest) /\
  _normalize_columns matrix = map (pad (max_len matrix)) matrix /\
  (forall r, In r (_normalize_columns matrix) -> length r = max_len matrix) /\
  (map (@length str) matrix = [3; 5; 4] ->
   map (@length str) (_normalize_columns matrix) = [5; 5; 5]) /\
  exists t,
    align matrix has_header = Ok t /\
    length (headers t) = max_len matrix /\
    forall r, In r (rows t) -> length r = length (headers t).
Proof.
  intro NE. split; [|split; [|split; [|split]]].
  - destruct (max_len_attained matrix NE) as (w & Hw & E).
    exists w. split; [exact Hw|]. split; [exact E|].
    intros r Hr. rewrite E. now apply max_len_ge.
  - apply normalize_columns_pad.
  - apply normalize_columns_length.
  - intro L.
    assert (M : max_len matrix = 5).
    { destruct matrix as [|a [|b [|c [|? ?]]]]; try discriminate.
      injection L as La Lb Lc. unfold max_len; simpl. rewrite La, Lb, Lc. reflexivity. }
    assert (F : forall r, In r (_normalize_columns matrix) -> length r = 5)
      by (intros r Hr; rewrite <- M; now apply normalize_columns_length).
    assert (N : length (_normalize_columns matrix) = 3).
    { rewrite normalize_columns_pad, length_map, <- (length_map (@length str)), L.
      reflexivity. }
    destruct (_normalize_columns matrix) as [|a [|b [|c [|? ?]]]]; try discriminate.
    simpl. rewrite !F; simpl; auto.
  - destruct (align_eq matrix has_header) as (hs & E & Hhs).
    eexists. split; [exact E|]. cbn [headers rows].
    split; [now apply Hhs|].
    intros r Hr. unfold rows_values in Hr. apply in_map_iff in Hr as (line & <- & Hl).
    rewrite row_values_length, (Hhs NE).
    apply normalize_columns_length. eapply data_rows_incl. exact Hl.
Qed.

Lemma C7_rows_have_header_width_witness :
  map (@length str)
      (_normalize_columns [[py "a"; py "b"; py "c"];
                           [py "1"; py "2"; py "3"; py "4"; py "5"];
                           [py "x"; py "y"; py "z"; py "w"]]) = [5; 5; 5].
Proof.
  destruct (C7_rows_have_header_width
              [[py "a"; py "b"; py "c"];
               [py "1"; py "2"; py "3"; py "4"; py "5"];
               [py "x"; py "y"; py "z"; py "w"]] true) as (_ & _ & _ & H & _).
  - discriminate.
  - apply H. reflexivity.
Defined.

End AlignClaims.

(** ** Key-value extraction *)

Section KeyValues.
Import Py Structuring Spec.

Lemma dict_get_set_same (k : str) (v : pyval) (d : list (str * pyval)) :
  dict_get k (dict_set k v d) = Some v.
Proof.
  induction d as [|[k0 w] d IH]; simpl.
  - now rewrite str_eqb_refl.
  - destruct (str_eqb k0 k) eqn:E; simpl; rewrite E; [reflexivity|exact IH].
Qed.

Lemma dict_get_set_other (k k' : str) (v : pyval) (d : list (str * pyval)) :
  k <> k' -> dict_get k' (dict_set k v d) = dict_get k' d.
Proof.
  intro N. induction d as [|[k0 w] d IH]; simpl.
  - apply str_eqb_neq in N. now rewrite N.
  - destruct (str_eqb k0 k) eqn:E; simpl.
    + apply str_eqb_eq in E. subst k0.
      apply str_eqb_neq in N. now rewrite N.
    + destruct (str_eqb k0 k'); [reflexivity|exact IH].
Qed.

Lemma dict_set_keys (k k' : str) (v : pyval) (d : list (str * pyval)) :
  In k' (map fst (dict_set k v d)) <-> k' = k \/ In k' (map fst d).
Proof.
  induction d as [|[k0 w] d IH]; simpl.
  - intuition.
  - destruct (str_eqb k0 k) eqn:E; simpl.
    + apply str_eqb_eq in E. subst k0. intuition.
    + rewrite IH. intuition.
Qed.

Lemma dict_set_NoDup (k : str) (v : pyval) (d : list (str * pyval)) :
  NoDup (map fst d) -> NoDup (map fst (dict_set k v d)).
Proof.
  induction d as [|[k0 w] d IH]; simpl; intro H.
  - constructor; [intros []|constructor].
  - inversion H as [|? ? Hn Hd]; subst.
    destruct (str_eqb k0 k) eqn:E; simpl.
    + now constructor.
    + constructor; [|now apply IH].
      rewrite dict_set_keys. intros [->|Hin]; [|contradiction].
      now rewrite str_eqb_refl in E.
Qed.

Lemma dict_set_length (k : str) (v : pyval) (d : list (str * pyval)) :
  length (dict_set k v d) <= S (length d).
Proof.
  induction d as [|[k0 w] d IH]; simpl; [lia|].
  destruct (str_eqb k0 k); simpl; lia.
Qed.

Lemma extract_fold_pairs (lines : list str) (d : list (str * pyval)) :
  fold_left extract_step lines d =
  fold_left set_pair
            (flat_map (fun line => match line_key_value line with
                                   | Some kv => [kv]
                                   | None => []
                                   end) lines) d.
Proof.
  revert d; induction lines as [|line lines IH]; intro d; [reflexivity|].
  cbn [fold_left flat_map]. rewrite fold_left_app, IH. f_equal.
  unfold extract_step. destruct (line_key_value line) as [[k v]|]; reflexivity.
Qed.

Lemma extract_key_values_pairs (text : str) :
  _extract_key_values text = fold_left set_pair (line_pairs text) [].
Proof. apply extract_fold_pairs. Qed.

Lemma fold_pairs_get (key : str) (pairs : list (str * pyval)) (d : list (str * pyval)) :
  dict_get key (fold_left set_pair pairs d) =
  fold_left (fun acc kv => if str_eqb (fst kv) key then Some (snd kv) else acc)
            pairs (dict_get key d).
Proof.
  revert d; induction pairs as [|[k v] pairs IH]; intro d; [reflexivity|].
  cbn [fold_left]. rewrite IH. f_equal. unfold set_pair; cbn [fst snd].
  destruct (str_eqb k key) eqn:E.
  - apply str_eqb_eq in E. subst. apply dict_get_set_same.
  - apply dict_get_set_other. now apply str_eqb_neq.
Qed.

Lemma fold_pairs_NoDup (pairs : list (str * pyval)) (d : list (str * pyval)) :
  NoDup (map fst d) -> NoDup (map fst (fold_left set_pair pairs d)).
Proof.
  revert d; induction pairs as [|kv pairs IH]; intros d H; [exact H|].
  cbn [fold_left]. apply IH. now apply dict_set_NoDup.
Qed.

Lemma fold_pairs_keys (key : str) (pairs : list (str * pyval)) (d : list (str * pyval)) :
  In key (map fst (fold_left set_pair pairs d)) <->
  In key (map fst pairs) \/ In key (map fst d).
Proof.
  revert d; induction pairs as [|kv pairs IH]; intro d; simpl; [intuition|].
  rewrite IH. unfold set_pair. rewrite dict_set_keys. intuition.
Qed.

Lemma fold_pairs_length (pairs : list (str * pyval)) (d : list (str * pyval)) :
  length (fold_left set_pair pairs d) <= length pairs + length d.
Proof.
  revert d; induction pairs as [|kv pairs IH]; intro d; simpl; [lia|].
  specialize (IH (set_pair d kv)).
  pose proof (dict_set_length (fst kv) (snd kv) d). unfold set_pair in *. lia.
Qed.

(** C10.  The mapping has one entry per key; the entry of a key holds the
    parsed value of the last line that derives it; the keys are those the
    matching lines derive; so the mapping has at most as many entries as
    there are matching lines, and fewer when two lines share a key: the
    text "Total: 1" / "total: 2" has two matching lines and one entry,
    [total] with the value 2. *)
Theorem C10_last_line_wins (text : str) :
  NoDup (map fst (_extract_key_values text)) /\
  (forall key, dict_get key (_extract_key_values text) = last_value key (line_pairs text)) /\
  (forall key, In key (map fst (_extract_key_values text)) <->
               In key (map fst (line_pairs text))) /\
  length (_extract_key_values text) <= length (line_pairs text) /\
  (let two := py "Total: 1" ++ [10%N] ++ py "total: 2" in
   line_pairs two = [(py "total", VInt 1); (py "total", VInt 2)] /\
   _extract_key_values two = [(py "total", VInt 2)]).
Proof.
  rewrite extract_key_values_pairs. repeat split.
  - apply fold_pairs_NoDup. constructor.
  - intro key. apply fold_pairs_get.
  - rewrite fold_pairs_keys. simpl. intuition.
  - rewrite fold_pairs_keys. simpl. intuition.
  - pose proof (fold_pairs_length (line_pairs text) []). simpl in *. lia.
Qed.





End KeyValues.

(** ** Error correction *)

Section Correct.
Import Py ErrorCorrection.

(** C9.  Whatever the similarity ratio and the iteration order of the set
    of domain words, [correct("teh Total")] returns "the Total" and the one
    correction record of "teh" into "the", of type [word_correction];
    "Total" is a domain word and [_correct_word] leaves it as it is. *)
Theorem C9_teh_total (ratio : str -> str -> Q) (iteration_order : list str) :
  correct ratio iteration_order (py "teh Total")
    = (py "the Total",
       [ {| original := py "teh"; corrected := py "the"; type := word_correction |} ]) /\
  _correct_word ratio iteration_order (py "teh") = (py "the", word_correction) /\
  _correct_word ratio iteration_order (py "Total") = (py "Total", no_correction).
Proof. repeat split; vm_compute; reflexivity. Qed.

End Correct.

(** ** Sorting *)

Section SortedFacts.
Import Py.
Context {A : Type} (le : A -> A -> bool).

Lemma insert_sorted_perm (x : A) (l : list A) :
  Permutation (insert_sorted le x l) (x :: l).
Proof.
  induction l as [|y l IH]; simpl; [reflexivity|].
  destruct (le y x); [|reflexivity].
  rewrite IH. apply perm_swap.
Qed.

Lemma sorted_from_perm (l acc : list A) :
  Permutation (fold_left (fun acc x => insert_sorted le x acc) l acc) (acc ++ l).
Proof.
  revert acc; induction l as [|x l IH]; intro acc; simpl.
  - now rewrite app_nil_r.
  - rewrite IH, insert_sorted_perm. apply Permutation_middle.
Qed.

Lemma sorted_perm (l : list A) : Permutation (sorted le l) l.
Proof. unfold sorted. now rewrite sorted_from_perm. Qed.

Lemma sorted_length (l : list A) : length (sorted le l) = length l.
Proof. apply Permutation_length, sorted_perm. Qed.

End SortedFacts.

(** ** Table grids *)

Section Grid.
Import Py Tables Spec.

Lemma sorted_set_length (l : list Z) : length (sorted_set l) = distinct l.
Proof. unfold sorted_set, distinct. apply sorted_length. Qed.

Lemma consecutive_length (l : list Z) : length (consecutive l) = length l - 1.
Proof.
  unfold consecutive. rewrite length_combine, removelast_firstn_len, length_firstn.
  destruct l; simpl; lia.
Qed.

Lemma row_positions (ri : nat) (y : Z * Z) (cols : list (Z * Z)) (k : nat) :
  map position
      (map (fun c : nat * (Z * Z) =>
              make_cell ri (fst c) (fst (snd c)) (snd (snd c)) (fst y) (snd y))
           (enumerate_from k cols))
  = map (fun ci => (ri, ci)) (seq k (length cols)).
Proof.
  revert k; induction cols as [|c cols IH]; intro k; simpl; [reflexivity|].
  now rewrite IH.
Qed.

Lemma grid_positions (rows cols : list (Z * Z)) (k : nat) :
  map position
      (flat_map
         (fun r : nat * (Z * Z) =>
            map (fun c : nat * (Z * Z) =>
                   make_cell (fst r) (fst c)
                             (fst (snd c)) (snd (snd c)) (fst (snd r)) (snd (snd r)))
                (enumerate cols))
         (enumerate_from k rows))
  = list_prod (seq k (length rows)) (seq 0 (length cols)).
Proof.
  revert k; induction rows as [|r rows IH]; intro k; simpl; [reflexivity|].
  rewrite map_app, IH. f_equal. apply row_positions.
Qed.

Lemma NoDup_map_pair {X Y} (x : X) (l' : list Y) :
  NoDup l' -> NoDup (map (fun y => (x, y)) l').
Proof.
  induction 1 as [|y l' Hy Hl' IH]; simpl; constructor; [|exact IH].
  intro H. apply in_map_iff in H as (y' & E & Hin). injection E as ->. contradiction.
Qed.

Lemma NoDup_list_prod {X Y} (l : list X) (l' : list Y) :
  NoDup l -> NoDup l' -> NoDup (list_prod l l').
Proof.
  intros Hl Hl'. induction Hl as [|x l Hx Hl IH]; simpl; [constructor|].
  apply NoDup_app.
  - now apply NoDup_map_pair.
  - exact IH.
  - intros [a b] H1 H2. apply in_map_iff in H1 as (y & E & _).
    injection E as <- <-. apply in_prod_iff in H2 as [H2 _]. contradiction.
Qed.

Lemma list_max_attained (l : list nat) (n : nat) :
  In n l -> (forall k, In k l -> k <= n) -> list_max l = n.
Proof.
  intros Hin Hle. apply Nat.le_antisymm.
  - apply list_max_le, Forall_forall. exact Hle.
  - assert (F : Forall (fun k => k <= list_max l) l) by now apply list_max_le.
    rewrite Forall_forall in F. now apply F.
Qed.

(** The cells of [_find_cells] when both axes have two positions or more. *)
Lemma find_cells_grid (hl vl : list rect) :
  2 <= distinct (map rect_y hl) -> 2 <= distinct (map rect_x vl) ->
  map position (_find_cells hl vl)
    = list_prod (seq 0 (distinct (map rect_y hl) - 1))
                (seq 0 (distinct (map rect_x vl) - 1)) /\
  Forall (fun c => row_span c = 1 /\ col_span c = 1 /\ is_header c = Nat.eqb (row c) 0)
         (_find_cells hl vl).
Proof.
  intros Hh Hv. unfold _find_cells. rewrite !sorted_set_length.
  replace (distinct (map rect_y hl) <? 2) with false by (symmetry; apply Nat.ltb_ge; lia).
  replace (distinct (map rect_x vl) <? 2) with false by (symmetry; apply Nat.ltb_ge; lia).
  cbn [orb]. split.
  - unfold enumerate at 2. rewrite grid_positions, !consecutive_length, !sorted_set_length.
    reflexivity.
  - apply Forall_forall. intros c Hc.
    apply in_flat_map in Hc as (r & _ & Hc). apply in_map_iff in Hc as (x & <- & _).
    now cbn.
Qed.

Lemma find_cells_none (hl vl : list rect) :
  distinct (map rect_y hl) < 2 \/ distinct (map rect_x vl) < 2 ->
  _find_cells hl vl = [].
Proof.
  intro H. unfold _find_cells. rewrite !sorted_set_length.
  destruct (Nat.ltb_spec (distinct (map rect_y hl)) 2);
    destruct (Nat.ltb_spec (distinct (map rect_x vl)) 2); try reflexivity; lia.
Qed.

(** C6.  With fewer than two distinct horizontal positions or fewer than
    two distinct vertical positions the extractor returns no table.
    Otherwise it returns one table whose rows and columns are one fewer
    than the positions; every pair (row, col) within these bounds is the
    position of exactly one cell; every cell lies within the bounds, has
    row span and column span 1, and is a header cell exactly when its row
    is 0. *)
Theorem C6_heuristic_grid (hl vl : list rect) (offset : Z * Z)
    (recognise : option (rect -> option str)) :
  (distinct (map rect_y hl) < 2 \/ distinct (map rect_x vl) < 2 ->
   _extract_heuristic hl vl offset recognise = []) /\
  (2 <= distinct (map rect_y hl) -> 2 <= distinct (map rect_x vl) ->
   exists t,
     _extract_heuristic hl vl offset recognise = [t] /\
     num_rows t = distinct (map rect_y hl) - 1 /\
     num_cols t = distinct (map rect_x vl) - 1 /\
     (forall r c, r < num_rows t -> c < num_cols t ->
                  count_occ position_eq_dec (map position (cells t)) (r, c) = 1) /\
     (forall c, In c (cells t) ->
                row c < num_rows t /\ col c < num_cols t /\
                row_span c = 1 /\ col_span c = 1 /\
                (is_header c = true <-> row c = 0))).
Proof.
  split.
  - intro H. unfold _extract_heuristic.
    rewrite (find_cells_none hl vl H). destruct hl, vl; reflexivity.
  - intros Hh Hv.
    destruct (find_cells_grid hl vl Hh Hv) as [P F].
    remember (distinct (map rect_y hl) - 1) as R eqn:HR in *.
    remember (distinct (map rect_x vl) - 1) as C eqn:HC in *.
    set (g := fun c : TableCell =>
                match recognise with
                | Some image_to_string =>
                    match image_to_string (bbox c) with
                    | Some t => with_text c (strip t)
                    | None => c
                    end
                | None => c
                end).
    assert (G : forall c, position (g c) = position c /\ row_span (g c) = row_span c /\
                          col_span (g c) = col_span c /\ is_header (g c) = is_header c).
    { intro c. unfold g. destruct recognise as [f|]; [destruct (f (bbox c))|]; now cbn. }
    assert (E : exists cs, cs = map g (_find_cells hl vl) /\
                           _extract_heuristic hl vl offset recognise =
                           [ {| t_bbox :=
                                  (min_of (map (fun c => rect_x (bbox c)) cs) + fst offset,
                                   min_of (map (fun c => rect_y (bbox c)) cs) + snd offset,
                                   max_of (map (fun c => rect_x (bbox c) + rect_w (bbox c)) cs)
                                   - min_of (map (fun c => rect_x (bbox c)) cs),
                                   max_of (map (fun c => rect_y (bbox c) + rect_h (bbox c)) cs)
                                   - min_of (map (fun c => rect_y (bbox c)) cs))%Z;
                                cells := cs;
                                num_rows := S (list_max (map row cs));
                                num_cols := S (list_max (map col cs));
                                t_confidence := 6 # 10;
                                has_header := true |} ]).
    { eexists. split; [reflexivity|]. unfold _extract_heuristic.
      assert (hl <> []) by (intros ->; cbn in Hh; lia).
      assert (vl <> []) by (intros ->; cbn in Hv; lia).
      destruct hl as [|h0 hl']; [contradiction|]. destruct vl as [|v0 vl']; [contradiction|].
      destruct (_find_cells (h0 :: hl') (v0 :: vl')) as [|c0 cs0] eqn:FC.
      - exfalso. cbn in P. destruct R; [lia|]. destruct C; [lia|]. discriminate.
      - unfold g. destruct recognise as [f|]; [reflexivity|].
        now rewrite map_id. }
    destruct E as (cs & Ecs & E).
    assert (Pcs : map position cs = list_prod (seq 0 R) (seq 0 C)).
    { rewrite Ecs, map_map, <- P. apply map_ext. intro c. apply G. }
    assert (In_cs : forall r c, In (r, c) (map position cs) <-> r < R /\ c < C).
    { intros r c. rewrite Pcs, in_prod_iff, !in_seq. lia. }
    assert (Rows : list_max (map row cs) = R - 1).
    { apply list_max_attained.
      - apply in_map_iff.
        assert (I : In (R - 1, 0) (map position cs)) by (apply In_cs; lia).
        apply in_map_iff in I as (c & Ec & Hc). exists c. split; [|exact Hc].
        now injection Ec.
      - intros k Hk. apply in_map_iff in Hk as (c & <- & Hc).
        assert (I : In (row c, col c) (map position cs)) by (apply in_map_iff; now exists c).
        apply In_cs in I. lia. }
    assert (Cols : list_max (map col cs) = C - 1).
    { apply list_max_attained.
      - apply in_map_iff.
        assert (I : In (0, C - 1) (map position cs)) by (apply In_cs; lia).
        apply in_map_iff in I as (c & Ec & Hc). exists c. split; [|exact Hc].
        now injection Ec.
      - intros k Hk. apply in_map_iff in Hk as (c & <- & Hc).
        assert (I : In (row c, col c) (map position cs)) by (apply in_map_iff; now exists c).
        apply In_cs in I. lia. }
    eexists. split; [exact E|]. cbn [num_rows num_cols cells]. rewrite Rows, Cols.
    split; [lia|]. split; [lia|]. split.
    + intros r c Hr Hc.
      apply NoDup_count_occ'.
      * rewrite Pcs. apply NoDup_list_prod; apply seq_NoDup.
      * apply In_cs. lia.
    + intros c Hc.
      assert (I : In (row c, col c) (map position cs)) by (apply in_map_iff; now exists c).
      apply In_cs in I.
      rewrite Ecs in Hc. apply in_map_iff in Hc as (c0 & <- & Hc0).
      rewrite Forall_forall in F. destruct (F c0 Hc0) as (S1 & S2 & S3).
      destruct (G c0) as (G1 & G2 & G3 & G4).
      injection G1 as G1r G1c.
      rewrite G2, G3, G4, S3, G1r. rewrite G1r, G1c in I.
      repeat split; try lia; try assumption.
      * now intros ?%Nat.eqb_eq.
      * intros ->. reflexivity.
Qed.

Lemma C6_heuristic_grid_witness :
  exists t,
    _extract_heuristic [(0, 0, 10, 1); (0, 10, 10, 1); (0, 30, 10, 1)]%Z
                       [(0, 0, 1, 30); (20, 0, 1, 30)]%Z (5, 5)%Z None = [t] /\
    num_rows t = 2 /\ num_cols t = 1.
Proof.
  destruct (C6_heuristic_grid [(0, 0, 10, 1); (0, 10, 10, 1); (0, 30, 10, 1)]%Z
                              [(0, 0, 1, 30); (20, 0, 1, 30)]%Z (5, 5)%Z None)
    as (_ & H).
  destruct H as (t & E & Hr & Hc & _).
  - vm_compute. lia.
  - vm_compute. lia.
  - exists t. split; [exact E|]. split; [exact Hr|exact Hc].
Defined.

End Grid.

(** ** Reading order *)

Section ReadingOrder.
Import Py Layout Spec.

Lemma last_app_nonempty {X} (l l' : list X) (d : X) :
  l' <> [] -> last (l ++ l') d = last l' d.
Proof.
  intro H. induction l as [|a l IH]; [reflexivity|].
  cbn [app]. destruct (l ++ l') eqn:E.
  - apply app_eq_nil in E as [_ ->]. contradiction.
  - exact IH.
Qed.

Lemma last_default {X} (l : list X) (d d' : X) :
  l <> [] -> last l d = last l d'.
Proof.
  induction l as [|a l IH]; [contradiction|]. intros _.
  destruct l as [|b l]; [reflexivity|].
  change (last (b :: l) d = last (b :: l) d'). apply IH. discriminate.
Qed.

Lemma fold_group_fst (l : list (nat * LayoutRegion)) rows cur :
  close_rows (fold_left group_step l (rows, cur))
  = rows ++ close_rows (fold_left group_step l ([], cur)).
Proof.
  revert rows cur; induction l as [|a l IH]; intros rows cur.
  - unfold close_rows; simpl. destruct cur; [now rewrite app_nil_r|reflexivity].
  - cbn [fold_left]. unfold group_step at 2 4.
    destruct cur as [|first others].
    + apply IH.
    + destruct (y_overlap (snd a) (snd (last (first :: others) first))).
      * apply IH.
      * rewrite IH. rewrite (IH ([] ++ [first :: others])).
        now rewrite <- app_assoc.
Qed.

Lemma concat_close_fold (l : list (nat * LayoutRegion)) rows cur :
  concat (close_rows (fold_left group_step l (rows, cur))) = concat rows ++ cur ++ l.
Proof.
  revert rows cur; induction l as [|a l IH]; intros rows cur.
  - unfold close_rows; simpl. destruct cur; [now rewrite app_nil_r|].
    rewrite concat_app. simpl. now rewrite !app_nil_r.
  - cbn [fold_left]. unfold group_step at 2.
    destruct cur as [|first others].
    + rewrite IH. reflexivity.
    + destruct (y_overlap (snd a) (snd (last (first :: others) first))).
      * rewrite IH. now rewrite <- app_assoc.
      * rewrite IH, concat_app. simpl. now rewrite app_nil_r, <- app_assoc.
Qed.

Lemma concat_group_rows (l : list (nat * LayoutRegion)) :
  concat (group_rows l) = l.
Proof.
  unfold group_rows.
  pose proof (concat_close_fold l [] []) as H. unfold close_rows in H.
  destruct (fold_left group_step l ([], [])) as [rows cur]. exact H.
Qed.

Lemma group_rows_close (l : list (nat * LayoutRegion)) :
  group_rows l = close_rows (fold_left group_step l ([], [])).
Proof.
  unfold group_rows, close_rows.
  destruct (fold_left group_step l ([], [])) as [rows cur]. reflexivity.
Qed.

(** The rows of a list split where a region does not overlap the one
    before it. *)
Lemma fold_group_split (l1 : list (nat * LayoutRegion)) cur c l2 :
  cur ++ l1 <> [] ->
  y_overlap (snd c) (snd (last (cur ++ l1) c)) = false ->
  close_rows (fold_left group_step (l1 ++ c :: l2) ([], cur))
  = close_rows (fold_left group_step l1 ([], cur))
    ++ close_rows (fold_left group_step (c :: l2) ([], [])).
Proof.
  revert cur; induction l1 as [|a l1 IH]; intros cur NE NO.
  - rewrite app_nil_r in NE, NO. cbn [app fold_left].
    destruct cur as [|first others]; [contradiction|].
    unfold group_step at 2. rewrite (last_default _ first c) by discriminate.
    rewrite NO. rewrite fold_group_fst. reflexivity.
  - cbn [app fold_left].
    assert (L : forall cur', cur' <> [] -> last cur' c = a ->
                last (cur' ++ l1) c = last (cur ++ a :: l1) c).
    { intros cur' N' La. destruct l1 as [|b l1].
      - rewrite app_nil_r, La. rewrite last_app_nonempty by discriminate. reflexivity.
      - rewrite !last_app_nonempty by discriminate. reflexivity. }
    unfold group_step at 2 4. destruct cur as [|first others].
    + apply IH; [discriminate|]. rewrite (L [a]); [exact NO|discriminate|reflexivity].
    + destruct (y_overlap (snd a) (snd (last (first :: others) first))).
      * apply IH; [discriminate|].
        rewrite (L ((first :: others) ++ [a])); [exact NO| |].
        -- intro E. apply app_eq_nil in E as [E _]. discriminate.
        -- rewrite last_app_nonempty by discriminate. reflexivity.
      * rewrite fold_group_fst, IH;
          [|discriminate|rewrite (L [a]); [exact NO|discriminate|reflexivity]].
        rewrite (fold_group_fst l1 ([] ++ [first :: others]) [a]).
        cbn [app fold_left]. reflexivity.
Qed.

Lemma group_rows_split (l1 : list (nat * LayoutRegion)) c l2 :
  l1 <> [] ->
  y_overlap (snd c) (snd (last l1 c)) = false ->
  group_rows (l1 ++ c :: l2) = group_rows l1 ++ group_rows (c :: l2).
Proof.
  intros NE NO. rewrite !group_rows_close. now apply fold_group_split.
Qed.

Lemma read_rows_perm (rows : list (list (nat * LayoutRegion))) :
  Permutation (read_rows rows) (map fst (concat rows)).
Proof.
  induction rows as [|row rows IH]; simpl; [reflexivity|].
  rewrite map_app. apply Permutation_app; [|exact IH].
  apply Permutation_map, sorted_perm.
Qed.

Lemma read_rows_app (r1 r2 : list (list (nat * LayoutRegion))) :
  read_rows (r1 ++ r2) = read_rows r1 ++ read_rows r2.
Proof. unfold read_rows. apply flat_map_app. Qed.

Lemma reading_order_eq (found : list LayoutRegion) :
  _determine_reading_order found
  = read_rows (group_rows (sorted_by key_y (enumerate found))).
Proof. destruct found; reflexivity. Qed.

Lemma reading_order_perm (found : list LayoutRegion) :
  Permutation (_determine_reading_order found) (seq 0 (length found)).
Proof.
  rewrite reading_order_eq, read_rows_perm, concat_group_rows.
  unfold sorted_by. rewrite sorted_perm.
  unfold enumerate. now rewrite map_fst_enumerate_from.
Qed.

Lemma insert_sorted_by {X} (key : X -> Z) (x : X) (l : list X) :
  StronglySorted (fun a b => (key a <= key b)%Z) l ->
  StronglySorted (fun a b => (key a <= key b)%Z)
                 (insert_sorted (fun a b => (key a <=? key b)%Z) x l).
Proof.
  induction 1 as [|y l Hs IH Hy]; simpl.
  - constructor; constructor.
  - destruct (Z.leb_spec (key y) (key x)) as [Le|Gt].
    + constructor; [exact IH|].
      eapply Permutation_Forall; [symmetry; apply insert_sorted_perm|].
      constructor; assumption.
    + constructor; [now constructor|].
      constructor; [lia|]. eapply Forall_impl; [|exact Hy]. cbv beta. intros; lia.
Qed.

Lemma sorted_by_sorted {X} (key : X -> Z) (l : list X) :
  StronglySorted (fun a b => (key a <= key b)%Z) (sorted_by key l).
Proof.
  unfold sorted_by, sorted.
  assert (G : forall acc, StronglySorted (fun a b => (key a <= key b)%Z) acc ->
                StronglySorted (fun a b => (key a <= key b)%Z)
                  (fold_left (fun acc x => insert_sorted (fun a b => (key a <=? key b)%Z) x acc)
                             l acc)).
  { induction l as [|x l IH]; intros acc H; [exact H|].
    cbn [fold_left]. apply IH. now apply insert_sorted_by. }
  apply G. constructor.
Qed.

Lemma strongly_sorted_suffix {X} (R : X -> X -> Prop) (p q : list X) :
  StronglySorted R (p ++ q) -> StronglySorted R q.
Proof.
  induction p as [|a p IH]; [trivial|]. intro H. inversion H; subst. now apply IH.
Qed.

(** In a list sorted by [key], an element with a smaller key comes first. *)
Lemma sorted_before {X} (key : X -> Z) (l : list X) (a b : X) :
  StronglySorted (fun a b => (key a <= key b)%Z) l ->
  In a l -> In b l -> (key a < key b)%Z ->
  exists pre mid post, l = pre ++ a :: mid ++ b :: post.
Proof.
  intros S Ha Hb Lt.
  apply in_split in Hb as (p & q & ->).
  apply in_app_or in Ha as [Ha|[<-|Ha]].
  - apply in_split in Ha as (pre & mid & ->).
    exists pre, mid, q. now rewrite <- app_assoc.
  - lia.
  - apply strongly_sorted_suffix in S. inversion S as [|? ? _ F]; subst.
    rewrite Forall_forall in F. specialize (F a Ha). cbv beta in F. lia.
Qed.

(** Between a region that ends at or above [y0] and a later one that
    starts at or below it, with no region across [y0] in between, some
    region does not overlap the one before it. *)
Lemma bridge (y0 : Z) (b : nat * LayoutRegion) (post mid : list (nat * LayoutRegion))
    (a : nat * LayoutRegion) :
  (bottom (snd a) <= y0)%Z -> (y0 <= top (snd b))%Z ->
  (forall m, In m mid -> (bottom (snd m) <= y0)%Z \/ (y0 <= top (snd m))%Z) ->
  exists u c l2,
    a :: mid ++ b :: post = (a :: u) ++ c :: l2 /\
    In b (c :: l2) /\
    y_overlap (snd c) (snd (last (a :: u) c)) = false.
Proof.
  revert a; induction mid as [|m mid IH]; intros a Ha Hb Hm.
  - exists [], b, post. split; [reflexivity|]. split; [now left|].
    unfold y_overlap, bottom, top in *. cbn [last].
    apply andb_false_iff. left. apply Z.ltb_ge. lia.
  - destruct (Z_le_gt_dec y0 (top (snd m))) as [Le|Gt].
    + exists [], m, (mid ++ b :: post). split; [reflexivity|].
      split; [right; apply in_or_app; right; now left|].
      unfold y_overlap, bottom, top in *. cbn [last].
      apply andb_false_iff. left. apply Z.ltb_ge. lia.
    + assert (Hbm : (bottom (snd m) <= y0)%Z).
      { destruct (Hm m (or_introl eq_refl)); [assumption|lia]. }
      destruct (IH m Hbm Hb) as (u & c & l2 & E & Hin & NO).
      { intros m' H'. apply Hm. now right. }
      exists (m :: u), c, l2. split; [|split; [exact Hin|exact NO]].
      cbn [app] in *. now rewrite E.
Qed.

Lemma in_enumerate_from {X} (l : list X) (k i : nat) (x : X) :
  In (i, x) (enumerate_from k l) <-> k <= i /\ nth_error l (i - k) = Some x.
Proof.
  revert k; induction l as [|a l IH]; intro k; simpl.
  - split; [contradiction|]. intros [_ H]. now destruct (i - k).
  - rewrite IH. split.
    + intros [E|[H1 H2]].
      * injection E as <- <-. split; [lia|]. now rewrite Nat.sub_diag.
      * split; [lia|]. replace (i - k) with (S (i - S k)) by lia. exact H2.
    + intros [H1 H2]. destruct (Nat.eq_dec k i) as [<-|N].
      * left. rewrite Nat.sub_diag in H2. now injection H2 as <-.
      * right. split; [lia|]. replace (i - k) with (S (i - S k)) in H2 by lia. exact H2.
Qed.

(** Two regions on either side of a line that no region crosses are read
    in that order. *)
Lemma separated_positions (found : list LayoutRegion) (y0 : Z) (i j : nat)
    (a b : LayoutRegion) (k k' : nat) :
  separates y0 found ->
  nth_error found i = Some a -> nth_error found j = Some b ->
  (bottom a <= y0)%Z -> (y0 <= top b)%Z -> (top a < top b)%Z ->
  nth_error (_determine_reading_order found) k = Some i ->
  nth_error (_determine_reading_order found) k' = Some j ->
  k < k'.
Proof.
  intros Sep Ha Hb Ba Tb Lt Hk Hk'.
  pose proof (reading_order_perm found) as P.
  assert (ND : NoDup (_determine_reading_order found)).
  { eapply Permutation_NoDup; [symmetry; exact P|apply seq_NoDup]. }
  rewrite reading_order_eq in *.
  set (S := sorted_by key_y (enumerate found)) in *.
  assert (PS : Permutation S (enumerate found)) by apply sorted_perm.
  assert (InS : forall n r, nth_error found n = Some r -> In (n, r) S).
  { intros n r H. eapply Permutation_in; [symmetry; exact PS|].
    apply in_enumerate_from. split; [lia|]. now rewrite Nat.sub_0_r. }
  assert (SepS : forall m, In m S -> (bottom (snd m) <= y0)%Z \/ (y0 <= top (snd m))%Z).
  { intros [n r] H. apply (Permutation_in _ PS) in H.
    apply in_enumerate_from in H as [_ H]. apply Sep. eapply nth_error_In. exact H. }
  destruct (sorted_before key_y S (i, a) (j, b) (sorted_by_sorted key_y _)
              (InS _ _ Ha) (InS _ _ Hb) Lt) as (pre & mid & post & ES).
  destruct (bridge y0 (j, b) post mid (i, a) Ba Tb) as (u & c & l2 & E & Hin & NO).
  { intros m Hm. apply SepS. rewrite ES. apply in_or_app. right. right.
    apply in_or_app. now left. }
  assert (ES' : S = (pre ++ (i, a) :: u) ++ c :: l2).
  { rewrite ES, <- app_assoc. f_equal. exact E. }
  assert (NE : pre ++ (i, a) :: u <> []).
  { intro H. apply app_eq_nil in H as [_ H]. discriminate. }
  assert (NO' : y_overlap (snd c) (snd (last (pre ++ (i, a) :: u) c)) = false).
  { rewrite last_app_nonempty by discriminate. exact NO. }
  rewrite ES', (group_rows_split _ _ _ NE NO'), read_rows_app in Hk, Hk', ND.
  set (A := read_rows (group_rows (pre ++ (i, a) :: u))) in *.
  set (B := read_rows (group_rows (c :: l2))) in *.
  assert (IA : In i A).
  { eapply Permutation_in; [symmetry; apply read_rows_perm|].
    rewrite concat_group_rows. apply in_map_iff. exists (i, a). split; [reflexivity|].
    apply in_or_app. right. now left. }
  assert (IB : In j B).
  { eapply Permutation_in; [symmetry; apply read_rows_perm|].
    rewrite concat_group_rows. apply in_map_iff. exists (j, b). split; [reflexivity|exact Hin]. }
  apply In_nth_error in IA as (p & Hp). apply In_nth_error in IB as (q & Hq).
  assert (Lp : p < length A) by (apply nth_error_Some; congruence).
  assert (Lq : q < length B) by (apply nth_error_Some; congruence).
  assert (Ek : k = p).
  { apply (proj1 (NoDup_nth_error _) ND).
    - apply nth_error_Some. congruence.
    - rewrite Hk, nth_error_app1 by exact Lp. now symmetry. }
  assert (Ek' : k' = length A + q).
  { apply (proj1 (NoDup_nth_error _) ND).
    - apply nth_error_Some. congruence.
    - rewrite Hk', nth_error_app2 by lia.
      replace (length A + q - length A) with q by lia. now symmetry. }
  lia.
Qed.

Lemma set_order_ok (rs : list LayoutRegion) (i idx : nat) (r : LayoutRegion) :
  nth_error rs i = Some r ->
  exists rs',
    set_order rs i idx = Ok rs' /\ length rs' = length rs /\
    nth_error rs' i = Some (with_order r idx) /\
    forall j, j <> i -> nth_error rs' j = nth_error rs j.
Proof.
  revert i; induction rs as [|r0 rs IH]; intros [|i] H; try discriminate.
  - injection H as ->. eexists. split; [reflexivity|]. split; [reflexivity|].
    split; [reflexivity|]. intros [|j] N; [contradiction|reflexivity].
  - destruct (IH i H) as (rs' & E & L & Hi & Ho).
    exists (r0 :: rs'). cbn [set_order]. rewrite E. split; [reflexivity|].
    split; [simpl; now rewrite L|]. split; [exact Hi|].
    intros [|j] N; [reflexivity|]. apply Ho. lia.
Qed.

Lemma update_orders_ok (ro : list nat) (k : nat) (rs : list LayoutRegion) :
  NoDup ro -> (forall i, In i ro -> i < length rs) ->
  exists rs',
    update_orders rs (enumerate_from k ro) = Ok rs' /\ length rs' = length rs /\
    (forall t i, nth_error ro t = Some i ->
       exists r, nth_error rs i = Some r /\ nth_error rs' i = Some (with_order r (k + t))) /\
    (forall j, ~ In j ro -> nth_error rs' j = nth_error rs j).
Proof.
  revert k rs; induction ro as [|i ro IH]; intros k rs ND B.
  - exists rs. split; [reflexivity|]. split; [reflexivity|]. split.
    + intros [|t] ? H; discriminate.
    + reflexivity.
  - inversion ND as [|? ? Ni ND']; subst.
    assert (Hi : i < length rs) by (apply B; now left).
    destruct (nth_error rs i) as [r|] eqn:Er; [|apply nth_error_None in Er; lia].
    destruct (set_order_ok rs i k r Er) as (rs1 & E1 & L1 & H1 & O1).
    destruct (IH (S k) rs1 ND') as (rs' & E & L & Ht & Ho).
    { intros i' H'. rewrite L1. apply B. now right. }
    exists rs'. cbn [enumerate_from update_orders]. rewrite E1. cbn [bind].
    split; [exact E|]. split; [congruence|]. split.
    + intros [|t] i' H'.
      * injection H' as <-. exists r. split; [exact Er|].
        rewrite Ho by exact Ni. now rewrite Nat.add_0_r.
      * cbn [nth_error] in H'. destruct (Ht t i' H') as (r1 & R1 & R').
        assert (i' <> i) by (intros ->; apply Ni; eapply nth_error_In; exact H').
        rewrite O1 in R1 by assumption.
        exists r1. split; [exact R1|]. now rewrite Nat.add_succ_r.
    + intros j Nj. rewrite Ho by (intro; apply Nj; now right).
      apply O1. intros ->. apply Nj. now left.
Qed.

Lemma strongly_sorted_app {X} (R : X -> X -> Prop) (p q : list X) (x y : X) :
  StronglySorted R (p ++ q) -> In x p -> In y q -> R x y.
Proof.
  induction p as [|a p IH]; [contradiction|].
  intros S [<-|Hx] Hy; inversion S as [|? ? S' F]; subst.
  - rewrite Forall_forall in F. apply F. apply in_or_app. now right.
  - now apply IH.
Qed.

Lemma positions_in_app (A B : list nat) (i j k k' : nat) :
  NoDup (A ++ B) -> In i A -> In j B ->
  nth_error (A ++ B) k = Some i -> nth_error (A ++ B) k' = Some j -> k < k'.
Proof.
  intros ND IA IB Hk Hk'.
  apply In_nth_error in IA as (p & Hp). apply In_nth_error in IB as (q & Hq).
  assert (Lp : p < length A) by (apply nth_error_Some; congruence).
  assert (Ek : k = p).
  { apply (proj1 (NoDup_nth_error _) ND).
    - apply nth_error_Some. congruence.
    - rewrite Hk, nth_error_app1 by exact Lp. now symmetry. }
  assert (Ek' : k' = length A + q).
  { apply (proj1 (NoDup_nth_error _) ND).
    - apply nth_error_Some. congruence.
    - rewrite Hk', nth_error_app2 by lia.
      replace (length A + q - length A) with q by lia. now symmetry. }
  lia.
Qed.

Lemma in_read_rows (rows : list (list (nat * LayoutRegion))) row (i : nat) (a : LayoutRegion) :
  In row rows -> In (i, a) row -> In i (read_rows rows).
Proof.
  intros Hr Hi. eapply Permutation_in; [symmetry; apply read_rows_perm|].
  apply in_map_iff. exists (i, a). split; [reflexivity|].
  apply in_concat. now exists row.
Qed.

(** Two regions in different rows of the grouping are read in the order of
    their top y. *)
Lemma row_positions_ordered (found : list LayoutRegion) (p q i j : nat)
    (rowp rowq : list (nat * LayoutRegion)) (a b : LayoutRegion) (k k' : nat) :
  nth_error (page_rows found) p = Some rowp ->
  nth_error (page_rows found) q = Some rowq ->
  p <> q -> In (i, a) rowp -> In (j, b) rowq -> (top a < top b)%Z ->
  nth_error (_determine_reading_order found) k = Some i ->
  nth_error (_determine_reading_order found) k' = Some j ->
  k < k'.
Proof.
  intros Hp Hq Npq Ia Ib Lt Hk Hk'.
  pose proof (reading_order_perm found) as P.
  assert (ND : NoDup (_determine_reading_order found)).
  { eapply Permutation_NoDup; [symmetry; exact P|apply seq_NoDup]. }
  rewrite reading_order_eq in *. fold (page_rows found) in *.
  assert (Cat : concat (page_rows found) = sorted_by key_y (enumerate found))
    by apply concat_group_rows.
  assert (Srt : StronglySorted (fun x y => (key_y x <= key_y y)%Z)
                               (concat (page_rows found)))
    by (rewrite Cat; apply sorted_by_sorted).
  assert (Split : forall n, page_rows found
                            = firstn n (page_rows found) ++ skipn n (page_rows found))
    by (intro n; now rewrite firstn_skipn).
  assert (First : forall n m row, nth_error (page_rows found) m = Some row -> m < n ->
                                  In row (firstn n (page_rows found))).
  { intros n m row H L. apply (nth_error_In _ m). now rewrite nth_error_firstn, (proj2 (Nat.ltb_lt m n) L). }
  assert (Rest : forall n m row, nth_error (page_rows found) m = Some row -> n <= m ->
                                 In row (skipn n (page_rows found))).
  { intros n m row H L. apply (nth_error_In _ (m - n)).
    rewrite nth_error_skipn. now replace (n + (m - n)) with m by lia. }
  destruct (Nat.lt_ge_cases p q) as [Lpq|Lqp].
  - rewrite (Split (S p)), read_rows_app in Hk, Hk', ND.
    eapply positions_in_app; [exact ND| | |exact Hk|exact Hk'].
    + eapply in_read_rows; [|exact Ia]. eapply First; [exact Hp|lia].
    + eapply in_read_rows; [|exact Ib]. eapply Rest; [exact Hq|lia].
  - exfalso. rewrite (Split (S q)), concat_app in Srt.
    assert (Le : (key_y (j, b) <= key_y (i, a))%Z).
    { eapply (strongly_sorted_app _ _ _ _ _ Srt).
      - apply in_concat. exists rowq. split; [|exact Ib]. eapply First; [exact Hq|lia].
      - apply in_concat. exists rowp. split; [|exact Ia]. eapply Rest; [exact Hp|lia]. }
    unfold key_y, top in *. cbn [snd] in Le. lia.
Qed.

(** C2.  [detect] returns; the regions keep their place and data and get
    an order index; the order indices of N regions are a permutation of
    0..N-1, region [reading_order[k]] having index [k].  Rows: for two
    regions that the grouping places in different rows, and for two regions
    on either side of a horizontal line that no region crosses (visually
    distinct rows that do not overlap), the one with the smaller top y has
    the smaller order index. *)
Theorem C2_reading_order (found : list LayoutRegion) (size : Z * Z) :
  exists res,
    detect found size = Ok res /\
    length (regions res) = length found /\
    Permutation (map order (regions res)) (seq 0 (length found)) /\
    reading_order res = _determine_reading_order found /\
    (forall i r, nth_error found i = Some r ->
       exists k, nth_error (regions res) i = Some (with_order r k) /\
                 nth_error (reading_order res) k = Some i) /\
    (forall p q rowp rowq i j a b a' b',
       nth_error (page_rows found) p = Some rowp ->
       nth_error (page_rows found) q = Some rowq ->
       p <> q -> In (i, a) rowp -> In (j, b) rowq -> (top a < top b)%Z ->
       nth_error (regions res) i = Some a' -> nth_error (regions res) j = Some b' ->
       order a' < order b') /\
    (forall y0 i j a b a' b',
       separates y0 found ->
       nth_error found i = Some a -> nth_error found j = Some b ->
       (bottom a <= y0)%Z -> (y0 <= top b)%Z -> (top a < top b)%Z ->
       nth_error (regions res) i = Some a' -> nth_error (regions res) j = Some b' ->
       order a' < order b').
Proof.
  pose proof (reading_order_perm found) as P.
  set (ro := _determine_reading_order found) in *.
  assert (ND : NoDup ro) by (eapply Permutation_NoDup; [symmetry; exact P|apply seq_NoDup]).
  assert (B : forall i, In i ro <-> i < length found).
  { intro i. split; intro H.
    - apply (Permutation_in _ P) in H. apply in_seq in H. lia.
    - apply (Permutation_in _ (Permutation_sym P)). apply in_seq. lia. }
  destruct (update_orders_ok ro 0 found ND) as (rs & E & L & Ht & _).
  { intros i H. now apply B. }
  assert (Key : forall i r, nth_error found i = Some r ->
                  exists k, nth_error rs i = Some (with_order r k) /\ nth_error ro k = Some i).
  { intros i r H.
    assert (Hi : In i ro) by (apply B, nth_error_Some; congruence).
    apply In_nth_error in Hi as (k & Hk).
    destruct (Ht k i Hk) as (r' & R & R'). exists k. split; [|exact Hk].
    rewrite Nat.add_0_l in R'. congruence. }
  eexists. split; [unfold detect; fold ro; unfold enumerate; rewrite E; reflexivity|].
  cbn [regions reading_order]. split; [exact L|].
  split; [|split; [reflexivity|split; [|split]]].
  - apply NoDup_Permutation_bis.
    + apply NoDup_nth_error. intros i j Hi Hij. rewrite length_map in Hi.
      rewrite !nth_error_map in Hij.
      destruct (nth_error found i) as [r|] eqn:Fi;
        [|apply nth_error_None in Fi; lia].
      destruct (Key i r Fi) as (k & Ri & Ki). rewrite Ri in Hij. cbn in Hij.
      destruct (nth_error rs j) as [rj|] eqn:Rj; [|discriminate].
      destruct (nth_error found j) as [r'|] eqn:Fj;
        [|apply nth_error_None in Fj; assert (j < length rs) by (apply nth_error_Some; congruence); lia].
      destruct (Key j r' Fj) as (k' & Rj' & Kj). rewrite Rj in Rj'. injection Rj' as ->.
      cbn in Hij. injection Hij as <-. congruence.
    + rewrite length_map, length_seq. lia.
    + intros o Ho. apply in_map_iff in Ho as (r & <- & Hr).
      apply In_nth_error in Hr as (i & Hi).
      destruct (nth_error found i) as [r0|] eqn:Fi;
        [|apply nth_error_None in Fi; assert (i < length rs) by (apply nth_error_Some; congruence); lia].
      destruct (Key i r0 Fi) as (k & Ri & Ki). rewrite Hi in Ri. injection Ri as ->.
      cbn. apply in_seq. split; [lia|]. cbn.
      rewrite <- (length_seq (length found) 0), <- (Permutation_length P).
      apply nth_error_Some. congruence.
  - exact Key.
  - intros p q rowp rowq i j a b a' b' Hp Hq Npq Ia Ib Lt Ha' Hb'.
    assert (Ha : nth_error found i = Some a).
    { assert (I : In (i, a) (enumerate found)).
      { eapply Permutation_in; [apply (sorted_perm (fun x y => (key_y x <=? key_y y)%Z))|].
        fold (sorted_by key_y (enumerate found)). rewrite <- concat_group_rows.
        apply in_concat. exists rowp. split; [eapply nth_error_In; exact Hp|exact Ia]. }
      apply in_enumerate_from in I as [_ I]. now rewrite Nat.sub_0_r in I. }
    assert (Hb : nth_error found j = Some b).
    { assert (I : In (j, b) (enumerate found)).
      { eapply Permutation_in; [apply (sorted_perm (fun x y => (key_y x <=? key_y y)%Z))|].
        fold (sorted_by key_y (enumerate found)). rewrite <- concat_group_rows.
        apply in_concat. exists rowq. split; [eapply nth_error_In; exact Hq|exact Ib]. }
      apply in_enumerate_from in I as [_ I]. now rewrite Nat.sub_0_r in I. }
    destruct (Key i a Ha) as (k & Ri & Ki). destruct (Key j b Hb) as (k' & Rj & Kj).
    rewrite Ha' in Ri. injection Ri as ->. rewrite Hb' in Rj. injection Rj as ->.
    cbn. exact (row_positions_ordered found p q i j rowp rowq a b k k'
                  Hp Hq Npq Ia Ib Lt Ki Kj).
  - intros y0 i j a b a' b' Sep Ha Hb Ba Tb Lt Ha' Hb'.
    destruct (Key i a Ha) as (k & Ri & Ki). destruct (Key j b Hb) as (k' & Rj & Kj).
    rewrite Ha' in Ri. injection Ri as ->. rewrite Hb' in Rj. injection Rj as ->.
    cbn. exact (separated_positions found y0 i j a b k k' Sep Ha Hb Ba Tb Lt Ki Kj).
Qed.

Lemma C2_reading_order_witness :
  exists res,
    detect [region_at 50 0 10 10; region_at 0 20 10 10] (200, 200)%Z = Ok res /\
    forall a' b',
      nth_error (regions res) 0 = Some a' -> nth_error (regions res) 1 = Some b' ->
      order a' < order b'.
Proof.
  destruct (C2_reading_order [region_at 50 0 10 10; region_at 0 20 10 10] (200, 200)%Z)
    as (res & E & _ & _ & _ & _ & _ & H).
  exists res. split; [exact E|]. intros a' b' Ha' Hb'.
  apply (H 15%Z 0 1 (region_at 50 0 10 10) (region_at 0 20 10 10) a' b').
  - intros r [<-|[<-|[]]]; [left|right]; vm_compute; discriminate.
  - reflexivity.
  - reflexivity.
  - vm_compute; discriminate.
  - vm_compute; discriminate.
  - vm_compute; reflexivity.
  - exact Ha'.
  - exact Hb'.
Defined.

(** Two regions that do not overlap vertically share a row when a third
    region overlaps both: the row is then read from left to right, and the
    lower region comes first when it starts further left. *)
Lemma bridged_regions_share_a_row :
  let found := [region_at 50 0 10 10; region_at 100 5 10 100; region_at 0 20 10 10] in
  page_rows found
    = [[(0, region_at 50 0 10 10); (1, region_at 100 5 10 100); (2, region_at 0 20 10 10)]] /\
  _determine_reading_order found = [2; 0; 1].
Proof. split; vm_compute; reflexivity. Qed.

End ReadingOrder.

(** ** Structured documents *)

Section Structure.
Import Py Structuring Spec.

Lemma key_values_distinct (text : str) :
  length (_extract_key_values text) = distinct_keys text.
Proof.
  unfold distinct_keys. rewrite <- (length_map fst (_extract_key_values text)).
  apply Permutation_length, NoDup_Permutation.
  - rewrite extract_key_values_pairs. apply fold_pairs_NoDup. constructor.
  - apply NoDup_nodup.
  - intro k. rewrite nodup_In, extract_key_values_pairs, fold_pairs_keys.
    simpl. intuition.
Qed.

(** The metadata of every document that [structure] returns counts the
    regions and tables of the input and the distinct keys of its text. *)
Lemma structure_metadata_counts (str_of_content : content -> str)
    (ocr : ocr_result) (layout : layout_result) (tr : table_result)
    (d : StructuredDocument) :
  structure str_of_content ocr layout tr = Ok d ->
  num_regions (metadata d) = length (regions layout) /\
  num_tables (metadata d) = match tr with Some ts => length ts | None => 0 end /\
  num_tables (metadata d) = length (tables d) /\
  num_key_values (metadata d) = length (key_values d) /\
  num_key_values (metadata d) = distinct_keys (full_text ocr).
Proof.
  unfold structure, bind.
  destruct (match map _ _ with [] => _ | _ => _ end) as [bs|e]; [|discriminate].
  intro H. injection H as <-. cbn.
  repeat split; try reflexivity.
  - now destruct tr.
  - apply key_values_distinct.
Qed.

(** [structure] returns a document when the layout has a region, and when
    there is no token. *)
Lemma structure_returns (str_of_content : content -> str)
    (ocr : ocr_result) (layout : layout_result) (tr : table_result) :
  regions layout <> [] \/ blocks ocr = [] ->
  exists d, structure str_of_content ocr layout tr = Ok d.
Proof.
  intro H. unfold structure, bind.
  destruct (regions layout) as [|r rs] eqn:R.
  - destruct H as [H|H]; [contradiction|]. rewrite H. cbn. eexists. reflexivity.
  - cbn. eexists. reflexivity.
Qed.

Lemma structure_metadata_counts_witness :
  exists d,
    structure (fun _ => []) two_line_tokens one_region None = Ok d /\
    num_regions (metadata d) = 1 /\ num_tables (metadata d) = 0 /\
    num_key_values (metadata d) = 2.
Proof.
  eexists. split; [vm_compute; reflexivity|].
  match goal with
  | |- context [metadata ?d] =>
      destruct (structure_metadata_counts (fun _ => []) two_line_tokens one_region None d)
        as (H1 & H2 & _ & _ & H5); [vm_compute; reflexivity|]
  end.
  rewrite H1, H2, H5. repeat split.
Defined.

Lemma structure_returns_witness :
  exists d, structure (fun _ => []) two_line_tokens one_region None = Ok d.
Proof.
  apply (structure_returns (fun _ => []) two_line_tokens one_region None).
  left. discriminate.
Defined.

(** C8 on an input without regions whose tokens lie on two lines: the
    fallback [_blocks_from_ocr] closes the first line and asks each text of
    the line for its confidence; [structure] raises [AttributeError] and
    returns no document. *)
Theorem C8_structure_raises_without_regions (str_of_content : content -> str) :
  _blocks_from_ocr (blocks two_line_tokens) = Raise (AttributeError (py "get")) /\
  structure str_of_content two_line_tokens no_regions None
    = Raise (AttributeError (py "get")).
Proof. split; vm_compute; reflexivity. Qed.

End Structure.

(** ** Header names *)

Section CleanHeaders.
Import Py TableAlignment Spec.

Lemma py_inj (a b : string) : py a = py b -> a = b.
Proof.
  revert b; induction a as [|x a IH]; intros [|y b] H; try discriminate; [reflexivity|].
  simpl in H. injection H as Hx Hab. f_equal; [|now apply IH].
  unfold ch in Hx. now rewrite <- (ascii_N_embedding x), <- (ascii_N_embedding y), Hx.
Qed.

Lemma str_of_nat_inj (n m : nat) : str_of_nat n = str_of_nat m -> n = m.
Proof.
  unfold str_of_nat. intro H. apply py_inj in H.
  assert (E : Some (Nat.to_uint n) = Some (Nat.to_uint m))
    by (rewrite <- !NilEmpty.usu; now rewrite H).
  injection E as E. rewrite <- (Unsigned.of_to n), <- (Unsigned.of_to m). now rewrite E.
Qed.

Lemma string_of_uint_digits (u : Decimal.uint) :
  Forall (fun c => is_digit c = true) (py (NilEmpty.string_of_uint u)).
Proof. induction u; simpl; constructor; auto. Qed.

Lemma lower_digits (w : str) :
  Forall (fun c => is_digit c = true) w -> lower w = w.
Proof.
  induction 1 as [|c w Hc _ IH]; [reflexivity|]. simpl. rewrite IH. f_equal.
  unfold lower_char, is_upper, is_digit, in_range in *.
  apply andb_true_iff in Hc as [H1 H2]. apply N.leb_le in H2.
  destruct (N.leb_spec 65 c); [lia|reflexivity].
Qed.

Lemma candidate_inj (original : str) (u v : nat) :
  lower (candidate original u) = lower (candidate original v) -> u = v.
Proof.
  unfold lower. destruct u as [|u], v as [|v]; cbn [candidate]; intro H.
  - reflexivity.
  - apply (f_equal (@length N)) in H. rewrite !length_map, !length_app in H.
    simpl in H. lia.
  - apply (f_equal (@length N)) in H. rewrite !length_map, !length_app in H.
    simpl in H. lia.
  - rewrite !map_app in H. apply app_inv_head in H. simpl in H. injection H as H.
    fold (lower (str_of_nat (S u))) in H. fold (lower (str_of_nat (S v))) in H.
    rewrite !lower_digits in H by apply string_of_uint_digits.
    now apply str_of_nat_inj.
Qed.

Lemma mem_In (w : str) (l : list str) : mem w l = true <-> In w l.
Proof.
  unfold mem. rewrite existsb_exists. split.
  - intros (x & Hx & E). apply str_eqb_eq in E. now subst.
  - intro H. exists w. split; [exact H|apply str_eqb_refl].
Qed.

Lemma NoDup_map_inj {X Y} (f : X -> Y) (l : list X) :
  (forall x y, f x = f y -> x = y) -> NoDup l -> NoDup (map f l).
Proof.
  intros Inj. induction 1 as [|x l Hx _ IH]; simpl; constructor; [|exact IH].
  intro H. apply in_map_iff in H as (y & E & Hy). apply Inj in E. now subst.
Qed.

(** Not all of the first [length seen + 1] candidates are in [seen]. *)
Lemma candidates_exhaust (seen : list str) (original : str) :
  (forall u, u < length seen -> mem (lower (candidate original u)) seen = true) ->
  mem (lower (candidate original (length seen))) seen = false.
Proof.
  intro H. destruct (mem (lower (candidate original (length seen))) seen) eqn:M;
    [|reflexivity].
  exfalso.
  assert (L : length (map (fun u => lower (candidate original u)) (seq 0 (S (length seen))))
              <= length seen).
  { apply NoDup_incl_length.
    - apply NoDup_map_inj; [apply candidate_inj|apply seq_NoDup].
    - intros w Hw. apply in_map_iff in Hw as (u & <- & Hu). apply in_seq in Hu.
      apply mem_In. destruct (Nat.eq_dec u (length seen)) as [->|N]; [exact M|].
      apply H. lia. }
  rewrite length_map, length_seq in L. lia.
Qed.

(** The bounded loop [dedup] is the [while] loop of [_clean_headers]: with
    the fuel [length seen] it runs the loop to its end. *)
Lemma dedup_runs (seen : list str) (original : str) (fuel t : nat) :
  fuel + t = length seen ->
  (forall u, u < t -> mem (lower (candidate original u)) seen = true) ->
  unique_name seen original (S t) (candidate original t)
              (dedup fuel seen original (S t) (candidate original t)).
Proof.
  revert t; induction fuel as [|fuel IH]; intros t E H.
  - cbn [dedup]. apply unique_done.
    replace t with (length seen) in * by lia. now apply candidates_exhaust.
  - cbn [dedup]. destruct (mem (lower (candidate original t)) seen) eqn:M.
    + apply unique_step; [exact M|].
      change (original ++ py "_" ++ str_of_nat (S t)) with (candidate original (S t)).
      apply IH; [lia|].
      intros u Hu. destruct (Nat.eq_dec u t) as [->|N]; [exact M|]. apply H. lia.
    + now apply unique_done.
Qed.

Lemma dedup_is_the_loop (seen : list str) (original : str) :
  unique_name seen original 1 original (dedup (length seen) seen original 1 original).
Proof.
  apply (dedup_runs seen original (length seen) 0); [lia|]. intros u Hu. lia.
Qed.

End CleanHeaders.

(** ** More on table alignment *)

Section AlignMore.
Import Py TableAlignment Spec.

Lemma unique_name_result (seen : list str) (original : str) (counter : nat)
    (clean r : str) :
  unique_name seen original counter clean r ->
  mem (lower r) seen = false /\
  (r = clean \/ exists k, r = original ++ py "_" ++ str_of_nat k).
Proof.
  induction 1 as [counter clean H|counter clean r H _ [IH1 IH2]].
  - split; [exact H|now left].
  - split; [exact IH1|]. right. destruct IH2 as [->|IH2]; [now exists counter|exact IH2].
Qed.

Lemma clean_header_nonempty (i : nat) (header : str) : clean_header i header <> [].
Proof.
  unfold clean_header.
  destruct (Re.re_sub _ _ (Re.re_sub _ _ (strip header))); discriminate.
Qed.

Lemma clean_headers_from_spec (hs : list str) (i : nat) (seen : list str) :
  NoDup (map lower (clean_headers_from i seen hs)) /\
  (forall h, In h (clean_headers_from i seen hs) -> ~ In (lower h) seen) /\
  Forall (fun h => h <> []) (clean_headers_from i seen hs).
Proof.
  revert i seen; induction hs as [|header hs IH]; intros i seen.
  - simpl. split; [constructor|]. split; [intros ? []|constructor].
  - cbn [clean_headers_from].
    set (original := clean_header i header).
    set (clean := dedup (length seen) seen original 1 original).
    assert (U : unique_name seen original 1 original
                  (dedup (length seen) seen original 1 original)).
    { apply (dedup_runs seen original (length seen) 0); [lia|]. intros u Hu. lia. }
    destruct (unique_name_result _ _ _ _ _ U) as [F Sh].
    fold clean in F, Sh.
    destruct (IH (S i) (lower clean :: seen)) as (ND & Fresh & NE).
    split; [|split].
    + cbn [map]. constructor; [|exact ND].
      intro H. apply in_map_iff in H as (h & E & Hh).
      apply (Fresh h Hh). left. now symmetry.
    + intros h [<-|Hh].
      * intro H. apply mem_In in H. congruence.
      * intro H. apply (Fresh h Hh). now right.
    + constructor; [|exact NE].
      destruct Sh as [->|(k & ->)].
      * apply clean_header_nonempty.
      * intro H. apply app_eq_nil in H as [H _]. revert H. apply clean_header_nonempty.
Qed.

(** [align], field by field. *)
Lemma align_fields (matrix : list (list str)) (has_header : bool) :
  align matrix has_header =
    Ok {| headers := _clean_headers (raw_headers matrix has_header);
          rows := rows_values (_detect_column_types (data_rows matrix has_header))
                              (data_rows matrix has_header);
          column_types := _detect_column_types (data_rows matrix has_header);
          validation_errors :=
            rows_errors (_detect_column_types (data_rows matrix has_header)) 0
                        (data_rows matrix has_header);
          normalized := true |}.
Proof.
  destruct matrix as [|r0 m].
  - destruct has_header; reflexivity.
  - unfold align, data_rows, raw_headers, _parse_and_validate.
    rewrite normalize_columns_pad. cbn [map].
    destruct has_header; cbn [tl hd]; rewrite parse_rows_eq; reflexivity.
Qed.

Lemma data_rows_input (matrix : list (list str)) (has_header : bool) :
  data_rows matrix has_header = map (pad (max_len matrix)) (input_rows matrix has_header).
Proof.
  unfold data_rows, input_rows. rewrite normalize_columns_pad.
  destruct has_header; [|reflexivity]. destruct matrix; reflexivity.
Qed.

Lemma raw_headers_length (matrix : list (list str)) (has_header : bool) :
  matrix <> [] -> length (raw_headers matrix has_header) = max_len matrix.
Proof.
  intro NE. destruct matrix as [|r0 m]; [contradiction|].
  unfold raw_headers. rewrite normalize_columns_pad. cbn [map hd].
  destruct has_header; rewrite length_map, ?length_seq;
    apply pad_length, max_len_ge; now left.
Qed.

(** The headers of an aligned table are never empty and pairwise distinct,
    also when letter case is ignored; there is one per column of the
    widest row. *)
Theorem align_headers_unique (matrix : list (list str)) (has_header : bool) :
  exists t,
    align matrix has_header = Ok t /\
    NoDup (map lower (headers t)) /\
    NoDup (headers t) /\
    Forall (fun h => h <> []) (headers t) /\
    length (headers t) = match matrix with [] => 0 | _ => max_len matrix end.
Proof.
  eexists. split; [apply align_fields|]. cbn [headers].
  destruct (clean_headers_from_spec (raw_headers matrix has_header) 0 []) as (ND & _ & NE).
  fold (_clean_headers (raw_headers matrix has_header)) in ND, NE.
  split; [exact ND|]. split; [eapply NoDup_map_inv; exact ND|]. split; [exact NE|].
  unfold _clean_headers. rewrite clean_headers_from_length.
  destruct matrix as [|r0 m]; [now destruct has_header|].
  apply raw_headers_length. discriminate.
Qed.

Lemma max_len_uniform (m : list (list str)) (n : nat) :
  m <> [] -> (forall r, In r m -> length r = n) -> max_len m = n.
Proof.
  intros NE H. destruct (max_len_attained m NE) as (r & Hr & <-). now apply H.
Qed.

Lemma pad_full (n : nat) (r : list str) : n <= length r -> pad n r = r.
Proof.
  intro H. unfold pad. replace (n - length r) with 0 by lia. apply app_nil_r.
Qed.

(** [_normalize_columns] leaves a matrix whose rows have one length as it
    is, and normalizing twice is normalizing once. *)
Theorem normalize_columns_idempotent (m : list (list str)) :
  ((forall r r', In r m -> In r' m -> length r = length r') -> _normalize_columns m = m) /\
  _normalize_columns (_normalize_columns m) = _normalize_columns m.
Proof.
  assert (U : forall m', (forall r r', In r m' -> In r' m' -> length r = length r') ->
                         _normalize_columns m' = m').
  { intros m' H. rewrite normalize_columns_pad.
    transitivity (map (fun r : list (list N) => r) m'); [|apply map_id].
    apply map_ext_in. intros r Hr.
    apply pad_full. destruct (max_len_attained m') as (w & Hw & <-).
    - intros ->. contradiction.
    - rewrite (H r w Hr Hw). lia. }
  split; [apply U|]. apply U. intros r r' Hr Hr'.
  now rewrite (normalize_columns_length m r Hr), (normalize_columns_length m r' Hr').
Qed.

Lemma normalize_columns_idempotent_witness :
  _normalize_columns [[py "a"; py "b"]; [py "c"; py "d"]] = [[py "a"; py "b"]; [py "c"; py "d"]].
Proof.
  apply (proj1 (normalize_columns_idempotent [[py "a"; py "b"]; [py "c"; py "d"]])).
  intros r r' [<-|[<-|[]]] [<-|[<-|[]]]; reflexivity.
Defined.

Lemma detect_column_types_length (rs : list (list str)) :
  length (_detect_column_types rs) = length (hd [] rs).
Proof.
  destruct rs as [|r0 rs]; [reflexivity|].
  unfold _detect_column_types. now rewrite length_map, length_seq.
Qed.

(** The table has one column type per header as soon as it has a data
    row; without data rows (a matrix that is only its header row) it has
    headers and no column type. *)
Theorem align_column_types_length (matrix : list (list str)) (has_header : bool) :
  exists t,
    align matrix has_header = Ok t /\
    length (rows t) = length (input_rows matrix has_header) /\
    length (column_types t) =
      match input_rows matrix has_header with
      | [] => 0
      | _ => length (headers t)
      end.
Proof.
  eexists. split; [apply align_fields|]. cbn [rows column_types headers].
  rewrite data_rows_input. unfold rows_values. rewrite !length_map.
  split; [reflexivity|].
  rewrite detect_column_types_length.
  destruct (input_rows matrix has_header) as [|r rs] eqn:E; [reflexivity|].
  cbn [map hd]. unfold _clean_headers. rewrite clean_headers_from_length.
  assert (NE : matrix <> []) by (intros ->; destruct has_header; discriminate).
  rewrite (raw_headers_length _ _ NE). apply pad_length, max_len_ge.
  unfold input_rows in E. destruct has_header.
  - destruct matrix as [|r0 m]; [discriminate|]. simpl in E. subst m. right. now left.
  - subst matrix. now left.
Qed.

Lemma in_rows_errors (cts : list coltype) (rs : list (list str)) (e : validation_error) :
  In e (rows_errors cts 0 rs) ->
  exists v, cell rs (row e) (col e) = Some v /\ In e (cell_errors cts (row e) (col e) v).
Proof.
  unfold rows_errors, row_errors. intro H.
  apply in_flat_map in H as ([r line] & Hr & H). cbn [fst snd] in H.
  apply in_flat_map in H as ([c v] & Hc & H). cbn [fst snd] in H.
  apply in_enumerate_from in Hr as [_ Hr]. apply in_enumerate_from in Hc as [_ Hc].
  rewrite Nat.sub_0_r in Hr, Hc.
  assert (E : row e = r /\ col e = c).
  { unfold cell_errors in H.
    destruct (_parse_value _ _) as [|[]]; try contradiction.
    destruct H as [<-|[]]. now split. }
  destruct E as [-> ->]. exists v. split; [|exact H].
  unfold cell. now rewrite Hr.
Qed.

(** Every validation error points at a cell of the output: its row and
    column are within the rows and the headers, the cell holds the error's
    text as a string, the text is not empty, and the expected type is the
    type of the column, one of currency, percentage and number (a text or
    date column never has an error). *)
Theorem align_errors_point_at_cells (matrix : list (list str)) (has_header : bool) :
  exists t,
    align matrix has_header = Ok t /\
    forall e, In e (validation_errors t) ->
      row e < length (rows t) /\
      col e < length (headers t) /\
      cell (rows t) (row e) (col e) = Some (VStr (value e)) /\
      value e <> [] /\
      expected_type e = nth (col e) (column_types t) Text /\
      numeric_type (expected_type e).
Proof.
  eexists. split; [apply align_fields|].
  cbn [rows headers column_types validation_errors]. intros e He.
  apply in_rows_errors in He as (v & Hv & He).
  set (cts := _detect_column_types (data_rows matrix has_header)) in *.
  assert (Hrow : exists line, nth_error (data_rows matrix has_header) (row e) = Some line /\
                              nth_error line (col e) = Some v).
  { unfold cell in Hv. destruct (nth_error _ (row e)) as [line|]; [|discriminate]. eauto. }
  destruct Hrow as (line & Hl & Hc).
  assert (NE : matrix <> []).
  { intros ->. unfold data_rows in Hl. destruct has_header, (row e); discriminate. }
  split; [|split; [|split]].
  - unfold rows_values. rewrite length_map. apply nth_error_Some. congruence.
  - unfold _clean_headers. rewrite clean_headers_from_length, (raw_headers_length _ _ NE).
    rewrite <- (normalize_columns_length matrix line).
    + apply nth_error_Some. congruence.
    + eapply data_rows_incl, nth_error_In. exact Hl.
  - rewrite rows_values_cell, Hv. cbn [option_map]. f_equal.
    unfold cell_value, cell_errors in *.
    destruct (_parse_value (strip v) _) as [p|[conv text| |]]; try contradiction.
    destruct He as [<-|[]]. reflexivity.
  - unfold cell_errors in He.
    destruct (_parse_value (strip v) (nth (col e) cts Text)) as [p|[conv text| |]] eqn:P;
      try contradiction.
    destruct He as [<-|[]]. cbn [value expected_type col].
    split; [|split; [reflexivity|]].
    + intro E. rewrite E in P. discriminate.
    + unfold numeric_type. unfold _parse_value in P.
      destruct (strip v); [discriminate|].
      destruct (nth (col e) cts Text); try discriminate; tauto.
Qed.

(** A cell that is empty or white space comes back as [None] whatever the
    type of its column, and so does every cell that padding adds to a short
    row; neither has a validation error. *)
Theorem align_blank_cells_are_none (matrix : list (list str)) (has_header : bool) :
  exists t,
    align matrix has_header = Ok t /\
    (forall r c v, cell (data_rows matrix has_header) r c = Some v -> strip v = [] ->
       cell (rows t) r c = Some VNone /\ errors_at t r c = []) /\
    (forall r c line, nth_error (input_rows matrix has_header) r = Some line ->
       length line <= c -> c < max_len matrix ->
       cell (rows t) r c = Some VNone /\ errors_at t r c = []).
Proof.
  eexists. split; [apply align_fields|]. cbn [rows].
  assert (B : forall r c v, cell (data_rows matrix has_header) r c = Some v -> strip v = [] ->
     cell (rows_values (_detect_column_types (data_rows matrix has_header))
                       (data_rows matrix has_header)) r c = Some VNone /\
     filter (at_cell r c)
            (rows_errors (_detect_column_types (data_rows matrix has_header)) 0
                         (data_rows matrix has_header)) = []).
  { intros r c v Hv E.
    rewrite rows_values_cell, rows_errors_filter, Hv.
    change (r <? 0) with false. cbv iota. rewrite Nat.sub_0_r, Hv.
    unfold cell_value, cell_errors. cbn [option_map]. rewrite E.
    unfold _parse_value. now split. }
  split; [exact B|].
  intros r c line Hl Hc Hm. apply (B r c []); [|reflexivity].
  unfold cell. rewrite data_rows_input, nth_error_map, Hl. cbn [option_map].
  unfold pad. rewrite nth_error_app2 by exact Hc.
  apply nth_error_repeat. lia.
Qed.

Lemma align_blank_cells_are_none_witness :
  exists t,
    align [[py "a"; py "b"]; [py "1"]] true = Ok t /\ cell (rows t) 0 1 = Some VNone.
Proof.
  destruct (align_blank_cells_are_none [[py "a"; py "b"]; [py "1"]] true) as (t & E & _ & H).
  exists t. split; [exact E|].
  apply (H 0 1 [py "1"]); [reflexivity|simpl; lia|vm_compute; lia].
Defined.

End AlignMore.

(** ** Records of an aligned table *)

Section RecordsFacts.
Import Py TableAlignment Structuring Records Spec.

Lemma dict_set_fresh (k : str) (v : pyval) (d : list (str * pyval)) :
  ~ In k (map fst d) -> dict_set k v d = d ++ [(k, v)].
Proof.
  induction d as [|[k0 w] d IH]; simpl; intro H; [reflexivity|].
  destruct (str_eqb k0 k) eqn:E.
  - apply str_eqb_eq in E. exfalso. apply H. now left.
  - rewrite IH; [reflexivity|]. intro Hin. apply H. now right.
Qed.

Lemma NoDup_firstn_skipn {X} (l : list X) (k : nat) (x : X) :
  NoDup l -> nth_error l k = Some x -> ~ In x (firstn k l).
Proof.
  intros ND Hk Hin. apply In_nth_error in Hin as (j & Hj).
  assert (Lj : j < k).
  { assert (j < length (firstn k l)) by (apply nth_error_Some; congruence).
    rewrite length_firstn in H. lia. }
  rewrite nth_error_firstn in Hj. rewrite (proj2 (Nat.ltb_lt j k) Lj) in Hj.
  assert (j = k); [|lia].
  apply (proj1 (NoDup_nth_error l) ND); [apply nth_error_Some; congruence|congruence].
Qed.

Lemma skipn_nth {X} (l : list X) (k : nat) (x : X) :
  nth_error l k = Some x -> skipn k l = x :: skipn (S k) l.
Proof.
  revert k; induction l as [|a l IH]; intros [|k] H; try discriminate.
  - now injection H as ->.
  - cbn [skipn]. now apply IH.
Qed.

Lemma firstn_nth {X} (l : list X) (k : nat) (x : X) :
  nth_error l k = Some x -> firstn (S k) l = firstn k l ++ [x].
Proof.
  revert k; induction l as [|a l IH]; intros [|k] H; try discriminate.
  - now injection H as ->.
  - cbn [firstn app]. f_equal. now apply IH.
Qed.

Lemma record_fold (hs : list str) (r : list pyval) (k : nat) (acc : list (str * pyval)) :
  NoDup hs -> k + length r <= length hs ->
  (forall key, In key (map fst acc) -> In key (firstn k hs)) ->
  fold_left (fun record iv => dict_set (record_key hs (fst iv)) (snd iv) record)
            (enumerate_from k r) acc
  = acc ++ combine (skipn k hs) r.
Proof.
  intro ND. revert k acc; induction r as [|v r IH]; intros k acc L K.
  - simpl. destruct (skipn k hs); now rewrite app_nil_r.
  - cbn [enumerate_from fold_left fst snd]. cbn [length] in L.
    destruct (nth_error hs k) as [h|] eqn:Hk; [|apply nth_error_None in Hk; lia].
    unfold record_key at 2. rewrite Hk.
    rewrite dict_set_fresh.
    + rewrite IH; [|lia|].
      * rewrite <- app_assoc. f_equal. now rewrite (skipn_nth _ _ _ Hk).
      * intros key Hin. rewrite map_app, in_app_iff in Hin. cbn in Hin.
        rewrite (firstn_nth _ _ _ Hk), in_app_iff. cbn.
        destruct Hin as [Hin|[<-|[]]]; auto.
    + intro Hin. apply K in Hin. revert Hin. now apply NoDup_firstn_skipn.
Qed.

Lemma record_of_combine (hs : list str) (r : list pyval) :
  NoDup hs -> length r <= length hs -> record_of hs r = combine hs r.
Proof.
  intros ND L. unfold record_of, enumerate.
  rewrite record_fold; [reflexivity|exact ND|simpl; lia|intros ? []].
Qed.

Lemma dict_get_combine (hs : list str) (r : list pyval) (j : nat) (h : str) (v : pyval) :
  NoDup hs -> nth_error hs j = Some h -> nth_error r j = Some v ->
  dict_get h (combine hs r) = Some v.
Proof.
  intro ND. revert r j; induction ND as [|h0 hs Hn ND IH]; intros r j Hh Hv.
  - destruct j; discriminate.
  - destruct r as [|v0 r]; [destruct j; discriminate|].
    destruct j as [|j]; cbn in Hh, Hv |- *.
    + injection Hh as ->. injection Hv as ->. now rewrite str_eqb_refl.
    + destruct (str_eqb h0 h) eqn:E.
      * apply str_eqb_eq in E. subst. exfalso. apply Hn. eapply nth_error_In. exact Hh.
      * eapply IH; eassumption.
Qed.

Lemma align_rows_width (matrix : list (list str)) (has_header : bool) (r : list pyval) :
  In r (rows_values (_detect_column_types (data_rows matrix has_header))
                    (data_rows matrix has_header)) ->
  length r = length (_clean_headers (raw_headers matrix has_header)).
Proof.
  intro Hr. unfold rows_values in Hr. apply in_map_iff in Hr as (line & <- & Hl).
  rewrite row_values_length. unfold _clean_headers. rewrite clean_headers_from_length.
  assert (NE : matrix <> []).
  { intros ->. unfold data_rows in Hl. destruct has_header; contradiction. }
  rewrite (raw_headers_length _ _ NE).
  apply normalize_columns_length. eapply data_rows_incl. exact Hl.
Qed.

(** The records of an aligned table pair, row by row, each header with the
    cell of its column, in column order: looking a header up in a record
    gives the cell of that column, and no [column_i] key is ever needed. *)
Theorem to_records_pairs_headers_with_cells (matrix : list (list str)) (has_header : bool) :
  exists t,
    align matrix has_header = Ok t /\
    to_records t = map (combine (headers t)) (rows t) /\
    forall i j r h v,
      nth_error (rows t) i = Some r -> nth_error (headers t) j = Some h ->
      nth_error r j = Some v ->
      exists record,
        nth_error (to_records t) i = Some record /\
        length record = length (headers t) /\
        dict_get h record = Some v.
Proof.
  eexists. split; [apply align_fields|]. cbn [headers rows].
  destruct (clean_headers_from_spec (raw_headers matrix has_header) 0 []) as (ND & _ & _).
  fold (_clean_headers (raw_headers matrix has_header)) in ND.
  apply NoDup_map_inv in ND.
  assert (R : to_records
                {| headers := _clean_headers (raw_headers matrix has_header);
                   rows := rows_values (_detect_column_types (data_rows matrix has_header))
                                       (data_rows matrix has_header);
                   column_types := _detect_column_types (data_rows matrix has_header);
                   validation_errors :=
                     rows_errors (_detect_column_types (data_rows matrix has_header)) 0
                                 (data_rows matrix has_header);
                   normalized := true |}
              = map (combine (_clean_headers (raw_headers matrix has_header)))
                    (rows_values (_detect_column_types (data_rows matrix has_header))
                                 (data_rows matrix has_header))).
  { unfold to_records. cbn [headers rows]. apply map_ext_in. intros r Hr.
    apply record_of_combine; [exact ND|]. rewrite (align_rows_width _ _ _ Hr). lia. }
  split; [exact R|]. intros i j r h v Hr Hh Hv.
  exists (combine (_clean_headers (raw_headers matrix has_header)) r).
  split; [|split].
  - rewrite R, nth_error_map, Hr. reflexivity.
  - rewrite length_combine, (align_rows_width matrix has_header r); [lia|].
    eapply nth_error_In. exact Hr.
  - eapply dict_get_combine; eassumption.
Qed.

Lemma to_records_pairs_headers_with_cells_witness :
  exists t record,
    align [[py "Item"; py "Price"]; [py "pen"; py "$2"]] true = Ok t /\
    nth_error (to_records t) 0 = Some record /\
    dict_get (py "Price") record = Some (VFloat (FFin (2 # 1))).
Proof.
  destruct (to_records_pairs_headers_with_cells
              [[py "Item"; py "Price"]; [py "pen"; py "$2"]] true) as (t & E & _ & H).
  assert (F : rows t = [[VStr (py "pen"); VFloat (FFin (2 # 1))]] /\
              headers t = [py "Item"; py "Price"]).
  { vm_compute in E. injection E as <-. split; reflexivity. }
  destruct F as [Fr Fh].
  destruct (H 0 1 [VStr (py "pen"); VFloat (FFin (2 # 1))] (py "Price")
              (VFloat (FFin (2 # 1)))) as (record & R & _ & G).
  - rewrite Fr. reflexivity.
  - rewrite Fh. reflexivity.
  - reflexivity.
  - exists t, record. split; [exact E|]. split; [exact R|exact G].
Defined.

Lemma align_errors_point_at_cells_witness :
  exists t e,
    align [[py "Amount"]; [py "$5"]; [py "$6"]; [py " 1-2 "]] true = Ok t /\
    validation_errors t = [e] /\
    cell (rows t) (row e) (col e) = Some (VStr (value e)).
Proof.
  destruct (align_errors_point_at_cells
              [[py "Amount"]; [py "$5"]; [py "$6"]; [py " 1-2 "]] true) as (t & E & H).
  assert (F : validation_errors t =
              [ {| row := 2; col := 0; value := py "1-2"; expected_type := Currency;
                   error := (ToFloat, py "1-2") |} ]).
  { vm_compute in E. injection E as <-. reflexivity. }
  exists t. eexists. split; [exact E|]. split; [exact F|].
  apply H. rewrite F. now left.
Defined.

End RecordsFacts.

(** ** The matrix of a table *)

Section Matrix.
Import Py Tables Spec.


Lemma set_at_ok {A} (l : list A) (i : nat) (v : A) :
  i < length l ->
  exists l',
    set_at l i v = Ok l' /\ length l' = length l /\
    nth_error l' i = Some v /\
    forall j, j <> i -> nth_error l' j = nth_error l j.
Proof.
  revert i; induction l as [|a l IH]; intros [|i] H; simpl in H; try lia.
  - eexists. split; [reflexivity|]. split; [reflexivity|]. split; [reflexivity|].
    intros [|j] N; [contradiction|reflexivity].
  - destruct (IH i) as (l' & E & L & Hi & Ho); [lia|].
    exists (a :: l'). cbn [set_at]. rewrite E. split; [reflexivity|].
    split; [simpl; now rewrite L|]. split; [exact Hi|].
    intros [|j] N; [reflexivity|]. apply Ho. lia.
Qed.

Lemma set_cell_ok (R C : nat) (m : list (list str)) (r c : nat) (v : str) :
  rectangular R C m -> r < R -> c < C ->
  exists m',
    set_cell m r c v = Ok m' /\ rectangular R C m' /\
    cell m' r c = Some v /\
    forall r' c', (r', c') <> (r, c) -> cell m' r' c' = cell m r' c'.
Proof.
  intros [L W] Hr Hc. unfold set_cell.
  destruct (nth_error m r) as [line|] eqn:E; [|apply nth_error_None in E; lia].
  assert (Wl : length line = C) by (apply W; eapply nth_error_In; exact E).
  destruct (set_at_ok line c v) as (line' & E1 & L1 & H1 & O1); [lia|].
  destruct (set_at_ok m r line') as (m' & E2 & L2 & H2 & O2); [lia|].
  exists m'. rewrite E1. cbn [bind]. split; [exact E2|]. split; [split|split].
  - congruence.
  - intros x Hx. apply In_nth_error in Hx as (j & Hj).
    destruct (Nat.eq_dec j r) as [->|N].
    + rewrite H2 in Hj. injection Hj as <-. congruence.
    + rewrite O2 in Hj by exact N. apply W. eapply nth_error_In. exact Hj.
  - unfold cell. now rewrite H2.
  - intros r' c' N. unfold cell. destruct (Nat.eq_dec r' r) as [->|Nr].
    + rewrite H2, E. apply O1. intros ->. now apply N.
    + now rewrite O2.
Qed.


Lemma blank_rectangular (R C : nat) : rectangular R C (repeat (repeat ([] : str) C) R).
Proof.
  split; [apply repeat_length|]. intros line H. apply repeat_spec in H. subst.
  apply repeat_length.
Qed.


Lemma py_range_one (a n : nat) :
  py_range a (Nat.min (a + 1) n) = if a <? n then [a] else [].
Proof.
  unfold py_range. destruct (Nat.ltb_spec a n).
  - replace (Nat.min (a + 1) n - a) with 1 by lia. reflexivity.
  - replace (Nat.min (a + 1) n - a) with 0 by lia. reflexivity.
Qed.

Lemma fill_cell_unit (R C : nat) (m : list (list str)) (c : TableCell) :
  row_span c = 1 -> col_span c = 1 ->
  fill_cell R C m c =
  if (row c <? R) && (col c <? C) then set_cell m (row c) (col c) (text c) else Ok m.
Proof.
  intros Hr Hc. unfold fill_cell. rewrite Hr, Hc, !py_range_one.
  destruct (row c <? R); [|reflexivity]. cbn [fold_result andb].
  destruct (col c <? C); cbn [fold_result bind]; [|reflexivity].
  rewrite !Nat.eqb_refl. cbn [andb].
  destruct (set_cell m (row c) (col c) (text c)); reflexivity.
Qed.

Lemma blank_cell (R C r c : nat) :
  r < R -> c < C -> cell (repeat (repeat ([] : str) C) R) r c = Some [].
Proof.
  intros Hr Hc. unfold cell. rewrite nth_error_repeat by exact Hr.
  now apply nth_error_repeat.
Qed.

Lemma fill_unit_cells (R C : nat) (cs : list TableCell) (m : list (list str)) :
  rectangular R C m ->
  (forall c, In c cs -> row_span c = 1 /\ col_span c = 1) ->
  NoDup (map position cs) ->
  exists m',
    fold_result (fill_cell R C) cs m = Ok m' /\ rectangular R C m' /\
    (forall c, In c cs -> row c < R -> col c < C ->
               cell m' (row c) (col c) = Some (text c)) /\
    (forall r k, ~ In (r, k) (map position cs) -> cell m' r k = cell m r k).
Proof.
  revert m; induction cs as [|c cs IH]; intros m Hm U ND.
  - exists m. split; [reflexivity|]. split; [exact Hm|]. split; [intros ? []|reflexivity].
  - cbn [map] in ND. inversion ND as [|? ? Nc ND']; subst.
    destruct (U c (or_introl eq_refl)) as [Ur Uc].
    assert (S1 : exists m1, fill_cell R C m c = Ok m1 /\ rectangular R C m1 /\
                   (row c < R -> col c < C -> cell m1 (row c) (col c) = Some (text c)) /\
                   (forall r k, (r, k) <> position c -> cell m1 r k = cell m r k)).
    { rewrite (fill_cell_unit R C m c Ur Uc).
      destruct (Nat.ltb_spec (row c) R) as [Lr|Lr];
        [destruct (Nat.ltb_spec (col c) C) as [Lc|Lc]|]; cbn [andb].
      - destruct (set_cell_ok R C m (row c) (col c) (text c) Hm Lr Lc)
          as (m1 & E & H1 & G & O). exists m1.
        split; [exact E|]. split; [exact H1|]. split; [intros _ _; exact G|exact O].
      - exists m. split; [reflexivity|]. split; [exact Hm|]. split; [lia|reflexivity].
      - exists m. split; [reflexivity|]. split; [exact Hm|]. split; [lia|reflexivity]. }
    destruct S1 as (m1 & E1 & H1 & G1 & O1).
    destruct (IH m1 H1) as (m' & E & H' & G & O).
    { intros c' Hc'. apply U. now right. }
    { exact ND'. }
    exists m'. cbn [fold_result]. rewrite E1. cbn [bind].
    split; [exact E|]. split; [exact H'|]. split.
    + intros c' [<-|Hc'] Lr Lc.
      * rewrite O by exact Nc. now apply G1.
      * now apply G.
    + intros r k N. cbn [map] in N. rewrite O by (intro; apply N; now right).
      apply O1. intro Eq. apply N. now left.
Qed.

Lemma to_matrix_cells (t : Table) :
  (forall c, In c (cells t) -> row_span c = 1 /\ col_span c = 1) ->
  NoDup (map position (cells t)) ->
  exists m,
    to_matrix t = Ok m /\ rectangular (num_rows t) (num_cols t) m /\
    (forall c, In c (cells t) -> row c < num_rows t -> col c < num_cols t ->
               cell m (row c) (col c) = Some (text c)) /\
    (forall r k, r < num_rows t -> k < num_cols t ->
                 ~ In (r, k) (map position (cells t)) -> cell m r k = Some []).
Proof.
  intros U ND.
  destruct (fill_unit_cells (num_rows t) (num_cols t) (cells t)
              (repeat (repeat [] (num_cols t)) (num_rows t))
              (blank_rectangular _ _) U ND) as (m & E & H & G & O).
  exists m. split; [exact E|]. split; [exact H|]. split; [exact G|].
  intros r k Hr Hk N. rewrite (O r k N). now apply blank_cell.
Qed.

(** For a table whose cells have spans 1 and pairwise distinct positions,
    the matrix holds the text of each cell at the cell's row and column,
    and the empty string wherever the table has no cell. *)
Theorem to_matrix_holds_cell_texts (t : Table) :
  (forall c, In c (cells t) -> row_span c = 1 /\ col_span c = 1) ->
  NoDup (map position (cells t)) ->
  exists m,
    to_matrix t = Ok m /\ rectangular (num_rows t) (num_cols t) m /\
    (forall c, In c (cells t) -> row c < num_rows t -> col c < num_cols t ->
               cell m (row c) (col c) = Some (text c)) /\
    (forall r k, r < num_rows t -> k < num_cols t ->
                 ~ In (r, k) (map position (cells t)) -> cell m r k = Some []).
Proof. exact (to_matrix_cells t). Qed.

End Matrix.

Section HeuristicTable.
Import Py Tables Spec.

(** The text that [_extract_heuristic] gives a cell. *)
Lemma recognised_cell (recognise : option (rect -> option str)) (c : TableCell) :
  let c' := match recognise with
            | Some image_to_string =>
                match image_to_string (bbox c) with
                | Some t => with_text c (strip t)
                | None => c
                end
            | None => c
            end in
  position c' = position c /\ row_span c' = row_span c /\ col_span c' = col_span c /\
  is_header c' = is_header c /\ bbox c' = bbox c.
Proof. cbv zeta. destruct recognise as [f|]; [destruct (f (bbox c))|]; now cbn. Qed.

Lemma extract_heuristic_shape (hl vl : list rect) (offset : Z * Z)
    (recognise : option (rect -> option str)) :
  2 <= distinct (map rect_y hl) -> 2 <= distinct (map rect_x vl) ->
  exists t,
    _extract_heuristic hl vl offset recognise = [t] /\
    map position (cells t)
      = list_prod (seq 0 (distinct (map rect_y hl) - 1))
                  (seq 0 (distinct (map rect_x vl) - 1)) /\
    (forall c, In c (cells t) -> row_span c = 1 /\ col_span c = 1) /\
    num_rows t = S (list_max (map row (cells t))) /\
    num_cols t = S (list_max (map col (cells t))).
Proof.
  intros Hh Hv.
  destruct (find_cells_grid hl vl Hh Hv) as [P F].
  remember (distinct (map rect_y hl) - 1) as R eqn:HR in *.
  remember (distinct (map rect_x vl) - 1) as C eqn:HC in *.
  set (g := fun c : TableCell =>
              match recognise with
              | Some image_to_string =>
                  match image_to_string (bbox c) with
                  | Some t => with_text c (strip t)
                  | None => c
                  end
              | None => c
              end).
  assert (hl <> []) by (intros ->; cbn in Hh; lia).
  assert (vl <> []) by (intros ->; cbn in Hv; lia).
  assert (E : exists t, _extract_heuristic hl vl offset recognise = [t] /\
                        cells t = map g (_find_cells hl vl) /\
                        num_rows t = S (list_max (map row (cells t))) /\
                        num_cols t = S (list_max (map col (cells t)))).
  { unfold _extract_heuristic.
    destruct hl as [|h0 hl']; [contradiction|]. destruct vl as [|v0 vl']; [contradiction|].
    destruct (_find_cells (h0 :: hl') (v0 :: vl')) as [|c0 cs0] eqn:FC.
    - exfalso. cbn in P. destruct R; [lia|]. destruct C; [lia|]. discriminate.
    - eexists. split; [reflexivity|]. cbn [cells num_rows num_cols].
      split; [|split; reflexivity].
      unfold g. destruct recognise as [f|]; [reflexivity|]. now rewrite map_id. }
  destruct E as (t & E & Ec & Er & Ek).
  exists t. split; [exact E|]. split; [|split; [|split; assumption]].
  - rewrite Ec, map_map, <- P. apply map_ext. intro c. apply (recognised_cell recognise c).
  - intros c Hc. rewrite Ec in Hc. apply in_map_iff in Hc as (c0 & <- & Hc0).
    rewrite Forall_forall in F. destruct (F c0 Hc0) as (S1 & S2 & _).
    destruct (recognised_cell recognise c0) as (_ & G2 & G3 & _).
    fold (g c0) in G2, G3. now rewrite G2, G3.
Qed.

(** The matrix of the table that the heuristic extractor returns holds, at
    every row and column of the grid, the text of the cell there; handed
    to [align] with its first row as header, it gives one header per
    column of the grid and one row per remaining grid row, each as wide as
    the headers. *)
Theorem heuristic_table_aligns (hl vl : list rect) (offset : Z * Z)
    (recognise : option (rect -> option str)) :
  2 <= distinct (map rect_y hl) -> 2 <= distinct (map rect_x vl) ->
  exists t m a,
    _extract_heuristic hl vl offset recognise = [t] /\
    to_matrix t = Ok m /\
    rectangular (num_rows t) (num_cols t) m /\
    (forall c, In c (cells t) -> cell m (row c) (col c) = Some (text c)) /\
    TableAlignment.align m true = Ok a /\
    length (TableAlignment.headers a) = num_cols t /\
    length (TableAlignment.rows a) = num_rows t - 1 /\
    (forall r, In r (TableAlignment.rows a) -> length r = num_cols t).
Proof.
  intros Hh Hv.
  destruct (extract_heuristic_shape hl vl offset recognise Hh Hv)
    as (t & E & P & U & Er & Ek).
  assert (ND : NoDup (map position (cells t))).
  { rewrite P. apply NoDup_list_prod; apply seq_NoDup. }
  destruct (to_matrix_cells t U ND) as (m & Em & Rm & G & _).
  assert (Bound : forall c, In c (cells t) -> row c < num_rows t /\ col c < num_cols t).
  { intros c Hc. rewrite Er, Ek. split.
    - assert (F : Forall (fun k => k <= list_max (map row (cells t))) (map row (cells t)))
        by now apply list_max_le.
      rewrite Forall_forall in F. specialize (F (row c) (in_map row _ _ Hc)). lia.
    - assert (F : Forall (fun k => k <= list_max (map col (cells t))) (map col (cells t)))
        by now apply list_max_le.
      rewrite Forall_forall in F. specialize (F (col c) (in_map col _ _ Hc)). lia. }
  assert (NE : m <> []).
  { destruct Rm as [L _]. rewrite Er in L. intros ->. discriminate. }
  assert (M : TableAlignment.max_len m = num_cols t).
  { apply max_len_uniform; [exact NE|apply Rm]. }
  exists t, m. eexists. split; [exact E|]. split; [exact Em|]. split; [exact Rm|].
  split; [intros c Hc; destruct (Bound c Hc); now apply G|].
  split; [apply align_fields|].
  cbn [TableAlignment.headers TableAlignment.rows].
  split; [|split].
  - unfold TableAlignment._clean_headers.
    now rewrite clean_headers_from_length, (raw_headers_length _ _ NE).
  - unfold rows_values. rewrite length_map, data_rows_input, length_map.
    unfold input_rows. destruct Rm as [L _]. destruct m; [contradiction|].
    cbn in L |- *. lia.
  - intros r Hr. rewrite (align_rows_width _ _ _ Hr).
    unfold TableAlignment._clean_headers.
    now rewrite clean_headers_from_length, (raw_headers_length _ _ NE).
Qed.

Lemma heuristic_table_aligns_witness :
  exists t m a,
    _extract_heuristic [(0, 0, 10, 1); (0, 10, 10, 1); (0, 30, 10, 1)]%Z
                       [(0, 0, 1, 30); (20, 0, 1, 30)]%Z (5, 5)%Z None = [t] /\
    to_matrix t = Ok m /\ TableAlignment.align m true = Ok a /\
    length (TableAlignment.rows a) = num_rows t - 1.
Proof.
  destruct (heuristic_table_aligns [(0, 0, 10, 1); (0, 10, 10, 1); (0, 30, 10, 1)]%Z
              [(0, 0, 1, 30); (20, 0, 1, 30)]%Z (5, 5)%Z None)
    as (t & m & a & E & Em & _ & _ & Ea & _ & L & _).
  - vm_compute. lia.
  - vm_compute. lia.
  - exists t, m, a. repeat split; assumption.
Defined.

Lemma to_matrix_holds_cell_texts_witness :
  exists m,
    to_matrix {| t_bbox := (0, 0, 20, 10)%Z;
                 cells := [make_cell 0 0 0 10 0 10; with_text (make_cell 0 1 10 20 0 10) (py "x")];
                 num_rows := 1; num_cols := 2; t_confidence := 6 # 10;
                 has_header := true |} = Ok m /\
    cell m 0 1 = Some (py "x").
Proof.
  destruct (to_matrix_holds_cell_texts
              {| t_bbox := (0, 0, 20, 10)%Z;
                 cells := [make_cell 0 0 0 10 0 10; with_text (make_cell 0 1 10 20 0 10) (py "x")];
                 num_rows := 1; num_cols := 2; t_confidence := 6 # 10;
                 has_header := true |}) as (m & E & _ & G & _).
  - intros c [<-|[<-|[]]]; split; reflexivity.
  - cbn. constructor; [intros [H|[]]; discriminate|]. constructor; [intros []|constructor].
  - exists m. split; [exact E|].
    apply (G (with_text (make_cell 0 1 10 20 0 10) (py "x"))); cbn; auto.
Defined.

End HeuristicTable.

(** ** The fallback from tokens to blocks *)

Section BlocksFromOcr.
Import Py Structuring Spec.

Lemma insert_sorted_le {X} (le : X -> X -> bool) (x : X) (l : list X) :
  (forall a b, le a b = false -> le b a = true) ->
  (forall a b c, le a b = true -> le b c = true -> le a c = true) ->
  StronglySorted (fun a b => le a b = true) l ->
  StronglySorted (fun a b => le a b = true) (insert_sorted le x l).
Proof.
  intros Tot Tr. induction 1 as [|y l Hs IH Hy]; simpl.
  - constructor; constructor.
  - destruct (le y x) eqn:E.
    + constructor; [exact IH|].
      eapply Permutation_Forall; [symmetry; apply insert_sorted_perm|].
      constructor; assumption.
    + constructor; [now constructor|].
      constructor; [now apply Tot|].
      eapply Forall_impl; [|exact Hy]. cbv beta. intros z Hz.
      eapply Tr; [apply Tot; exact E|exact Hz].
Qed.

Lemma sorted_le_sorted {X} (le : X -> X -> bool) (l : list X) :
  (forall a b, le a b = false -> le b a = true) ->
  (forall a b c, le a b = true -> le b c = true -> le a c = true) ->
  StronglySorted (fun a b => le a b = true) (sorted le l).
Proof.
  intros Tot Tr. unfold sorted.
  assert (G : forall acc, StronglySorted (fun a b => le a b = true) acc ->
                StronglySorted (fun a b => le a b = true)
                  (fold_left (fun acc x => insert_sorted le x acc) l acc)).
  { induction l as [|x l IH]; intros acc H; [exact H|].
    cbn [fold_left]. apply IH. now apply insert_sorted_le. }
  apply G. constructor.
Qed.

Lemma key_yx_le (a b : ocr_block) :
  key_yx a b = true <->
  (token_top a < token_top b)%Z \/
  (token_top a = token_top b /\ (Tables.rect_x (ob_bbox a) <= Tables.rect_x (ob_bbox b))%Z).
Proof.
  unfold key_yx, token_top, Tables.rect_y, Tables.rect_x.
  destruct (ob_bbox a) as [[[ax ay] aw] ah], (ob_bbox b) as [[[bx by_] bw] bh].
  rewrite orb_true_iff, andb_true_iff, Z.ltb_lt, Z.eqb_eq, Z.leb_le. tauto.
Qed.

Lemma key_yx_total (a b : ocr_block) : key_yx a b = false -> key_yx b a = true.
Proof.
  intro H. apply key_yx_le.
  assert (N : ~ (key_yx a b = true)) by congruence.
  rewrite key_yx_le in N. lia.
Qed.

Lemma key_yx_trans (a b c : ocr_block) :
  key_yx a b = true -> key_yx b c = true -> key_yx a c = true.
Proof. rewrite !key_yx_le. lia. Qed.

Lemma sorted_tokens_tops (bs : list ocr_block) :
  StronglySorted (fun a b => (token_top a <= token_top b)%Z) (sorted key_yx bs).
Proof.
  pose proof (sorted_le_sorted key_yx bs key_yx_total key_yx_trans) as S.
  induction S as [|a l _ IH F]; constructor; [exact IH|].
  eapply Forall_impl; [|exact F]. cbv beta. intros b H. apply key_yx_le in H. lia.
Qed.

(** The loop once the line has a token whose top is not negative. *)
Lemma ocr_loop_anchored (l : list ocr_block) (cy : Z) (txt : list str)
    (lb : list ContentBlock) :
  (0 <= cy)%Z -> txt <> [] -> (forall b, In b l -> (cy <= token_top b)%Z) ->
  ((forall b, In b l -> (token_top b - cy <= 20)%Z) ->
   ocr_loop (cy, txt, lb) l = Ok (cy, txt ++ map ob_text l, lb)) /\
  ((exists b, In b l /\ (20 < token_top b - cy)%Z) ->
   ocr_loop (cy, txt, lb) l = Raise (AttributeError (py "get"))).
Proof.
  revert txt; induction l as [|b l IH]; intros txt Hcy Ht Hl.
  - split; [intros _; cbn; now rewrite app_nil_r|intros (b & [] & _)].
  - assert (Hb : (cy <= token_top b)%Z) by (apply Hl; now left).
    destruct (IH (txt ++ [ob_text b]) Hcy) as [IHok IHraise].
    { intro E. apply app_eq_nil in E as [_ E]. discriminate. }
    { intros b' Hb'. apply Hl. now right. }
    cbn [ocr_loop]. unfold ocr_step. fold (token_top b).
    replace (cy <? 0)%Z with false by (symmetry; apply Z.ltb_ge; lia).
    destruct (Z.ltb_spec 20 (Z.abs (token_top b - cy))) as [Far|Near].
    + destruct txt as [|t0 txt']; [contradiction|]. cbn [bind]. split.
      * intro H. specialize (H b (or_introl eq_refl)). lia.
      * reflexivity.
    + cbn [bind]. split.
      * intro H. rewrite IHok by (intros b' Hb'; apply H; now right).
        cbn [map]. now rewrite <- app_assoc.
      * intros (b' & [<-|Hb'] & Hfar); [lia|]. apply IHraise. now exists b'.
Qed.

(** The loop while every token so far has a negative top. *)
Lemma ocr_loop_floating (l : list ocr_block) (cy : Z) (txt : list str)
    (lb : list ContentBlock) :
  (cy < 0)%Z -> StronglySorted (fun a b => (token_top a <= token_top b)%Z) l ->
  (one_line l ->
   exists cy', ocr_loop (cy, txt, lb) l = Ok (cy', txt ++ map ob_text l, lb)) /\
  (two_lines l -> ocr_loop (cy, txt, lb) l = Raise (AttributeError (py "get"))).
Proof.
  intros Hcy S. revert cy txt Hcy. induction S as [|b l S IH F]; intros cy txt Hcy.
  - split; [intros _; exists cy; cbn; now rewrite app_nil_r|].
    intros (b & b' & [] & _).
  - rewrite Forall_forall in F.
    cbn [ocr_loop]. unfold ocr_step. fold (token_top b).
    replace (cy <? 0)%Z with true by (symmetry; apply Z.ltb_lt; lia).
    rewrite Z.sub_diag. cbn [Z.abs Z.ltb Z.compare bind].
    destruct (Z_lt_ge_dec (token_top b) 0) as [Neg|Pos].
    + destruct (IH (token_top b) (txt ++ [ob_text b]) Neg) as [IHok IHraise]. split.
      * intro O. destruct IHok as (cy' & E).
        { intros x x' Hx Hx'. apply O; now right. }
        exists cy'. rewrite E. cbn [map]. now rewrite <- app_assoc.
      * intros (x & x' & Hx & Hx' & P & Far). apply IHraise.
        destruct Hx as [<-|Hx]; [lia|].
        destruct Hx' as [<-|Hx']; [specialize (F x Hx); lia|].
        now exists x, x'.
    + destruct (ocr_loop_anchored l (token_top b) (txt ++ [ob_text b]) lb) as [Aok Araise].
      { lia. }
      { intro E. apply app_eq_nil in E as [_ E]. discriminate. }
      { exact F. }
      split.
      * intro O. exists (token_top b). rewrite Aok.
        -- cbn [map]. now rewrite <- app_assoc.
        -- intros x Hx. apply O; [now left|now right|lia].
      * intros (x & x' & Hx & Hx' & P & Far). apply Araise.
        assert (Hxb : (token_top b <= token_top x)%Z).
        { destruct Hx as [<-|Hx]; [lia|now apply F]. }
        destruct Hx' as [<-|Hx']; [lia|]. exists x'. split; [exact Hx'|lia].
Qed.

Lemma one_line_perm (l l' : list ocr_block) :
  Permutation l l' -> one_line l -> one_line l'.
Proof.
  intros P O b b' Hb Hb'. apply O; eapply Permutation_in; try eassumption;
    now symmetry.
Qed.

Lemma two_lines_perm (l l' : list ocr_block) :
  Permutation l l' -> two_lines l -> two_lines l'.
Proof.
  intros P (b & b' & Hb & Hb' & H). exists b, b'.
  repeat split; try apply H; eapply Permutation_in; eassumption.
Qed.

Lemma blocks_from_ocr_cases (bs : list ocr_block) :
  (one_line bs ->
   _blocks_from_ocr bs =
     Ok (match bs with
         | [] => []
         | _ => [line_block (join (py " ") (map ob_text (sorted key_yx bs)))]
         end)) /\
  (two_lines bs -> _blocks_from_ocr bs = Raise (AttributeError (py "get"))).
Proof.
  pose proof (sorted_perm key_yx bs) as P.
  destruct (ocr_loop_floating (sorted key_yx bs) (-1)%Z [] [])
    as [Hok Hraise]; [lia|apply sorted_tokens_tops|].
  unfold _blocks_from_ocr. split.
  - intro O. destruct Hok as (cy' & E); [eapply one_line_perm; [symmetry|]; eassumption|].
    rewrite E. cbn [bind app].
    destruct bs as [|b bs'].
    + reflexivity.
    + destruct (sorted key_yx (b :: bs')) as [|s l] eqn:Es.
      * apply Permutation_length in P. discriminate.
      * cbn [map]. reflexivity.
  - intro T. rewrite Hraise; [reflexivity|].
    eapply two_lines_perm; [symmetry|]; eassumption.
Qed.

(** [_blocks_from_ocr] returns when the tokens lie on one line, and then
    returns one block (none without tokens) whose text joins the tokens in
    the order of (top, left); it never returns two blocks.  As soon as one
    token lies more than 20 pixels below a token with a non-negative top it
    raises [AttributeError]. *)
Theorem blocks_from_ocr_one_line (bs : list ocr_block) :
  (one_line bs ->
   _blocks_from_ocr bs =
     Ok (match bs with
         | [] => []
         | _ => [line_block (join (py " ") (map ob_text (sorted key_yx bs)))]
         end)) /\
  (two_lines bs -> _blocks_from_ocr bs = Raise (AttributeError (py "get"))).
Proof. exact (blocks_from_ocr_cases bs). Qed.

Lemma line_dichotomy (bs : list ocr_block) : one_line bs \/ two_lines bs.
Proof.
  assert (D : forall b b' : ocr_block,
             {(0 <= token_top b)%Z -> (token_top b' - token_top b <= 20)%Z} +
             {~ ((0 <= token_top b)%Z -> (token_top b' - token_top b <= 20)%Z)}).
  { intros b b'. destruct (Z_lt_ge_dec (token_top b) 0); [left; lia|].
    destruct (Z_le_gt_dec (token_top b' - token_top b) 20); [left; lia|right; lia]. }
  destruct (Forall_Exists_dec
              (fun b => Forall (fun b' => (0 <= token_top b)%Z ->
                                          (token_top b' - token_top b <= 20)%Z) bs)
              (fun b => Forall_dec _ (D b) bs) bs) as [A|E].
  - left. intros b b' Hb Hb' P. rewrite Forall_forall in A.
    specialize (A b Hb). rewrite Forall_forall in A. now apply A.
  - right. apply Exists_exists in E as (b & Hb & N).
    apply neg_Forall_Exists_neg in N; [|apply D].
    apply Exists_exists in N as (b' & Hb' & N').
    exists b, b'. repeat split; try assumption; lia.
Qed.

Lemma structure_two_lines_raises (str_of_content : content -> str)
    (ocr : ocr_result) (layout : layout_result) (tr : table_result) :
  regions layout = [] -> two_lines (blocks ocr) ->
  structure str_of_content ocr layout tr = Raise (AttributeError (py "get")).
Proof.
  intros E T. unfold structure. rewrite E. cbn [enumerate enumerate_from map].
  destruct (blocks ocr) as [|b bs] eqn:B.
  - destruct T as (x & _ & [] & _).
  - destruct (blocks_from_ocr_cases (b :: bs)) as [_ Hraise].
    rewrite (Hraise T). reflexivity.
Qed.

(** [structure] returns a document exactly when the layout has a region or
    the tokens lie on one line; otherwise the fallback raises
    [AttributeError] and no document is returned. *)
Theorem structure_returns_iff (str_of_content : content -> str)
    (ocr : ocr_result) (layout : layout_result) (tr : table_result) :
  ((exists d, structure str_of_content ocr layout tr = Ok d) <->
   (regions layout <> [] \/ one_line (blocks ocr))) /\
  ((forall d, structure str_of_content ocr layout tr <> Ok d) ->
   structure str_of_content ocr layout tr = Raise (AttributeError (py "get"))).
Proof.
  assert (R : regions layout <> [] \/ one_line (blocks ocr) ->
              exists d, structure str_of_content ocr layout tr = Ok d).
  { intro H. unfold structure.
    destruct (regions layout) as [|r rs] eqn:E.
    - destruct H as [H|H]; [contradiction|].
      cbn [enumerate enumerate_from map].
      destruct (blocks ocr) as [|b bs] eqn:B; [cbn; eexists; reflexivity|].
      destruct (blocks_from_ocr_cases (b :: bs)) as [Hok _].
      rewrite (Hok H). cbn [bind]. eexists. reflexivity.
    - cbn. eexists. reflexivity. }
  pose proof (structure_two_lines_raises str_of_content ocr layout tr) as F.
  split; [split; [|exact R]|].
  - intros (d & Hd).
    destruct (regions layout) as [|r rs] eqn:E; [|left; discriminate].
    destruct (line_dichotomy (blocks ocr)) as [O|T]; [now right|].
    rewrite (F eq_refl T) in Hd. discriminate.
  - intro N.
    destruct (regions layout) as [|r rs] eqn:E.
    + destruct (line_dichotomy (blocks ocr)) as [O|T].
      * destruct (R (or_intror O)) as (d & Hd). now destruct (N d).
      * now apply F.
    + destruct R as (d & Hd); [left; discriminate|]. now destruct (N d).
Qed.

(** Without regions, the document that [structure] returns for tokens on one
    line has a single block, which holds the tokens' texts in the order of
    (top, left) and has no position. *)
Theorem structure_without_regions (str_of_content : content -> str)
    (ocr : ocr_result) (layout : layout_result) (tr : table_result)
    (d : StructuredDocument) :
  regions layout = [] -> blocks ocr <> [] ->
  structure str_of_content ocr layout tr = Ok d ->
  doc_blocks d =
    [line_block (join (py " ") (map ob_text (sorted key_yx (blocks ocr))))].
Proof.
  intros E B H.
  destruct (line_dichotomy (blocks ocr)) as [O|T].
  - revert H. unfold structure. rewrite E. cbn [enumerate enumerate_from map].
    destruct (blocks_from_ocr_cases (blocks ocr)) as [Hok _].
    destruct (blocks ocr) as [|b bs] eqn:Eb; [contradiction|].
    rewrite (Hok O). cbn [bind]. intro H. injection H as <-. reflexivity.
  - rewrite (structure_two_lines_raises str_of_content ocr layout tr E T) in H.
    discriminate.
Qed.

End BlocksFromOcr.

(** ** The blocks of the regions *)

Section RegionBlocks.
Import Py Structuring Spec.

Variable str_of_content : content -> str.

Lemma map_region_type_title (t : str) :
  match _map_region_type t with B_TITLE => true | _ => false end
  = str_eqb t (py "title").
Proof.
  unfold _map_region_type.
  destruct (str_eqb t (py "text")) eqn:E1.
  { apply str_eqb_eq in E1. subst. reflexivity. }
  destruct (str_eqb t (py "title")); [reflexivity|].
  repeat match goal with
         | |- context [str_eqb t ?s] => destruct (str_eqb t s)
         end; reflexivity.
Qed.

Lemma map_region_type_not_heading (t : str) : _map_region_type t <> B_HEADING.
Proof.
  unfold _map_region_type.
  repeat match goal with
         | |- context [str_eqb t ?s] => destruct (str_eqb t s)
         end; discriminate.
Qed.

Lemma region_block_is_title (obs : list ocr_block) (tr : table_result) (i : nat) (r : region) :
  is_type B_TITLE (region_block obs tr i r) = is_title_region r.
Proof.
  unfold is_title_region. rewrite <- map_region_type_title.
  unfold is_type, region_block. cbn [type].
  destruct (_map_region_type (r_type r)); reflexivity.
Qed.

Lemma region_block_no_heading (obs : list ocr_block) (tr : table_result) (i : nat) (r : region) :
  is_type B_HEADING (region_block obs tr i r) = false.
Proof.
  unfold is_type, region_block. cbn [type].
  pose proof (map_region_type_not_heading (r_type r)).
  destruct (_map_region_type (r_type r)); try reflexivity. contradiction.
Qed.

Lemma title_block_text (obs : list ocr_block) (tr : table_result) (i : nat) (r : region) :
  is_title_region r = true ->
  content_text str_of_content (region_block obs tr i r)
  = _get_text_in_region obs (r_bbox r).
Proof.
  unfold is_title_region. rewrite <- map_region_type_title.
  unfold content_text, region_block. cbn [block_content].
  destruct (_map_region_type (r_type r)); try discriminate. reflexivity.
Qed.

Lemma extract_title_regions (obs : list ocr_block) (tr : table_result)
    (rs : list region) (k : nat) :
  _extract_title str_of_content
    (map (fun ir => region_block obs tr (fst ir) (snd ir)) (enumerate_from k rs))
  = option_map (fun r => _get_text_in_region obs (r_bbox r)) (find is_title_region rs).
Proof.
  unfold _extract_title.
  assert (H : forall k,
     find (is_type B_HEADING)
       (map (fun ir => region_block obs tr (fst ir) (snd ir)) (enumerate_from k rs)) = None).
  { induction rs as [|r rs IH]; intro j; [reflexivity|].
    cbn [enumerate_from map find fst snd]. rewrite region_block_no_heading. apply IH. }
  rewrite H. clear H. revert k.
  induction rs as [|r rs IH]; intro k; [reflexivity|].
  cbn [enumerate_from map find fst snd]. rewrite region_block_is_title.
  destruct (is_title_region r) eqn:E.
  - cbn [option_map]. now rewrite title_block_text.
  - apply IH.
Qed.

(** With regions, the title of the document is the text of the tokens whose
    centre lies in the first region labelled a title, and there is no title
    when no region is labelled so: a region never yields a heading. *)
Theorem structure_title_is_first_title_region
    (ocr : ocr_result) (layout : layout_result) (tr : table_result)
    (d : StructuredDocument) :
  regions layout <> [] ->
  structure str_of_content ocr layout tr = Ok d ->
  title d = option_map (fun r => _get_text_in_region (blocks ocr) (r_bbox r))
                       (find is_title_region (regions layout)).
Proof.
  intros N. unfold structure, enumerate.
  destruct (regions layout) as [|r rs] eqn:E; [contradiction|].
  rewrite <- (extract_title_regions (blocks ocr) tr (r :: rs) 0).
  cbn [enumerate_from map bind]. intro H. injection H as <-. reflexivity.
Qed.

(** With regions, the document has one block for each region, in the order
    of the regions: the block of the region at index [i] has order [i], the
    region's box and confidence, page 1 and the type that the region's label
    maps to. *)
Theorem structure_blocks_follow_regions
    (ocr : ocr_result) (layout : layout_result) (tr : table_result)
    (d : StructuredDocument) :
  regions layout <> [] ->
  structure str_of_content ocr layout tr = Ok d ->
  length (doc_blocks d) = length (regions layout) /\
  forall i r, nth_error (regions layout) i = Some r ->
    exists b, nth_error (doc_blocks d) i = Some b /\
              order b = i /\ bbox b = Some (r_bbox r) /\ page b = 1%Z /\
              confidence b = r_confidence r /\
              type b = _map_region_type (r_type r).
Proof.
  intros N. unfold structure, enumerate.
  assert (G : forall rs k i r, nth_error rs i = Some r ->
    nth_error (map (fun ir => region_block (blocks ocr) tr (fst ir) (snd ir))
                   (enumerate_from k rs)) i
    = Some (region_block (blocks ocr) tr (k + i) r)).
  { induction rs as [|r0 rs IH]; intros k [|i] r H; try discriminate.
    - injection H as <-. cbn. now rewrite Nat.add_0_r.
    - cbn [enumerate_from map nth_error]. rewrite (IH (S k) i r H).
      do 2 f_equal. lia. }
  destruct (regions layout) as [|r0 rs] eqn:E; [contradiction|].
  remember (r0 :: rs) as all eqn:Eall.
  destruct (map _ (enumerate_from 0 all)) as [|b0 bs0] eqn:M.
  { subst all. discriminate. }
  rewrite <- M. cbn [bind]. intro H. injection H as <-. cbn [doc_blocks]. split.
  - now rewrite length_map, enumerate_from_length.
  - intros i r Hi. rewrite (G all 0 i r Hi). eexists. split; [reflexivity|].
    cbn. repeat split.
Qed.

End RegionBlocks.

(** ** The table of a region *)

Section FindTable.
Import Py Structuring Spec.

Lemma half_covered (overlap table_area : Z) :
  (0 < table_area)%Z ->
  Qle_bool (zq overlap / zq table_area) (1 # 2) = true <-> (2 * overlap <= table_area)%Z.
Proof.
  intro P. rewrite Qle_bool_iff.
  destruct table_area as [|p|p]; try lia.
  unfold Qle, Qdiv, Qmult, Qinv, zq, inject_Z. cbn [Qnum Qden].
  rewrite Pos.mul_1_l. lia.
Qed.

Lemma covers_test (region_bbox : rect) (t : table) :
  (let '(rx, ry, rw, rh) := region_bbox in
   let '(tx, ty, tw, th) := t_bbox t in
   let overlap_x := Z.max 0 (Z.min (rx + rw) (tx + tw) - Z.max rx tx) in
   let overlap_y := Z.max 0 (Z.min (ry + rh) (ty + th) - Z.max ry ty) in
   (0 <? tw * th)%Z
   && negb (Qle_bool (zq (overlap_x * overlap_y) / zq (tw * th)) (1 # 2))) = true
  <-> covers region_bbox t.
Proof.
  unfold covers, area, overlap_width, overlap_height, Tables.rect_w, Tables.rect_h.
  destruct region_bbox as [[[rx ry] rw] rh], (t_bbox t) as [[[tx ty] tw] th].
  rewrite andb_true_iff, Z.ltb_lt, negb_true_iff.
  split.
  - intros [P H]. split; [exact P|].
    destruct (Z_lt_ge_dec (tw * th)
                (2 * (Z.max 0 (Z.min (rx + rw) (tx + tw) - Z.max rx tx)
                      * Z.max 0 (Z.min (ry + rh) (ty + th) - Z.max ry ty)))) as [L|G];
      [exact L|].
    apply Z.ge_le in G. apply (half_covered _ _ P) in G. congruence.
  - intros [P L]. split; [exact P|].
    destruct (Qle_bool _ _) eqn:E; [|reflexivity].
    apply (half_covered _ _ P) in E. lia.
Qed.

Lemma find_table_step (t : table) (ts : list table) (region_bbox : rect) :
  (covers region_bbox t -> find_table (t :: ts) region_bbox = Some t) /\
  (~ covers region_bbox t -> find_table (t :: ts) region_bbox = find_table ts region_bbox).
Proof.
  pose proof (covers_test region_bbox t) as C.
  cbn [find_table].
  destruct region_bbox as [[[rx ry] rw] rh], (t_bbox t) as [[[tx ty] tw] th].
  cbv zeta in *.
  destruct ((0 <? tw * th)%Z && _) eqn:E.
  - split; [reflexivity|]. intro N. destruct N. now apply C.
  - split; [|reflexivity]. intro H. apply C in H. discriminate.
Qed.

Lemma covers_dec (region_bbox : rect) (t : table) :
  covers region_bbox t \/ ~ covers region_bbox t.
Proof. unfold covers. lia. Qed.

Lemma find_table_cases (ts : list table) (region_bbox : rect) :
  match _find_table_for_region ts region_bbox with
  | Some t => exists before after,
                ts = before ++ t :: after /\ covers region_bbox t /\
                forall t', In t' before -> ~ covers region_bbox t'
  | None => forall t, In t ts -> ~ covers region_bbox t
  end.
Proof.
  unfold _find_table_for_region. induction ts as [|t ts IH].
  - intros t [].
  - destruct (find_table_step t ts region_bbox) as [Hc Hn].
    destruct (covers_dec region_bbox t) as [C|N].
    + rewrite (Hc C). exists [], ts.
      split; [reflexivity|]. split; [exact C|]. intros t' [].
    + rewrite (Hn N). destruct (find_table ts region_bbox) as [t0|].
      * destruct IH as (before & after & -> & C & B).
        exists (t :: before), after.
        split; [reflexivity|]. split; [exact C|].
        intros t' [<-|H]; [exact N|now apply B].
      * intros t' [<-|H]; [exact N|now apply IH].
Qed.


Lemma inside_covers (region_bbox : rect) (t : table) :
  inside (t_bbox t) region_bbox ->
  (0 < Tables.rect_w (t_bbox t))%Z -> (0 < Tables.rect_h (t_bbox t))%Z ->
  covers region_bbox t.
Proof.
  unfold inside, covers, area, overlap_width, overlap_height,
    Tables.rect_x, Tables.rect_y, Tables.rect_w, Tables.rect_h.
  destruct region_bbox as [[[rx ry] rw] rh], (t_bbox t) as [[[tx ty] tw] th].
  intros (X & Y & XW & YH) W H.
  replace (Z.max 0 (Z.min (rx + rw) (tx + tw) - Z.max rx tx)) with tw by lia.
  replace (Z.max 0 (Z.min (ry + rh) (ty + th) - Z.max ry ty)) with th by lia.
  nia.
Qed.

(** A region that contains a table of positive width and height gets a
    table, and the one it gets is covered by the region. *)
Theorem region_with_a_table_inside (ts : list table) (region_bbox : rect) (t : table) :
  In t ts -> inside (t_bbox t) region_bbox ->
  (0 < Tables.rect_w (t_bbox t))%Z -> (0 < Tables.rect_h (t_bbox t))%Z ->
  exists t', _find_table_for_region ts region_bbox = Some t' /\
             In t' ts /\ covers region_bbox t'.
Proof.
  intros Hin I W H.
  pose proof (find_table_cases ts region_bbox) as F.
  destruct (_find_table_for_region ts region_bbox) as [t'|].
  - destruct F as (before & after & -> & C & _).
    exists t'. split; [reflexivity|]. split; [|exact C].
    apply in_or_app. right. now left.
  - destruct (F t Hin). now apply inside_covers.
Qed.

Lemma region_with_a_table_inside_witness :
  exists t', _find_table_for_region
               [ {| t_bbox := (0, 0, 10, 10)%Z; matrix := [] |};
                 {| t_bbox := (100, 100, 10, 10)%Z; matrix := [[py "a"]] |} ]
               (95, 95, 30, 30)%Z = Some t' /\
             In t' [ {| t_bbox := (0, 0, 10, 10)%Z; matrix := [] |};
                     {| t_bbox := (100, 100, 10, 10)%Z; matrix := [[py "a"]] |} ] /\
             covers (95, 95, 30, 30)%Z t'.
Proof.
  apply (region_with_a_table_inside _ _
           {| t_bbox := (100, 100, 10, 10)%Z; matrix := [[py "a"]] |}).
  - right. left. reflexivity.
  - unfold inside. cbn. lia.
  - cbn. lia.
  - cbn. lia.
Defined.

End FindTable.

(** ** The keys of the key-value pairs *)

Section Keys.
Import Py Structuring Spec.

Lemma lower_char_not_upper (c : char) : is_upper (lower_char c) = false.
Proof.
  unfold lower_char. destruct (is_upper c) eqn:E; [|exact E].
  unfold is_upper, in_range in *.
  apply andb_true_iff in E as [A B]. apply N.leb_le in A, B.
  apply andb_false_iff. right. apply N.leb_gt. lia.
Qed.

Lemma replace_space_snake (s : str) :
  Forall (fun c => is_upper c = false) s ->
  Forall (fun c => is_upper c = false /\ c <> ch " ") (replace (ch " ") (py "_") s).
Proof.
  induction 1 as [|c s Hc Hs IH]; [constructor|].
  cbn [replace]. destruct (char_eqb c (ch " ")) eqn:E.
  - cbn [py app]. constructor; [split; [reflexivity|discriminate]|exact IH].
  - constructor; [|exact IH]. split; [exact Hc|].
    intros ->. vm_compute in E. discriminate.
Qed.

Lemma line_key_snake (line : str) (k : str) (v : pyval) :
  line_key_value line = Some (k, v) ->
  Forall (fun c => is_upper c = false /\ c <> ch " ") k.
Proof.
  unfold line_key_value.
  destruct (first_match key_value_patterns (strip line)) as [[g1 g2]|]; [|discriminate].
  intro H. injection H as <- _.
  apply replace_space_snake. unfold lower. apply Forall_forall.
  intros c Hc. apply in_map_iff in Hc as (c0 & <- & _). apply lower_char_not_upper.
Qed.

(** The keys that [_extract_key_values] returns are pairwise different, and
    none holds a space or an upper-case ASCII letter. *)
Theorem extracted_keys_are_snake_case (text : str) :
  NoDup (map fst (_extract_key_values text)) /\
  forall key, In key (map fst (_extract_key_values text)) ->
    Forall (fun c => is_upper c = false /\ c <> ch " ") key.
Proof.
  rewrite extract_key_values_pairs. split.
  - apply fold_pairs_NoDup. constructor.
  - intros key H. apply fold_pairs_keys in H as [H|[]].
    apply in_map_iff in H as ([k v] & <- & H). cbn [fst].
    unfold line_pairs in H. apply in_flat_map in H as (line & _ & H).
    destruct (line_key_value line) as [[k' v']|] eqn:E; [|destruct H].
    destruct H as [H|[]]. injection H as -> ->.
    eapply line_key_snake. exact E.
Qed.

End Keys.

Section StructureExamples.
Import Py Structuring Spec.

Lemma one_line_tokens_one_line : one_line (blocks one_line_tokens).
Proof.
  intros b b' Hb Hb' _. cbn in Hb, Hb'.
  destruct Hb as [<-|[<-|[]]], Hb' as [<-|[<-|[]]]; cbn; lia.
Qed.

Lemma blocks_from_ocr_one_line_witness :
  _blocks_from_ocr (blocks one_line_tokens) = Ok [line_block (py "Total: 5")].
Proof.
  destruct (blocks_from_ocr_one_line (blocks one_line_tokens)) as [H _].
  rewrite (H one_line_tokens_one_line). reflexivity.
Defined.

Lemma structure_returns_iff_witness :
  exists d, structure (fun _ => []) one_line_tokens no_regions None = Ok d.
Proof.
  destruct (structure_returns_iff (fun _ => []) one_line_tokens no_regions None)
    as [[_ H] _].
  apply H. right. exact one_line_tokens_one_line.
Defined.

Lemma structure_without_regions_witness :
  exists d, structure (fun _ => []) one_line_tokens no_regions None = Ok d /\
            doc_blocks d = [line_block (py "Total: 5")].
Proof.
  eexists. split; [vm_compute; reflexivity|].
  match goal with
  | |- doc_blocks ?d = _ =>
      rewrite (structure_without_regions (fun _ => []) one_line_tokens no_regions None d
                 eq_refl ltac:(discriminate) ltac:(vm_compute; reflexivity))
  end.
  reflexivity.
Defined.

Lemma structure_title_is_first_title_region_witness :
  exists d, structure (fun _ => []) one_line_tokens titled_page None = Ok d /\
            title d = Some (py "5 Total:").
Proof.
  eexists. split; [vm_compute; reflexivity|].
  match goal with
  | |- title ?d = _ =>
      rewrite (structure_title_is_first_title_region (fun _ => [])
                 one_line_tokens titled_page None d
                 ltac:(discriminate) ltac:(vm_compute; reflexivity))
  end.
  vm_compute. reflexivity.
Defined.

Lemma structure_blocks_follow_regions_witness :
  exists d, structure (fun _ => []) one_line_tokens titled_page None = Ok d /\
            length (doc_blocks d) = 2 /\
            exists b, nth_error (doc_blocks d) 1 = Some b /\ order b = 1 /\
                      type b = B_TITLE.
Proof.
  eexists. split; [vm_compute; reflexivity|].
  match goal with
  | |- length (doc_blocks ?d) = _ /\ _ =>
      destruct (structure_blocks_follow_regions (fun _ => [])
                  one_line_tokens titled_page None d
                  ltac:(discriminate) ltac:(vm_compute; reflexivity)) as [L B]
  end.
  split; [exact L|].
  destruct (B 1 _ eq_refl) as (b & Hb & Ho & _ & _ & _ & Ht).
  exists b. split; [exact Hb|]. split; [exact Ho|]. rewrite Ht. reflexivity.
Defined.

Lemma extracted_keys_are_snake_case_witness :
  Forall (fun c => is_upper c = false /\ c <> ch " ") (py "grand_total").
Proof.
  destruct (extracted_keys_are_snake_case (py "Grand Total: 5")) as [_ H].
  apply H. vm_compute. left. reflexivity.
Defined.

End StructureExamples.

(** ** Error correction *)

Section Corrections.
Import Py Re ErrorCorrection Spec.

Variable ratio : str -> str -> Q.
Variable iteration_order : list str.

Lemma take_prefix_app (w : str) :
  fst (take_prefix w) ++ snd (take_prefix w) = w.
Proof.
  induction w as [|c w IH]; [reflexivity|].
  cbn [take_prefix]. destruct (negb (is_alnum c)); [|reflexivity].
  destruct (take_prefix w) as [p rest]. cbn [fst snd] in *. cbn. now rewrite IH.
Qed.

Lemma take_suffix_app (w : str) :
  fst (take_suffix w) ++ snd (take_suffix w) = w.
Proof.
  unfold take_suffix. pose proof (take_prefix_app (rev w)) as H.
  destruct (take_prefix (rev w)) as [s rest]. cbn [fst snd] in *.
  rewrite <- rev_app_distr, H. apply rev_involutive.
Qed.

Lemma correct_word_unchanged (word : str) :
  snd (_correct_word ratio iteration_order word) = no_correction ->
  fst (_correct_word ratio iteration_order word) = word.
Proof.
  unfold _correct_word.
  destruct (lookup (lower word) word_corrections); [discriminate|].
  destruct (mem (lower word) domain_words); [reflexivity|].
  destruct (_looks_like_number word);
    [destruct (negb (str_eqb (_correct_number word) word)); [discriminate|]|];
    (destruct (_find_best_match ratio (lower word) iteration_order) as [[m score]|];
     [destruct (negb (Qle_bool score (8 # 10))); [discriminate|reflexivity]|reflexivity]).
Qed.

Lemma correct_one_records (word : str) (c : correction) :
  In c (snd (correct_one ratio iteration_order word)) ->
  original c <> corrected c /\ type c <> no_correction /\ original c <> [] /\
  _correct_word ratio iteration_order (original c) = (corrected c, type c) /\
  exists prefix suffix, word = prefix ++ original c ++ suffix /\
    fst (correct_one ratio iteration_order word) = prefix ++ corrected c ++ suffix.
Proof.
  unfold correct_one.
  pose proof (take_prefix_app word) as P.
  destruct (take_prefix word) as [prefix rest]. cbn [fst snd] in P.
  pose proof (take_suffix_app rest) as Sf.
  destruct (take_suffix rest) as [core suffix]. cbn [fst snd] in Sf.
  destruct core as [|c0 core']; [intros []|].
  pose proof (correct_word_unchanged (c0 :: core')) as U.
  destruct (_correct_word ratio iteration_order (c0 :: core')) as [w ty] eqn:E.
  cbn [fst snd] in *.
  destruct (str_eqb w (c0 :: core')) eqn:Eq; cbn [negb]; [intros []|].
  intros [<-|[]]. cbn [original corrected type].
  assert (N : c0 :: core' <> w).
  { intro H. rewrite <- H, str_eqb_refl in Eq. discriminate. }
  split; [exact N|]. split.
  { intro H. apply N. symmetry. now apply U. }
  split; [discriminate|]. split; [exact E|].
  exists prefix, suffix. split; [|reflexivity]. now rewrite Sf, P.
Qed.

Lemma correct_one_silent (word : str) :
  snd (correct_one ratio iteration_order word) = [] ->
  fst (correct_one ratio iteration_order word) = word.
Proof.
  unfold correct_one.
  pose proof (take_prefix_app word) as P.
  destruct (take_prefix word) as [prefix rest]. cbn [fst snd] in P.
  pose proof (take_suffix_app rest) as Sf.
  destruct (take_suffix rest) as [core suffix]. cbn [fst snd] in Sf.
  destruct core as [|c0 core'].
  - intros _. cbn [fst]. cbn [app] in Sf. now rewrite Sf.
  - destruct (_correct_word ratio iteration_order (c0 :: core')) as [w ty].
    cbn [fst snd].
    destruct (str_eqb w (c0 :: core')) eqn:Eq; cbn [negb]; [|discriminate].
    intros _. apply str_eqb_eq in Eq. subst w. now rewrite Sf.
Qed.

(** Every record in the list of corrections of [correct] changes its word,
    is never typed [no_correction], holds a non-empty word of the text
    without the punctuation around it, and pairs it with what
    [_correct_word] returns for it. *)
Theorem correct_records_are_changes (text : str) (c : correction) :
  In c (snd (correct ratio iteration_order text)) ->
  original c <> corrected c /\ type c <> no_correction /\ original c <> [] /\
  _correct_word ratio iteration_order (original c) = (corrected c, type c) /\
  exists word prefix suffix,
    In word (split_ws text) /\ word = prefix ++ original c ++ suffix.
Proof.
  unfold correct. cbn [snd]. intro H.
  apply in_flat_map in H as ([w cs] & Hw & Hc).
  apply in_map_iff in Hw as (word & E & Hword). cbn [snd] in Hc.
  assert (Hc' : In c (snd (correct_one ratio iteration_order word)))
    by (rewrite E; exact Hc).
  destruct (correct_one_records word c Hc') as (A & B & C & D & p & s & Hp & _).
  repeat (split; [assumption|]). now exists word, p, s.
Qed.

(** When [correct] records no correction, its text is the words of the input
    joined by single spaces and passed through [_fix_spacing]: no word was
    changed. *)
Theorem correct_without_records (text : str) :
  snd (correct ratio iteration_order text) = [] ->
  fst (correct ratio iteration_order text)
  = _fix_spacing (join (py " ") (split_ws text)).
Proof.
  unfold correct. cbn [fst snd]. intro H. do 2 f_equal.
  rewrite map_map.
  induction (split_ws text) as [|w ws IH]; [reflexivity|].
  cbn [map flat_map] in *. apply app_eq_nil in H as [H1 H2].
  rewrite (correct_one_silent w H1). f_equal. now apply IH.
Qed.

Lemma lookup_none (w : str) (d : list (str * str)) :
  Forall (fun k => str_eqb k w = false) (map fst d) -> lookup w d = None.
Proof.
  induction d as [|[k v] d IH]; [reflexivity|].
  cbn [map fst lookup]. intro H. inversion H as [|? ? Hk Hd]; subst.
  rewrite Hk. now apply IH.
Qed.

Lemma domain_mem_In (w : str) (l : list str) : mem w l = true <-> In w l.
Proof.
  unfold mem. rewrite existsb_exists. split.
  - intros (x & Hx & E). apply str_eqb_eq in E. now subst.
  - intro H. exists w. split; [exact H|apply str_eqb_refl].
Qed.

(** A word that is a domain word when lower-cased is returned as it is. *)
Theorem domain_words_are_kept (word : str) :
  In (lower word) domain_words ->
  _correct_word ratio iteration_order word = (word, no_correction).
Proof.
  intro H. unfold _correct_word.
  assert (L : lookup (lower word) word_corrections = None).
  { revert H. generalize (lower word) as w. intros w H.
    cbn in H.
    repeat (destruct H as [<-|H]; [vm_compute; reflexivity|]). destruct H. }
  rewrite L. apply domain_mem_In in H. now rewrite H.
Qed.

End Corrections.

Section NumberCorrection.
Import Py Re ErrorCorrection Spec.

Lemma lookup_char_values (c v : char) :
  lookup_char c number_corrections = Some v ->
  is_digit v = true /\ is_digit c = false /\ lookup_char v number_corrections = None.
Proof.
  unfold number_corrections. cbn [lookup_char].
  repeat match goal with
         | |- context [char_eqb ?k c] =>
             let E := fresh "E" in
             destruct (char_eqb k c) eqn:E;
             [apply N.eqb_eq in E; subst c; intro H; injection H as <-;
              vm_compute; repeat split; reflexivity|]
         end.
  discriminate.
Qed.

Lemma correct_char_fixed (c : char) :
  lookup_char (correct_char c) number_corrections = None.
Proof.
  unfold correct_char.
  destruct (lookup_char c number_corrections) as [v|] eqn:E; [|exact E].
  destruct (lookup_char_values c v E) as (_ & D & L). now rewrite D.
Qed.

Lemma correct_char_digit (c : char) : is_digit c = true -> correct_char c = c.
Proof.
  intro D. unfold correct_char.
  destruct (lookup_char c number_corrections); [now rewrite D|reflexivity].
Qed.

(** [_correct_number] keeps the length of the text and every digit of it,
    leaves no letter that it replaces, maps each such letter to a digit, and
    changes nothing when applied again. *)
Theorem correct_number_properties (text : str) :
  length (_correct_number text) = length text /\
  Forall (fun c => lookup_char c number_corrections = None) (_correct_number text) /\
  (forall i c, nth_error text i = Some c ->
     exists c', nth_error (_correct_number text) i = Some c' /\
       (is_digit c = true -> c' = c) /\
       (lookup_char c number_corrections = None -> c' = c) /\
       (lookup_char c number_corrections <> None -> is_digit c' = true)) /\
  _correct_number (_correct_number text) = _correct_number text.
Proof.
  change (_correct_number text) with (map correct_char text).
  change (_correct_number (map correct_char text))
    with (map correct_char (map correct_char text)).
  split; [apply length_map|]. split; [|split].
  - apply Forall_forall. intros c H. apply in_map_iff in H as (c0 & <- & _).
    apply correct_char_fixed.
  - intros i c H. exists (correct_char c). split; [now apply map_nth_error|].
    split; [apply correct_char_digit|]. split.
    + intro L. unfold correct_char. now rewrite L.
    + intro L. unfold correct_char.
      destruct (lookup_char c number_corrections) as [v|] eqn:E; [|contradiction].
      destruct (lookup_char_values c v E) as (Dv & Dc & _). now rewrite Dc.
  - rewrite map_map. apply map_ext. intro c.
    pose proof (correct_char_fixed c) as F. unfold correct_char at 1. now rewrite F.
Qed.

Lemma sub_class_filter (p : char -> bool) (w : str) :
  re_sub (Cls p) (fun _ => []) w = filter (fun c => negb (p c)) w.
Proof.
  unfold re_sub. induction w as [|c w IH]; [reflexivity|].
  cbn [sub_from filter]. unfold match_at. cbn [go].
  destruct (p c); cbn [negb].
  - replace (length (c :: w) - length w) with 1 by (cbn [length]; lia).
    cbn [app]. exact IH.
  - now rewrite IH.
Qed.

(** A text looks like a number exactly when at most three tenths of its
    characters are neither digits nor one of [OoIl|.,-$%]. *)
Theorem looks_like_number_iff (text : str) :
  _looks_like_number text = true <-> 10 * foreign text <= 3 * length text.
Proof.
  unfold _looks_like_number, foreign. rewrite sub_class_filter, Qle_bool_iff.
  unfold Qle, Qmult, inject_Z. cbn [Qnum Qden].
  rewrite Pos.mul_1_l.
  change (Z.pos 10) with 10%Z. lia.
Qed.

Lemma str_eqb_differs (P : char -> bool) (k w : str) :
  forallb P w = true -> existsb (fun c => negb (P c)) k = true -> str_eqb k w = false.
Proof.
  intros Hw Hk. destruct (str_eqb k w) eqn:E; [|reflexivity].
  apply str_eqb_eq in E. subst k.
  apply existsb_exists in Hk as (c & Hc & N).
  rewrite forallb_forall in Hw. rewrite (Hw c Hc) in N. discriminate.
Qed.

Lemma numeric_lower (c : char) :
  numeric_char c = true ->
  (is_digit (lower_char c) || one_of (py "oil|") (lower_char c)) = true.
Proof.
  unfold numeric_char, digit_look_alike, one_of, contains. cbn [py existsb].
  rewrite !orb_true_iff. unfold char_eqb. rewrite !N.eqb_eq.
  intros [D|[E|[E|[E|[E|[E|E]]]]]]; try discriminate; try (subst c; vm_compute; tauto).
  left. unfold lower_char.
  destruct (is_upper c) eqn:U; [|exact D].
  unfold is_digit, is_upper, in_range in *.
  apply andb_true_iff in D as [A B], U as [A' B'].
  apply N.leb_le in A, B, A', B'. lia.
Qed.

Lemma numeric_char_number_like (c : char) :
  numeric_char c = true -> number_like c = true.
Proof.
  unfold numeric_char, number_like, digit_look_alike, one_of, contains.
  cbn [py existsb]. rewrite !orb_true_iff. tauto.
Qed.

Lemma look_alike_changes (c : char) :
  digit_look_alike c = true -> correct_char c <> c /\ is_digit (correct_char c) = true.
Proof.
  unfold digit_look_alike, one_of, contains. cbn [py existsb].
  rewrite !orb_true_iff. unfold char_eqb. rewrite !N.eqb_eq.
  intros [E|[E|[E|[E|[E|E]]]]]; try discriminate; subst c; vm_compute;
    split; congruence.
Qed.

Lemma numeric_corrected_digit (c : char) :
  numeric_char c = true -> is_digit (correct_char c) = true.
Proof.
  unfold numeric_char. intro H. apply orb_true_iff in H as [D|L].
  - now rewrite correct_char_digit.
  - now apply look_alike_changes.
Qed.

(** A word of digits and the look-alike letters [O], [o], [I], [l] and [|],
    with at least one such letter, is corrected as a number, whatever the
    similarity ratio and the domain words: every look-alike becomes its
    digit, and the result has digits only. *)
Theorem look_alike_words_become_numbers
    (ratio : str -> str -> Q) (iteration_order : list str) (word : str) :
  forallb numeric_char word = true ->
  existsb digit_look_alike word = true ->
  _correct_word ratio iteration_order word = (_correct_number word, number_correction) /\
  forallb is_digit (_correct_number word) = true /\
  _correct_number word <> word.
Proof.
  intros A E.
  assert (Hneq : _correct_number word <> word).
  { change (_correct_number word) with (map correct_char word).
    clear A. induction word as [|c w IH]; [discriminate|].
    cbn [existsb] in E. cbn [map]. intro H. injection H as Hc Hw.
    apply orb_true_iff in E as [E|E].
    - now destruct (look_alike_changes c E).
    - now apply IH. }
  split; [|split; [|exact Hneq]].
  - unfold _correct_word.
    set (P := fun c => is_digit c || one_of (py "oil|") c).
    assert (L : forallb P (lower word) = true).
    { unfold lower. apply forallb_forall. intros c Hc.
      apply in_map_iff in Hc as (c0 & <- & Hc0).
      rewrite forallb_forall in A. apply numeric_lower. now apply A. }
    assert (L1 : lookup (lower word) word_corrections = None).
    { apply lookup_none.
      repeat (constructor; [apply (str_eqb_differs P _ _ L); reflexivity|]).
      constructor. }
    assert (L2 : mem (lower word) domain_words = false).
    { unfold mem. destruct (existsb (str_eqb (lower word)) domain_words) eqn:M;
        [|reflexivity].
      apply existsb_exists in M as (k & Hk & M). rewrite str_eqb_sym in M.
      cbn in Hk.
      repeat (destruct Hk as [<-|Hk];
              [rewrite (str_eqb_differs P _ _ L) in M; [discriminate|reflexivity]|]).
      destruct Hk. }
    assert (L3 : _looks_like_number word = true).
    { apply looks_like_number_iff. unfold foreign.
      replace (filter (fun c => negb (number_like c)) word) with (@nil char);
        [cbn; lia|].
      symmetry. clear E Hneq L L1 L2. induction word as [|c w IH]; [reflexivity|].
      cbn [forallb] in A. apply andb_true_iff in A as [Ac Aw].
      cbn [filter]. rewrite (numeric_char_number_like c Ac). cbn [negb]. now apply IH. }
    rewrite L1, L2, L3.
    destruct (str_eqb (_correct_number word) word) eqn:Eq; [|reflexivity].
    apply str_eqb_eq in Eq. contradiction.
  - change (_correct_number word) with (map correct_char word).
    apply forallb_forall. intros c Hc. apply in_map_iff in Hc as (c0 & <- & Hc0).
    rewrite forallb_forall in A. apply numeric_corrected_digit. now apply A.
Qed.

Lemma look_alike_words_become_numbers_witness :
  _correct_word (fun _ _ => 0%Q) [] (py "l0O|") = (py "1001", number_correction).
Proof.
  destruct (look_alike_words_become_numbers (fun _ _ => 0%Q) [] (py "l0O|")
              eq_refl eq_refl) as [H _].
  exact H.
Defined.

End NumberCorrection.

Section BestMatch.
Import Py ErrorCorrection Spec.

Variable ratio : str -> str -> Q.




End BestMatch.

Section CorrectionExamples.
Import Py ErrorCorrection Spec.

Lemma correct_records_are_changes_witness :
  type {| original := py "teh"; corrected := py "the"; type := word_correction |}
  <> no_correction.
Proof.
  apply (correct_records_are_changes (fun _ _ => 0%Q) [] (py "(teh) Total")).
  vm_compute. left. reflexivity.
Defined.

Lemma correct_without_records_witness :
  fst (correct (fun _ _ => 0%Q) [] (py "Total   due :  5"))
  = _fix_spacing (join (py " ") (split_ws (py "Total   due :  5"))).
Proof.
  apply (correct_without_records (fun _ _ => 0%Q) [] (py "Total   due :  5")).
  vm_compute. reflexivity.
Defined.

Lemma domain_words_are_kept_witness :
  _correct_word (fun _ _ => 1%Q) [py "totals"] (py "TOTAL") = (py "TOTAL", no_correction).
Proof.
  apply (domain_words_are_kept (fun _ _ => 1%Q) [py "totals"] (py "TOTAL")).
  vm_compute. tauto.
Defined.

End CorrectionExamples.

(** ** Lines of recognised text *)

Section OrganizeText.
Import Py Ocr Spec.

Lemma ocr_key_yx_le (a b : TextBlock) :
  key_yx a b = true <->
  (block_y a < block_y b)%Z \/ (block_y a = block_y b /\ (block_x a <= block_x b)%Z).
Proof.
  unfold key_yx.
  rewrite orb_true_iff, andb_true_iff, Z.ltb_lt, Z.eqb_eq, Z.leb_le. tauto.
Qed.

Lemma sorted_blocks_tops (bs : list TextBlock) :
  StronglySorted (fun a b => (block_y a <= block_y b)%Z) (sorted key_yx bs).
Proof.
  assert (S : StronglySorted (fun a b => key_yx a b = true) (sorted key_yx bs)).
  { apply sorted_le_sorted.
    - intros a b H. apply ocr_key_yx_le.
      assert (N : ~ (key_yx a b = true)) by congruence.
      rewrite ocr_key_yx_le in N. lia.
    - intros a b c. rewrite !ocr_key_yx_le. lia. }
  induction S as [|a l _ IH F]; constructor; [exact IH|].
  eapply Forall_impl; [|exact F]. cbv beta. intros b H. apply ocr_key_yx_le in H. lia.
Qed.

Lemma spaced_snoc (tops : list Z) (a z : Z) :
  spaced (tops ++ [a]) -> (20 < z - a)%Z -> spaced ((tops ++ [a]) ++ [z]).
Proof.
  induction tops as [|t tops IH]; intros S G.
  - cbn. auto.
  - destruct tops as [|t' tops'].
    + cbn in *. tauto.
    + cbn [app spaced] in *. destruct S as [G1 S]. split; [exact G1|]. now apply IH.
Qed.

Lemma line_fold (rest : list TextBlock) :
  forall (lines : list (list TextBlock)) (current_line : list TextBlock) (current_y : Z),
  within_line current_line -> current_y = line_top current_line ->
  Forall within_line lines -> spaced (map line_top (lines ++ [current_line])) ->
  StronglySorted (fun a b => (block_y a <= block_y b)%Z) rest ->
  (forall b, In b rest -> (current_y <= block_y b)%Z) ->
  exists lines' current_line' current_y',
    fold_left line_step rest (lines, current_line, current_y)
      = (lines', current_line', current_y') /\
    within_line current_line' /\ Forall within_line lines' /\
    spaced (map line_top (lines' ++ [current_line'])) /\
    concat (lines' ++ [current_line']) = concat (lines ++ [current_line]) ++ rest.
Proof.
  induction rest as [|b rest IH]; intros lines cur cy W Hcy F Sp St Low.
  - exists lines, cur, cy. repeat (split; [assumption || reflexivity|]).
    now rewrite app_nil_r.
  - apply StronglySorted_inv in St as [St' Fb]. rewrite Forall_forall in Fb.
    assert (Hb : (cy <= block_y b)%Z) by (apply Low; now left).
    cbn [fold_left]. unfold line_step at 2.
    destruct W as [Ne Wb].
    destruct (Z.ltb_spec 20 (Z.abs (block_y b - cy))) as [Far|Near].
    + destruct cur as [|c0 cur']; [contradiction|].
      destruct (IH (lines ++ [c0 :: cur']) [b] (block_y b)) as (l' & c' & y' & E & R).
      * split; [discriminate|]. intros x [<-|[]]. cbn. lia.
      * reflexivity.
      * apply Forall_app. split; [exact F|]. constructor; [|constructor].
        split; [discriminate|exact Wb].
      * rewrite !map_app. cbn [map]. rewrite map_app in Sp. cbn [map] in Sp.
        apply spaced_snoc; [exact Sp|]. cbn [line_top] in *. lia.
      * exact St'.
      * exact Fb.
      * exists l', c', y'. split; [exact E|].
        destruct R as (R1 & R2 & R3 & R4). repeat (split; [assumption|]).
        rewrite R4, !concat_app. cbn [concat]. rewrite !app_nil_r.
        now rewrite <- !app_assoc.
    + destruct (IH lines (cur ++ [b]) cy) as (l' & c' & y' & E & R).
      * split.
        -- intro H. apply app_eq_nil in H as [_ H]. discriminate.
        -- assert (T : line_top (cur ++ [b]) = line_top cur)
             by (destruct cur; [contradiction|reflexivity]).
           rewrite T. intros x Hx. apply in_app_or in Hx as [Hx|[<-|[]]];
             [now apply Wb|]. lia.
      * destruct cur; [contradiction|exact Hcy].
      * exact F.
      * rewrite map_app in *. cbn [map] in *.
        replace (line_top (cur ++ [b])) with (line_top cur)
          by (destruct cur; [contradiction|reflexivity]).
        exact Sp.
      * exact St'.
      * intros x Hx. apply Low. now right.
      * exists l', c', y'. split; [exact E|].
        destruct R as (R1 & R2 & R3 & R4). repeat (split; [assumption|]).
        rewrite R4, !concat_app. cbn [concat]. rewrite !app_nil_r.
        now rewrite <- !app_assoc.
Qed.

Lemma group_lines_sorted (l : list TextBlock) :
  StronglySorted (fun a b => (block_y a <= block_y b)%Z) l ->
  concat (group_lines l) = l /\ Forall within_line (group_lines l) /\
  spaced (map line_top (group_lines l)).
Proof.
  intro St. destruct l as [|first rest]; [cbn; auto|].
  apply StronglySorted_inv in St as [St' Fb]. rewrite Forall_forall in Fb.
  assert (E0 : line_step ([], [], block_y first) first = ([], [first], block_y first)).
  { unfold line_step. rewrite Z.sub_diag. reflexivity. }
  unfold group_lines. cbn [fold_left]. rewrite E0.
  destruct (line_fold rest [] [first] (block_y first)) as (l' & c' & y' & E & W & F & Sp & C).
  - split; [discriminate|]. intros x [<-|[]]. cbn. lia.
  - reflexivity.
  - constructor.
  - cbn. exact I.
  - exact St'.
  - exact Fb.
  - rewrite E. destruct c' as [|c0 c']; [now destruct W|].
    split; [exact C|]. split; [|exact Sp].
    apply Forall_app. split; [exact F|]. constructor; [exact W|constructor].
Qed.

(** [_organize_text] puts the blocks, in the order of (top, left), into
    consecutive lines: no block is lost or repeated, no line is empty, no
    block of a line lies more than 20 pixels below the line's first block,
    and each line starts more than 20 pixels below the start of the line
    before it.  The text is the lines, each sorted by the left edge and
    joined by spaces, joined by newlines. *)
Theorem organize_text_lines (blocks : list TextBlock) :
  let lines := group_lines (sorted key_yx blocks) in
  concat lines = sorted key_yx blocks /\
  Permutation (concat lines) blocks /\
  Forall within_line lines /\
  spaced (map line_top lines) /\
  _organize_text blocks = join [10%N] (map render_line lines).
Proof.
  cbv zeta.
  destruct (group_lines_sorted (sorted key_yx blocks) (sorted_blocks_tops blocks))
    as (C & W & Sp).
  split; [exact C|]. split; [rewrite C; apply sorted_perm|].
  split; [exact W|]. split; [exact Sp|].
  destruct blocks; reflexivity.
Qed.

(** Blocks whose tops are within 20 pixels of each other come out as one
    line, sorted by the left edge. *)
Theorem organize_text_one_line (blocks : list TextBlock) :
  blocks <> [] ->
  (forall b b', In b blocks -> In b' blocks -> (block_y b' - block_y b <= 20)%Z) ->
  _organize_text blocks = render_line (sorted key_yx blocks).
Proof.
  intros Ne Near.
  destruct (group_lines_sorted (sorted key_yx blocks) (sorted_blocks_tops blocks))
    as (C & W & Sp).
  assert (P : Permutation (concat (group_lines (sorted key_yx blocks))) blocks)
    by (rewrite C; apply sorted_perm).
  replace (_organize_text blocks)
    with (join [10%N] (map render_line (group_lines (sorted key_yx blocks))))
    by (destruct blocks; reflexivity).
  destruct (group_lines (sorted key_yx blocks)) as [|l1 [|l2 ls]] eqn:G.
  - cbn in P. apply Permutation_nil in P. contradiction.
  - cbn in C. rewrite app_nil_r in C. subst l1. reflexivity.
  - exfalso. cbn [map spaced] in Sp. destruct Sp as [Gap _].
    inversion W as [|? ? W1 W']; subst. inversion W' as [|? ? W2 _]; subst.
    destruct l1 as [|b1 l1']; [now destruct W1|].
    destruct l2 as [|b2 l2']; [now destruct W2|].
    cbn [line_top] in Gap.
    assert (In b1 blocks) by (eapply Permutation_in; [exact P|]; cbn; now left).
    assert (In b2 blocks).
    { eapply Permutation_in; [exact P|]. cbn. right.
      apply in_or_app. right. now left. }
    specialize (Near b1 b2 ltac:(assumption) ltac:(assumption)). lia.
Qed.

Lemma organize_text_lines_witness :
  _organize_text sample_blocks = py "Total: 5" ++ [10%N] ++ py "due".
Proof.
  destruct (organize_text_lines sample_blocks) as (_ & _ & _ & _ & E).
  rewrite E. vm_compute. reflexivity.
Defined.

Lemma organize_text_one_line_witness :
  _organize_text (tl sample_blocks) = py "Total: 5".
Proof.
  rewrite (organize_text_one_line (tl sample_blocks)).
  - vm_compute. reflexivity.
  - discriminate.
  - intros b b' Hb Hb'. cbn in Hb, Hb'.
    destruct Hb as [<-|[<-|[]]], Hb' as [<-|[<-|[]]]; cbn; lia.
Defined.

End OrganizeText.

(** ** Decimal numerals *)

Section Numerals.
Import Py Re Spec.















End Numerals.

(** ** Columns and values of plain integers *)

Section IntegerCells.
Import Py Re Spec.


Lemma go_opt_class_end {A} (p : char -> bool) (cs : captures)
    (k : str -> captures -> option A) :
  go (Opt (Cls p)) [] cs k = k [] cs.
Proof. reflexivity. Qed.















End IntegerCells.

(** ** The text of a region *)

Section RegionText.
Import Py Structuring Spec.

Lemma centre_after (r b s : Z) :
  Qle_bool (zq r) (zq b + zq s / 2) = (2 * r <=? 2 * b + s)%Z.
Proof.
  unfold Qle_bool, Qplus, Qdiv, Qmult, Qinv, zq, inject_Z. cbn [Qnum Qden].
  apply eq_true_iff_eq. rewrite !Z.leb_le. cbn [Z.pos_sub Pos.mul]. lia.
Qed.

Lemma centre_before (r b s : Z) :
  Qle_bool (zq b + zq s / 2) (zq r) = (2 * b + s <=? 2 * r)%Z.
Proof.
  unfold Qle_bool, Qplus, Qdiv, Qmult, Qinv, zq, inject_Z. cbn [Qnum Qden].
  apply eq_true_iff_eq. rewrite !Z.leb_le. cbn [Z.pos_sub Pos.mul]. lia.
Qed.

(** The text of a region is the texts of the tokens whose centre lies in
    the region, edges included, in the order of the input and joined by
    single spaces. *)
Theorem text_in_region_is_centred_tokens (ocr_blocks : list ocr_block) (region_bbox : rect) :
  _get_text_in_region ocr_blocks region_bbox
  = join (py " ") (map ob_text (filter (centre_inside region_bbox) ocr_blocks)).
Proof.
  unfold _get_text_in_region.
  destruct region_bbox as [[[rx ry] rw] rh]. f_equal.
  induction ocr_blocks as [|b bs IH]; [reflexivity|].
  cbn [flat_map filter]. rewrite IH. unfold centre_inside at 2.
  destruct (ob_bbox b) as [[[bx by_] bw] bh].
  rewrite !centre_after, !centre_before.
  destruct (_ && _ && _ && _)%bool; reflexivity.
Qed.

(** [_parse_list] never returns an empty list, and an empty item only as
    the whole text of a region without items. *)
Theorem parse_list_has_items (text : str) :
  _parse_list text <> [] /\
  forall item, In item (_parse_list text) -> item = [] -> _parse_list text = [text].
Proof.
  unfold _parse_list.
  set (items := flat_map _ (split_on 10 text)).
  assert (H : Forall (fun item => item <> []) items).
  { unfold items. apply Forall_forall. intros item Hi.
    apply in_flat_map in Hi as (line & _ & Hi).
    destruct (strip line); [destruct Hi|].
    destruct (Re.re_sub_prefix _ _) as [|c0 cl]; [destruct Hi|].
    destruct Hi as [<-|[]]. discriminate. }
  destruct items as [|i0 items']; [split; [discriminate|reflexivity]|].
  split; [discriminate|].
  intros item Hi E. rewrite Forall_forall in H. now destruct (H item Hi).
Qed.

End RegionText.

(** ** Pages of one column and of one row *)

Section ColumnsAndRows.
Import Py Layout Spec.

Lemma group_rows_stack (l : list (nat * LayoutRegion)) :
  (forall pre a c post, l = pre ++ a :: c :: post -> y_overlap (snd c) (snd a) = false) ->
  group_rows l = map (fun x => [x]) l.
Proof.
  induction l as [|a l IH]; intro H; [reflexivity|].
  destruct l as [|c l2]; [reflexivity|].
  change (a :: c :: l2) with ([a] ++ c :: l2).
  rewrite group_rows_split.
  - rewrite IH; [reflexivity|].
    intros pre x y post E. apply (H (a :: pre) x y post). now rewrite E.
  - discriminate.
  - cbn [last]. apply (H [] a c l2). reflexivity.
Qed.

Lemma fold_group_line (l : list (nat * LayoutRegion)) :
  forall rows cur, cur <> [] ->
  (forall a c, In a (cur ++ l) -> In c (cur ++ l) -> y_overlap (snd c) (snd a) = true) ->
  fold_left group_step l (rows, cur) = (rows, cur ++ l).
Proof.
  induction l as [|x l IH]; intros rows cur Ne H.
  - now rewrite app_nil_r.
  - cbn [fold_left]. unfold group_step at 2.
    destruct cur as [|first others]; [contradiction|].
    rewrite H.
    + rewrite IH.
      * now rewrite <- app_assoc.
      * intro E. apply app_eq_nil in E as [_ E]. discriminate.
      * intros a c Ha Hc. rewrite <- app_assoc in Ha, Hc. now apply H.
    + apply in_or_app. left.
      destruct (exists_last (l:=first :: others) ltac:(discriminate)) as (l' & z & E).
      rewrite E, last_last. rewrite <- E. rewrite E.
      apply in_or_app. right. now left.
    + apply in_or_app. right. now left.
Qed.

Lemma sorted_by_one {X} (key : X -> Z) (x : X) : sorted_by key [x] = [x].
Proof. reflexivity. Qed.

Lemma by_top_perm (found : list LayoutRegion) :
  Permutation (by_top found) (enumerate found).
Proof. apply sorted_perm. Qed.

Lemma by_top_nth (found : list LayoutRegion) (i : nat) (a : LayoutRegion) :
  In (i, a) (by_top found) -> nth_error found i = Some a.
Proof.
  intro H. apply (Permutation_in _ (by_top_perm found)) in H.
  unfold enumerate in H. apply in_enumerate_from in H as [_ H].
  now rewrite Nat.sub_0_r in H.
Qed.

(** On a page where no two regions overlap vertically, the reading order is
    the order of the tops, regions of equal top in the order of the input. *)
Theorem stacked_regions_read_top_down (found : list LayoutRegion) :
  stacked found ->
  _determine_reading_order found = map fst (by_top found).
Proof.
  intro St. rewrite reading_order_eq. fold (by_top found).
  assert (ND : NoDup (map fst (by_top found))).
  { eapply Permutation_NoDup.
    - symmetry. apply Permutation_map. apply by_top_perm.
    - unfold enumerate. rewrite map_fst_enumerate_from. apply seq_NoDup. }
  rewrite group_rows_stack.
  - unfold read_rows. induction (by_top found) as [|x l IH]; [reflexivity|].
    cbn [map flat_map]. rewrite sorted_by_one. cbn [map app]. f_equal.
    apply IH. now inversion ND.
  - intros pre [i a] [j c] post E. cbn [snd].
    assert (Ha : In (i, a) (by_top found))
      by (rewrite E; apply in_or_app; right; now left).
    assert (Hc : In (j, c) (by_top found))
      by (rewrite E; apply in_or_app; right; right; now left).
    apply (St j i c a); [|now apply by_top_nth|now apply by_top_nth].
    rewrite E, map_app in ND. apply NoDup_app_remove_l in ND.
    cbn [map fst] in ND. inversion ND as [|? ? Ni _]; subst.
    intros ->. apply Ni. now left.
Qed.

(** On a page where any two regions overlap vertically, the regions are
    read from left to right; regions of equal left edge in the order of
    their tops. *)
Theorem side_by_side_regions_read_left_to_right (found : list LayoutRegion) :
  side_by_side found ->
  _determine_reading_order found = map fst (sorted_by key_x (by_top found)).
Proof.
  intro Sd. rewrite reading_order_eq. fold (by_top found).
  assert (In_found : forall x, In x (by_top found) -> In (snd x) found).
  { intros [i a] H. apply by_top_nth in H. cbn [snd]. eapply nth_error_In. exact H. }
  rewrite group_rows_close.
  destruct (by_top found) as [|x l] eqn:E; [reflexivity|].
  cbn [fold_left]. change (group_step ([], []) x) with (@nil (list (nat * LayoutRegion)), [x]).
  rewrite fold_group_line.
  - unfold close_rows, read_rows. cbn [snd fst app flat_map]. now rewrite app_nil_r.
  - discriminate.
  - intros a c Ha Hc. apply Sd; apply In_found; assumption.
Qed.

Lemma stacked_regions_read_top_down_witness :
  _determine_reading_order
    [region_at 0 100 50 20; region_at 30 0 50 20; region_at 0 50 50 20]
  = [1; 2; 0].
Proof.
  rewrite stacked_regions_read_top_down; [reflexivity|].
  intros i j a b N Hi Hj.
  destruct i as [|[|[|i]]]; cbn in Hi; try (destruct i; discriminate);
    destruct j as [|[|[|j]]]; cbn in Hj; try (destruct j; discriminate);
    try congruence;
    injection Hi as <-; injection Hj as <-; reflexivity.
Defined.

Lemma side_by_side_regions_read_left_to_right_witness :
  _determine_reading_order
    [region_at 100 0 50 40; region_at 0 10 50 40; region_at 50 20 50 40]
  = [1; 2; 0].
Proof.
  rewrite side_by_side_regions_read_left_to_right; [reflexivity|].
  intros a b Ha Hb. cbn in Ha, Hb.
  destruct Ha as [<-|[<-|[<-|[]]]], Hb as [<-|[<-|[<-|[]]]]; reflexivity.
Defined.

End ColumnsAndRows.

Section DetectFlags.
Import Py Layout Spec.

Lemma existsb_map {X Y} (f : Y -> bool) (g : X -> Y) (l : list X) :
  existsb f (map g l) = existsb (fun x => f (g x)) l.
Proof. induction l as [|x l IH]; [reflexivity|]. cbn. now rewrite IH. Qed.

(** [detect] returns, and its flags tell whether one of the regions found
    is a table and whether one is a figure; the types of the regions are
    those found, in the order found. *)
Theorem detect_flags (found : list LayoutRegion) (size : Z * Z) :
  exists res,
    detect found size = Ok res /\
    map type (regions res) = map type found /\
    has_tables res = existsb (fun r => RegionType_eqb (type r) TABLE) found /\
    has_figures res = existsb (fun r => RegionType_eqb (type r) FIGURE) found /\
    page_size res = size.
Proof.
  pose proof (reading_order_perm found) as P.
  remember (_determine_reading_order found) as ro eqn:Ero.
  assert (ND : NoDup ro) by (eapply Permutation_NoDup; [symmetry; exact P|apply seq_NoDup]).
  assert (B : forall i, In i ro <-> i < length found).
  { intro i. split; intro H.
    - apply (Permutation_in _ P) in H. apply in_seq in H. lia.
    - apply (Permutation_in _ (Permutation_sym P)). apply in_seq. lia. }
  destruct (update_orders_ok ro 0 found ND) as (rs & E & L & Ht & _).
  { intros i H. now apply B. }
  assert (T : map type rs = map type found).
  { apply nth_error_ext. intro i. rewrite !nth_error_map.
    destruct (Nat.lt_ge_cases i (length found)) as [Lt|Ge].
    - apply B in Lt. apply In_nth_error in Lt as (t & Hti).
      destruct (Ht t i Hti) as (r & Hr & Hr'). now rewrite Hr, Hr'.
    - rewrite (proj2 (nth_error_None found i)) by lia.
      now rewrite (proj2 (nth_error_None rs i)) by lia. }
  unfold detect. rewrite <- Ero. unfold enumerate. rewrite E. cbn [bind].
  eexists. split; [reflexivity|].
  cbn [regions has_tables has_figures page_size].
  split; [exact T|].
  rewrite <- (existsb_map (fun t => RegionType_eqb t TABLE) type rs).
  rewrite <- (existsb_map (fun t => RegionType_eqb t FIGURE) type rs).
  rewrite T, !existsb_map. repeat split.
Qed.

End DetectFlags.
